(** * vscode-jest-test-adapter: the tree-building core

    A shallow embedding of [src/helpers/JestToTestAdapterMapper.ts] and
    [src/TestLoader.ts], and the properties of the specification checked
    against it. *)

From Stdlib Require Import ZArith Ascii String Lia.
From stdpp Require Import base decidable option list strings sets.
From Equations Require Import Equations.
From Equations.Prop Require Logic.

Local Open Scope string_scope.
Local Open Scope list_scope.
Local Open Scope Z_scope.

(** ** Data model ([vscode-test-adapter-api])

    [TestInfo | TestSuiteInfo] is a tagged union.  A [TestInfo] has no
    [children] field, a [TestSuiteInfo] always has one, so the source's
    truthiness test [(x as TestSuiteInfo).children] (an array, even an empty
    one, is truthy) holds exactly for the [TestSuiteInfo] constructor. *)

#[local] Unset Elimination Schemes.
Inductive TreeNode : Type :=
| TestInfo (id label : string) (file : option string) (line : option Z)
           (skipped : option bool)
| TestSuiteInfo (id label : string) (file : option string) (line : option Z)
                (children : list TreeNode).
#[local] Set Elimination Schemes.

Definition node_id (n : TreeNode) : string :=
  match n with
  | TestInfo i _ _ _ _ => i
  | TestSuiteInfo i _ _ _ _ => i
  end.

Definition node_label (n : TreeNode) : string :=
  match n with
  | TestInfo _ l _ _ _ => l
  | TestSuiteInfo _ l _ _ _ => l
  end.

Definition node_line (n : TreeNode) : option Z :=
  match n with
  | TestInfo _ _ _ l _ => l
  | TestSuiteInfo _ _ _ l _ => l
  end.

(** [x.children], [None] standing for [undefined]. *)
Definition node_children (n : TreeNode) : option (list TreeNode) :=
  match n with
  | TestInfo _ _ _ _ _ => None
  | TestSuiteInfo _ _ _ _ cs => Some cs
  end.

Definition is_test (n : TreeNode) : bool :=
  match n with
  | TestInfo _ _ _ _ _ => true
  | TestSuiteInfo _ _ _ _ _ => false
  end.



(** Induction on a tree, with the property for the children of a suite. *)
Section TreeNode_induction.
Variable P : TreeNode → Prop.
Hypothesis Htest : ∀ i l f ln sk, P (TestInfo i l f ln sk).
Hypothesis Hsuite : ∀ i l f ln cs, Forall P cs → P (TestSuiteInfo i l f ln cs).

Fixpoint TreeNode_ind (n : TreeNode) : P n :=
  match n with
  | TestInfo i l f ln sk => Htest i l f ln sk
  | TestSuiteInfo i l f ln cs =>
      Hsuite i l f ln cs
        ((fix children_ind (cs : list TreeNode) : Forall P cs :=
            match cs with
            | [] => Forall_nil_2 P
            | c :: cs' => Forall_cons_2 P c cs' (TreeNode_ind c) (children_ind cs')
            end) cs)
  end.
End TreeNode_induction.

(** ** Strings (the JavaScript built-ins the mapper calls)

    Strings are sequences of bytes here (the UTF-8 form of the text) and of
    UTF-16 code units in the source.  The built-ins below look for ASCII
    text ([/], [\]) or compare character by character, which finds the same
    places in both forms.  The one built-in for which the form matters is
    the match of the working directory with the [i] flag, see [eqb_ci]. *)

Module JsString.

(** The text is ASCII: every character is below 128. *)
Fixpoint asciiText (s : string) : bool :=
  match s with
  | EmptyString => true
  | String c s' => (nat_of_ascii c <? 128)%nat && asciiText s'
  end.

(** [Canonicalize] of a regular expression with the [i] flag, for a pattern
    that is ASCII text: a lower-case letter is compared as its upper-case
    form, and no character above 127 is taken for one below, so a character
    of such a pattern matches the bytes [eqb_ci] accepts and no others.  For
    a pattern with other letters the source folds those as well, which a
    comparison of bytes does not follow: the properties that rest on which
    text is matched are stated for a working directory that is
    [asciiText]. *)
Definition toUpperCase (c : ascii) : ascii :=
  let n := nat_of_ascii c in
  if ((97 <=? n) && (n <=? 122))%nat then ascii_of_nat (n - 32) else c.

Definition eqb_ci (a b : ascii) : bool :=
  Ascii.eqb (toUpperCase a) (toUpperCase b).

(** [w] matches at the start of [s], characters compared by [eqc]. *)
Fixpoint starts_with (eqc : ascii → ascii → bool) (w s : string) : bool :=
  match w with
  | EmptyString => true
  | String a w' =>
      match s with
      | EmptyString => false
      | String b s' => eqc a b && starts_with eqc w' s'
      end
  end.

(** [w] matches somewhere in [s]. *)
Fixpoint occurs (eqc : ascii → ascii → bool) (w s : string) : bool :=
  starts_with eqc w s ||
  match s with
  | EmptyString => false
  | String _ s' => occurs eqc w s'
  end.

(** The number of positions of [s] at which [w] matches. *)
Fixpoint occurrences (eqc : ascii → ascii → bool) (w s : string) : nat :=
  ((if starts_with eqc w s then 1 else 0) +
   match s with
   | EmptyString => 0
   | String _ s' => occurrences eqc w s'
   end)%nat.

(** [s.includes(w)] *)
Definition includes (s w : string) : bool := occurs Ascii.eqb w s.

(** The left-to-right scan of a global replace by the empty string:
    [skip] characters of the current match are still to be dropped. *)
Fixpoint removeAll_scan (eqc : ascii → ascii → bool) (w : string) (skip : nat)
  (s : string) : string :=
  match s with
  | EmptyString => EmptyString
  | String c s' =>
      match skip with
      | S k => removeAll_scan eqc w k s'
      | O =>
          if starts_with eqc w s
          then removeAll_scan eqc w (String.length w - 1) s'
          else String c (removeAll_scan eqc w 0 s')
      end
  end.

(** [s.replace(new RegExp(<literal w>, "g"), "")]: every match of the
    literal text [w], found from left to right without overlap, is removed.
    The empty pattern matches the empty string only, and replacing that by
    the empty string changes nothing. *)
Definition removeAll (eqc : ascii → ascii → bool) (w s : string) : string :=
  match w with
  | EmptyString => s
  | String _ _ => removeAll_scan eqc w 0 s
  end.

(** [s.replace(/\\/g, "/")] *)
Fixpoint backslashesToSlashes (s : string) : string :=
  match s with
  | EmptyString => EmptyString
  | String c s' =>
      String (if Ascii.eqb c "\" then "/"%char else c) (backslashesToSlashes s')
  end.

Definition push_front (c : ascii) (parts : list string) : list string :=
  match parts with
  | [] => [String c EmptyString]
  | p :: ps => String c p :: ps
  end.

(** The scan of [split] with a non-empty separator. *)
Fixpoint split_scan (sep : string) (skip : nat) (s : string) : list string :=
  match s with
  | EmptyString => [EmptyString]
  | String c s' =>
      match skip with
      | S k => split_scan sep k s'
      | O =>
          if starts_with Ascii.eqb sep s
          then EmptyString :: split_scan sep (String.length sep - 1) s'
          else push_front c (split_scan sep 0 s')
      end
  end.

Fixpoint chars (s : string) : list string :=
  match s with
  | EmptyString => []
  | String c s' => String c EmptyString :: chars s'
  end.

(** [s.split(sep)]; with the empty separator the string is cut into its
    characters. *)
Definition split (s sep : string) : list string :=
  match sep with
  | EmptyString => chars s
  | String _ _ => split_scan sep 0 s
  end.

(** [parts.join(sep)], where an [undefined] element is written as the
    empty string. *)
Definition join (parts : list (option string)) (sep : string) : string :=
  String.concat sep (map (default EmptyString) parts).

(** [a[i]] for a number [i]: [undefined] out of range. *)
Definition at_index {A} (a : list A) (i : Z) : option A :=
  if decide (i < 0) then None else a !! Z.to_nat i.

End JsString.

(** ** Completions and promises *)

Inductive JsError : Type := TypeError.

(** The completion of a synchronous call: a value or a thrown exception. *)
Inductive Completion (A : Type) : Type :=
| Normal (a : A)
| Throw (e : JsError).
Arguments Normal {A} a.
Arguments Throw {A} e.

Definition completion_bind {A B} (c : Completion A) (k : A → Completion B) : Completion B :=
  match c with
  | Normal a => k a
  | Throw e => Throw e
  end.

Notation "x ←! c ; k" := (completion_bind c (λ x, k))
  (at level 100, c at next level, right associativity).

(** The settled state of a promise.  A rejection carries no reason: which of
    several failing operations settles a [Promise.all] first is a matter of
    timing. *)
Inductive Promise (A : Type) : Type :=
| Resolved (a : A)
| Rejected.
Arguments Resolved {A} a.
Arguments Rejected {A}.

(** [await p; k] inside an [async] function. *)
Definition await {A B} (p : Promise A) (k : A → Promise B) : Promise B :=
  match p with
  | Resolved a => k a
  | Rejected => Rejected
  end.

Notation "x ←await p ; k" := (await p (λ x, k))
  (at level 100, p at next level, right associativity).

(** [Promise.all]: resolved with all the values, in the order of the
    promises, when every one resolves; rejected as soon as one rejects. *)
Fixpoint Promise_all {A} (ps : list (Promise A)) : Promise (list A) :=
  match ps with
  | [] => Resolved []
  | p :: ps' =>
      match p, Promise_all ps' with
      | Resolved a, Resolved l => Resolved (a :: l)
      | _, _ => Rejected
      end
  end.

(** ** [JestToTestAdapterMapper] *)

(** What the mapper imports from files of the repository that are not among
    the sources: the constant [TEST_ID_SEPARATOR] of [src/constants.ts] and
    the function [escapeRegExp] of [src/helpers/escapeRegExp.ts]. *)
Class MapperImports : Type := {
  TEST_ID_SEPARATOR : string;
  escapeRegExp : string → string;
}.

(** [jest-editor-support] *)
Inductive TestReconcilationState : Type :=
| Unknown | KnownSuccess | KnownFail | KnownSkip.

Global Instance TestReconcilationState_eq_dec : EqDecision TestReconcilationState.
Proof. solve_decision. Defined.

Record TestAssertionStatus : Type := {
  tas_title : string;
  tas_status : TestReconcilationState;
  tas_terseMessage : option string;
  tas_line : option Z;
}.

Record TestReconciler : Type := {
  (** [null] when the file has no recorded results *)
  assertionsForTestFile : string → option (list TestAssertionStatus);
}.

Record JestAssertionResults : Type := {
  jar_title : string;
  jar_fullName : string;
  jar_ancestorTitles : option (list string);
}.

Record JestFileResults : Type := {
  jfr_name : string;
  jfr_assertionResults : list JestAssertionResults;
}.

Record ItBlock : Type := {
  (** [None]: the block has no name *)
  it_name : option string;
  it_file : string;
  it_start_line : Z;
}.

Record IParseResults : Type := {
  itBlocks : list ItBlock;
}.

Record TestDecoration : Type := {
  td_line : Z;
  td_message : string;
}.

(** [src/types.ts] *)
Record ITestFilter : Type := {
  testFileNamePattern : string;
  testNamePattern : option string;
}.

Record JestToTestAdapterMapper : Type := {
  workDir : string;
}.

(** [x ? x : d] and [x || d] on an optional string: the empty string is falsy. *)
Definition truthy_or (x : option string) (d : string) : string :=
  match x with
  | Some (String c s) => String c s
  | _ => d
  end.

Module Mapper.
Section Mapper.
Context `{MapperImports}.

(** Modelled from the spec: [escapeRegExp] is missing from the sources; it
    makes a regular expression that matches its argument as literal text, so
    [s.replace(new RegExp(escapeRegExp(workDir), "ig"), "")] removes every
    occurrence of the text [workDir] from [s], letter case ignored. *)
Definition stripWorkDir (workDir fileName : string) : string :=
  JsString.removeAll JsString.eqb_ci workDir fileName.

(** The local [pathWithoutWorkDir] of [getTestId] and of
    [transformFileResultIntoTree]. *)
Definition pathWithoutWorkDir (this : JestToTestAdapterMapper) (fileName : string) : string :=
  JsString.backslashesToSlashes (stripWorkDir (workDir this) fileName).

Definition getTestId (this : JestToTestAdapterMapper) (fileName testName : string) : string :=
  pathWithoutWorkDir this fileName +:+ TEST_ID_SEPARATOR +:+ "^"
    +:+ escapeRegExp testName +:+ "$".

Definition getAssertionStatus (result : JestAssertionResults) (file : string)
  (reconciler : option TestReconciler) : option TestAssertionStatus :=
  match reconciler with
  | Some r =>
      let fileResult := default [] (assertionsForTestFile r file) in
      snd <$> list_find (λ x, tas_title x = jar_fullName result) fileResult
  | None => None
  end.

Definition mapJestAssertionToTestDecorations (result : JestAssertionResults)
  (file : string) (reconciler : option TestReconciler) : list TestDecoration :=
  match getAssertionStatus result file reconciler with
  | Some assertionResult =>
      [ {| (* [line || 0]: [undefined] and [0] both give [0] *)
           td_line := default 0 (tas_line assertionResult);
           td_message := truthy_or (tas_terseMessage assertionResult) "" |} ]
  | None => []
  end.

Definition mapJestAssertionToTestInfo (this : JestToTestAdapterMapper)
  (assertionResult : JestAssertionResults) (fileResult : JestFileResults)
  (reconciler : option TestReconciler) : TreeNode :=
  let assertionStatus :=
    getAssertionStatus assertionResult (jfr_name fileResult) reconciler in
  let '(line, skipped) :=
    match assertionStatus with
    | Some st => (tas_line st, bool_decide (tas_status st = KnownSkip))
    | None => (None, false)
    end in
  TestInfo (getTestId this (jfr_name fileResult) (jar_fullName assertionResult))
           (jar_title assertionResult)
           (Some (jfr_name fileResult))
           line
           (Some skipped).

(** [skipEmpty] is the index after the [if (currentPathElement === "")]
    step of [createDirectoryStructure]. *)
Definition skipEmpty (thePath : list string) (currentPathIndex : Z) : Z :=
  if decide (JsString.at_index thePath currentPathIndex = Some "")
  then currentPathIndex - 1
  else currentPathIndex.

Lemma at_index_Some_nonneg {A} (a : list A) (i : Z) (x : A) :
  JsString.at_index a i = Some x → 0 ≤ i.
Proof. unfold JsString.at_index. case_decide; [done | lia]. Qed.

Equations? createDirectoryStructure (currentLevel : TreeNode) (thePath : list string)
  (currentPathIndex : Z) : TreeNode by wf (Z.to_nat (currentPathIndex + 1)) lt :=
  createDirectoryStructure currentLevel thePath currentPathIndex
    with Logic.inspect (JsString.at_index thePath (skipEmpty thePath currentPathIndex)) := {
    | exist _ None _ => currentLevel
    | exist _ (Some currentPathElement) Hdefined =>
        let currentPathId :=
          JsString.join
            (Some <$> take (Z.to_nat (skipEmpty thePath currentPathIndex + 1)) thePath)
            "/" in
        let nextLevel :=
          TestSuiteInfo currentPathId currentPathElement None None [currentLevel] in
        createDirectoryStructure nextLevel thePath
          (skipEmpty thePath currentPathIndex - 1) }.
Proof.
  apply at_index_Some_nonneg in Hdefined.
  unfold skipEmpty in *. case_decide; lia.
Qed.

Definition transformFileResultIntoTree (this : JestToTestAdapterMapper)
  (resultFileName : string) (fileTestCases : list TreeNode) : TreeNode :=
  let pathWithoutWorkDir := pathWithoutWorkDir this resultFileName in
  let path := JsString.split pathWithoutWorkDir "/" in
  (* [split] with a non-empty separator returns at least one part *)
  let lastPathElement :=
    default "" (JsString.at_index path (Z.of_nat (length path) - 1)) in
  let lastChild :=
    TestSuiteInfo pathWithoutWorkDir lastPathElement (Some resultFileName) None
                  fileTestCases in
  createDirectoryStructure lastChild path (Z.of_nat (length path) - 2).

(** One iteration of the [forEach] of [merge]: [mergeDestination.find]
    returns the first entry with the identifier of [suiteResult]; when it
    and [suiteResult] both have children the children are merged in place
    (here: the entry at the found index is rebuilt), in every other case
    [suiteResult] is pushed.

    The arrays are values here.  This is what the source does in place when
    the destination and the source forests are held in separate objects, none
    of them shared ([InPlaceFacts.merge_refines]); the two callers pass a
    fresh [[]] and trees they have just built. *)
Fixpoint mergeEntry (mergeDestination : list TreeNode) (suiteResult : TreeNode)
  {struct suiteResult} : list TreeNode :=
  match list_find (λ result, node_id result = node_id suiteResult) mergeDestination,
        suiteResult with
  | Some (i, TestSuiteInfo eid elabel efile eline echildren),
    TestSuiteInfo _ _ _ _ schildren =>
      <[i := TestSuiteInfo eid elabel efile eline
               (foldl mergeEntry echildren schildren)]> mergeDestination
  | _, _ => mergeDestination ++ [suiteResult]
  end.

Definition merge (mergeDestination mergeSource : list TreeNode) : list TreeNode :=
  foldl mergeEntry mergeDestination mergeSource.

(** The test case [mapJestParseToTestSuiteInfo] makes of one [it] block. *)
Definition itBlockTestInfo (this : JestToTestAdapterMapper) (itBlock : ItBlock) : TreeNode :=
  let fileName := it_file itBlock in
  let testName := truthy_or (it_name itBlock) "test has no name" in
  TestInfo (getTestId this fileName testName) testName (Some fileName)
           (Some (it_start_line itBlock)) (Some false).

(** The callback of [loadedTests.map]: [fileName] is assigned in the loop
    over the [it] blocks, so after it [fileName] is the file of the last
    block, and still [null] when there is no block. *)
Definition parseResultTree (this : JestToTestAdapterMapper) (testFile : IParseResults)
  : option TreeNode :=
  let testCases := itBlockTestInfo this <$> itBlocks testFile in
  match last (it_file <$> itBlocks testFile) with
  | Some (String c f) =>
      Some (transformFileResultIntoTree this (String c f) testCases)
  | _ => None
  end.

Definition mapJestParseToTestSuiteInfo (this : JestToTestAdapterMapper)
  (loadedTests : list IParseResults) : TreeNode :=
  let testSuiteInfos := omap (parseResultTree this) loadedTests in
  TestSuiteInfo "root" "Jest" None None (merge [] testSuiteInfos).

Definition mapTestIdsToTestFilter (tests : list string) : Completion (option ITestFilter) :=
  match tests with
  | [] =>
      (* [tests[0]] is [undefined]: the first test is false and
         [tests[0].includes] is a property access on [undefined] *)
      Throw TypeError
  | tests0 :: _ =>
      if decide (tests0 = "root") then Normal None
      else if JsString.includes tests0 TEST_ID_SEPARATOR then
        Normal (Some
          {| testFileNamePattern :=
               "(" +:+ JsString.join
                         ((λ t, JsString.split t TEST_ID_SEPARATOR !! 0%nat) <$> tests)
                         "|" +:+ ")";
             testNamePattern :=
               Some ("(" +:+ JsString.join
                         ((λ t, JsString.split t TEST_ID_SEPARATOR !! 1%nat) <$> tests)
                         "|" +:+ ")") |})
      else
        Normal (Some
          {| testFileNamePattern := "(" +:+ JsString.join (Some <$> tests) "|" +:+ ")";
             testNamePattern := None |})
  end.

(** The inner [reduce] of [mapJestFileResultToTestSuiteInfo] over the
    ancestor titles [a], from index [i] on, followed by [target.push]:
    the suite with the identifier of the title path is looked up in
    [innerTree], or created and pushed, and the walk goes on in its
    children.  When the entry found is a test, its [children] is
    [undefined] and the next [find] or [push] on it throws. *)
Fixpoint insertAssertion (this : JestToTestAdapterMapper) (result : JestFileResults)
  (testResult : JestAssertionResults) (a : list string) (i : nat)
  (titles : list string) (innerTree : list TreeNode) : Completion (list TreeNode) :=
  match titles with
  | [] => Normal (innerTree ++ [mapJestAssertionToTestInfo this testResult result None])
  | ancestorTitle :: titles' =>
      let fullName := JsString.join (Some <$> take (i + 1) a) " " in
      let id := getTestId this (jfr_name result) fullName in
      match list_find (λ x, node_id x = id) innerTree with
      | Some (j, TestSuiteInfo nid nlabel nfile nline nchildren) =>
          children ←! insertAssertion this result testResult a (S i) titles' nchildren;
          Normal (<[j := TestSuiteInfo nid nlabel nfile nline children]> innerTree)
      | Some (_, TestInfo _ _ _ _ _) => Throw TypeError
      | None =>
          children ←! insertAssertion this result testResult a (S i) titles' [];
          Normal (innerTree ++
                    [TestSuiteInfo id ancestorTitle (Some (jfr_name result)) None children])
      end
  end.

Definition hasAncestors (testResult : JestAssertionResults) : bool :=
  match jar_ancestorTitles testResult with
  | Some (_ :: _) => true
  | _ => false
  end.

Definition mapJestFileResultToTestSuiteInfo (this : JestToTestAdapterMapper)
  (result : JestFileResults) : Completion TreeNode :=
  testSuites ←!
    foldl (λ testTree testResult,
             tree ←! testTree;
             let a := default [] (jar_ancestorTitles testResult) in
             insertAssertion this result testResult a 0 a tree)
          (Normal [])
          (filter (λ r, hasAncestors r = true) (jfr_assertionResults result));
  let testCases :=
    (λ testResult, mapJestAssertionToTestInfo this testResult result None)
      <$> filter (λ r, hasAncestors r = false) (jfr_assertionResults result) in
  Normal (transformFileResultIntoTree this (jfr_name result) (testCases ++ testSuites)).

Fixpoint mapM_completion {A B} (f : A → Completion B) (l : list A) : Completion (list B) :=
  match l with
  | [] => Normal []
  | x :: l' => y ←! f x; ys ←! mapM_completion f l'; Normal (y :: ys)
  end.

Definition mapJestResponseToTestSuiteInfo (this : JestToTestAdapterMapper)
  (testResults : list JestFileResults) : Completion TreeNode :=
  suiteResults ←! mapM_completion (mapJestFileResultToTestSuiteInfo this) testResults;
  Normal (TestSuiteInfo "root" "Jest" None None (merge [] suiteResults)).

End Mapper.
End Mapper.

(** ** [merge] on the JavaScript heap

    [merge] works in place: it pushes references to the source's objects
    onto the destination array and merges into the [children] arrays of the
    destination's suites.  Here are the objects it works on and [merge] as it
    runs on them; [InPlaceFacts.merge_refines] relates it to [Mapper.merge].
    The recursion follows the objects, which a heap may tie into a cycle, so
    it is bounded by [fuel]. *)

Module InPlace.
Local Open Scope nat_scope.

(** An object is a node, whose [children] is a reference to an array, or an
    array of references to nodes.  A reference is an index into the heap. *)
Inductive HeapObject : Type :=
| NodeObject (id label : string) (file : option string) (line : option Z)
             (skipped : option bool) (children : option nat)
| ArrayObject (elements : list nat).

Abbreviation Heap := (list HeapObject).

Definition elements (h : Heap) (a : nat) : option (list nat) :=
  match h !! a with
  | Some (ArrayObject es) => Some es
  | _ => None
  end.

Definition object_id (h : Heap) (l : nat) : option string :=
  match h !! l with
  | Some (NodeObject i _ _ _ _ _) => Some i
  | _ => None
  end.

Definition object_children (h : Heap) (l : nat) : option nat :=
  match h !! l with
  | Some (NodeObject _ _ _ _ _ c) => c
  | _ => None
  end.

(** [a.push(l)] *)
Definition push (h : Heap) (a l : nat) : option Heap :=
  es ← elements h a; Some (<[a := ArrayObject (es ++ [l])]> h).

(** The callback of [mergeSource.forEach], over the recursive call. *)
Definition mergeStep (merge : Heap → nat → nat → option Heap) (mergeDestination : nat)
  (state : option Heap) (suiteResult : nat) : option Heap :=
  h ← state;
  destination ← elements h mergeDestination;
  sid ← object_id h suiteResult;
  match list_find (λ result, object_id h result = Some sid) destination with
  | Some (_, existingResult) =>
      match object_children h existingResult, object_children h suiteResult with
      | Some ec, Some sc => merge h ec sc
      | _, _ => push h mergeDestination suiteResult
      end
  | None => push h mergeDestination suiteResult
  end.

(** [forEach] visits the elements the source array has when the loop
    starts, also when the loop pushes onto that array. *)
Fixpoint merge (fuel : nat) (h : Heap) (mergeDestination mergeSource : nat) : option Heap :=
  match fuel with
  | O => None
  | S fuel' =>
      sources ← elements h mergeSource;
      foldl (mergeStep (merge fuel') mergeDestination) (Some h) sources
  end.

(** The object at [l] holds the tree [t], in the objects at the addresses
    [F]: the node itself, its [children] array and what the elements of the
    array hold, one after the other. *)
Fixpoint represents (h : Heap) (t : TreeNode) (l : nat) (F : list nat) {struct t} : Prop :=
  match t with
  | TestInfo i lb f ln sk => h !! l = Some (NodeObject i lb f ln sk None) ∧ F = [l]
  | TestSuiteInfo i lb f ln cs =>
      ∃ a (items : list (nat * list nat)),
        h !! l = Some (NodeObject i lb f ln None (Some a)) ∧
        h !! a = Some (ArrayObject items.*1) ∧
        F = l :: a :: concat items.*2 ∧
        (fix all (cs : list TreeNode) (items : list (nat * list nat)) : Prop :=
           match cs, items with
           | [], [] => True
           | c :: cs', x :: items' => represents h c x.1 x.2 ∧ all cs' items'
           | _, _ => False
           end) cs items
  end.

(** The array at [a] holds the forest [ts], in the objects at [F]. *)
Definition represents_array (h : Heap) (ts : list TreeNode) (a : nat) (F : list nat) : Prop :=
  ∃ items : list (nat * list nat),
    h !! a = Some (ArrayObject items.*1) ∧
    F = a :: concat items.*2 ∧
    Forall2 (λ t x, represents h t x.1 x.2) ts items.

Fixpoint height (t : TreeNode) : nat :=
  match t with
  | TestInfo _ _ _ _ _ => 0
  | TestSuiteInfo _ _ _ _ cs => S (foldr (λ c m, max (height c) m) 0 cs)
  end.

Definition forest_height (ts : list TreeNode) : nat :=
  foldr (λ c m, max (height c) m) 0 ts.

(** The outcome of a merge started in [h] with the objects [F]: a heap in
    which the destination array holds [ts] in objects among [F], none of them
    twice, the objects outside [F] being as they were. *)
Definition merged (h : Heap) (ts : list TreeNode) (dest : nat) (F : list nat)
  (result : option Heap) : Prop :=
  ∃ h' FD',
    result = Some h' ∧
    represents_array h' ts dest FD' ∧
    NoDup FD' ∧
    FD' ⊆ F ∧
    (∀ x, x ∉ F → h' !! x = h !! x).

(** With [fuel], [merge] on a destination and a source held in separate
    objects, none of them shared, does what [Mapper.merge] does on the
    forests. *)
Definition merge_correct (fuel : nat) : Prop :=
  ∀ D ts h dest src FD FS,
    forest_height ts < fuel →
    represents_array h D dest FD →
    represents_array h ts src FS →
    NoDup (FD ++ FS) →
    merged h (Mapper.merge D ts) dest (FD ++ FS) (merge fuel h dest src).

End InPlace.

(** ** [TestLoader] *)

(** [jest-editor-support]: the parser's nodes. *)
Inductive ParsedNodeTypes : Type :=
| describe | expect | it | root.

#[local] Unset Elimination Schemes.
Inductive ParsedNode : Type :=
| mkParsedNode (type : ParsedNodeTypes) (name : string) (start_line : Z)
               (children : option (list ParsedNode)).

(** The file system as the loader sees it through [fs.stat], [fs.readdir]
    and [parse]: a file, with the [root] of [parse(file)] or [None] when
    [parse] throws; a directory, with its entries or [None] when
    [fs.readdir] gives an error; an entry for which [fs.stat] gives an
    error. *)
Inductive FsEntry : Type :=
| FsFile (name : string) (parsed : option ParsedNode)
| FsDirectory (name : string) (listing : option (list FsEntry))
| FsNoStat (name : string).
#[local] Set Elimination Schemes.

Definition entry_name (e : FsEntry) : string :=
  match e with
  | FsFile n _ => n
  | FsDirectory n _ => n
  | FsNoStat n => n
  end.

(** What the loader uses of Node's [path] module, of [micromatch] and of
    [RegExp]. *)
Class LoaderImports : Type := {
  path_join : list string → string;
  path_basename : string → string;
  (** [mm.isMatch(value, glob)] *)
  mm_isMatch : string → string → bool;
  (** [new RegExp(source).test(value)] *)
  regexp_test : string → string → bool;
}.

(** [settings.settings] of [jest-editor-support]'s [Settings]. *)
Record JestSettings : Type := {
  testRegex : option string;
  testMatch : list string;
}.

Inductive TestLoadEvent : Type :=
| TestLoadStartedEvent
| TestLoadFinishedEvent (suite : TreeNode).

Definition is_finished (e : TestLoadEvent) : bool :=
  match e with
  | TestLoadStartedEvent => false
  | TestLoadFinishedEvent _ => true
  end.

(** [x.children] where the static type of [x] is [TestSuiteInfo]. *)
Definition suite_children (n : TreeNode) : list TreeNode :=
  default [] (node_children n).

Module Loader.
Section Loader.
Context `{LoaderImports}.

Definition Matcher : Type := string → bool.

Definition IGNORE_GLOBS : list string := ["node_modules"].

(** [mm.any(value, globs)] *)
Definition mm_any (value : string) (globs : list string) : bool :=
  existsb (mm_isMatch value) globs.

(** [mm.not(files, globs)], on the entries the names stand for. *)
Definition mm_not (files : list FsEntry) (globs : list string) : list FsEntry :=
  filter (λ f, mm_any (entry_name f) globs = false) files.

Definition createMatcher (settings : JestSettings) : Matcher :=
  match testRegex settings with
  | Some (String c r) => λ value, regexp_test (String c r) value
  | _ => λ value, mm_any value (testMatch settings)
  end.

Fixpoint exploreNode (node : ParsedNode) (file prefix : string) : option TreeNode :=
  match node with
  | mkParsedNode it name start_line _ =>
      Some (TestInfo (path_join [file; prefix; name]) name (Some file)
                     (Some start_line) None)
  | mkParsedNode describe name start_line dchildren =>
      let id := path_join [file; prefix; name] in
      let children :=
        match dchildren with
        | Some nodes => omap (λ x, exploreNode x file id) nodes
        | None => []
        end in
      Some (TestSuiteInfo id name (Some file) (Some start_line) children)
  | mkParsedNode _ _ _ _ => None
  end.

(** [exploreFile], given the outcome of [parse(file)]. *)
Definition exploreFile (file : string) (parsed : option ParsedNode) : Promise TreeNode :=
  match parsed with
  | None => Rejected
  | Some (mkParsedNode _ _ _ rchildren) =>
      let children := omap (λ x, exploreNode x file file) (default [] rchildren) in
      Resolved (TestSuiteInfo file (path_basename file) (Some file) None children)
  end.

(** [getDirectoryContents]: the entries that are not ignored, each with
    its path. *)
Definition getDirectoryContents (directory : string) (listing : option (list FsEntry))
  : Promise (list (string * FsEntry)) :=
  match listing with
  | None => Rejected
  | Some files =>
      let includedFiles := mm_not files IGNORE_GLOBS in
      Resolved ((λ f, (path_join [directory; entry_name f], f)) <$> includedFiles)
  end.

(** The suite [exploreDirectory] returns for the children found. *)
Definition directorySuite (directory : string) (children : list (option TreeNode))
  : TreeNode :=
  let filteredChildren :=
    filter (λ x, (0 < length (suite_children x))%nat) (omap id children) in
  TestSuiteInfo directory (path_basename directory) (Some directory) None
                filteredChildren.

(** [evalueFilePath] and [exploreDirectory] call each other.  The
    recursion is on the entry; for a directory the body of
    [exploreDirectory] is written out on the listing itself, the ignored
    names dropped while mapping ([evalueFilePath_directory] below states
    that this is [exploreDirectory]). *)
Fixpoint evalueFilePath (matcher : Matcher) (filePath : string) (entry : FsEntry)
  {struct entry} : Promise (option TreeNode) :=
  match entry with
  | FsNoStat _ => Rejected
  | FsDirectory _ listing =>
      testSuite ←await
        match listing with
        | None => Rejected
        | Some files =>
            children ←await
              Promise_all
                (omap (λ f, if mm_any (entry_name f) IGNORE_GLOBS then None
                            else Some (evalueFilePath matcher
                                         (path_join [filePath; entry_name f]) f))
                      files);
            Resolved (directorySuite filePath children)
        end;
      Resolved (if decide (0 < length (suite_children testSuite))%nat
                then Some testSuite else None)
  | FsFile _ parsed =>
      if matcher filePath
      then (suite ←await exploreFile filePath parsed; Resolved (Some suite))
      else Resolved None
  end.

Definition exploreDirectory (directory : string) (matcher : Matcher)
  (listing : option (list FsEntry)) : Promise TreeNode :=
  contents ←await getDirectoryContents directory listing;
  children ←await Promise_all ((λ x, evalueFilePath matcher x.1 x.2) <$> contents);
  Resolved (directorySuite directory children).

(** [emitter.fire] appends to the events fired so far. *)
Definition fire (e : TestLoadEvent) (fired : list TestLoadEvent) : list TestLoadEvent :=
  fired ++ [e].

(** [TestLoader.loadTests]: the events fired and the promise returned, for
    the listing of [projectWorkspace.rootPath] and the settings read. *)
Definition loadTests (rootPath : string) (settings : JestSettings)
  (listing : option (list FsEntry)) : list TestLoadEvent * Promise () :=
  let fired := fire TestLoadStartedEvent [] in
  let matcher := createMatcher settings in
  match exploreDirectory rootPath matcher listing with
  | Rejected => (fired, Rejected)
  | Resolved testSuite =>
      (fire (TestLoadFinishedEvent
               (TestSuiteInfo "root" "Jest" None None (suite_children testSuite)))
            fired,
       Resolved ())
  end.

End Loader.
End Loader.

(** ** Notions the properties are stated with *)

(** The number of entries of a sibling sequence with identifier [i]. *)
Definition count_id (i : string) (l : list TreeNode) : nat :=
  length (filter (λ n, node_id n = i) l).

(** The Tree Merger as the specification words it for leaves: a source entry
    with the identifier of a test node of the destination is dropped, so the
    destination holds that node as before and no further node with its
    identifier. *)
Definition leaf_wins_first (destination source : list TreeNode) : Prop :=
  ∀ s t, s ∈ source → t ∈ destination → is_test t = true → node_id s = node_id t →
    t ∈ Mapper.merge destination source ∧
    count_id (node_id t) (Mapper.merge destination source)
      = count_id (node_id t) destination.

(** Sibling identifiers are distinct, at every level below [n]. *)
Fixpoint unique_ids_below (n : TreeNode) : bool :=
  match n with
  | TestInfo _ _ _ _ _ => true
  | TestSuiteInfo _ _ _ _ cs =>
      bool_decide (NoDup (node_id <$> cs)) && forallb unique_ids_below cs
  end.

Definition unique_sibling_ids (xs : list TreeNode) : bool :=
  bool_decide (NoDup (node_id <$> xs)) && forallb unique_ids_below xs.

(** No test node at [n] or below. *)
Fixpoint suites_only (n : TreeNode) : bool :=
  match n with
  | TestInfo _ _ _ _ _ => false
  | TestSuiteInfo _ _ _ _ cs => forallb suites_only cs
  end.

(** Every sibling sequence at [n] and below followed by a second copy of its
    test nodes. *)
Fixpoint duplicateTestsBelow (n : TreeNode) : TreeNode :=
  match n with
  | TestInfo _ _ _ _ _ => n
  | TestSuiteInfo i l f ln cs =>
      TestSuiteInfo i l f ln
        ((duplicateTestsBelow <$> cs) ++ filter (λ c, is_test c = true) cs)
  end.

Definition duplicateTests (xs : list TreeNode) : list TreeNode :=
  (duplicateTestsBelow <$> xs) ++ filter (λ c, is_test c = true) xs.

(** What [merge cs cs] is claimed to be for the children of a suite. *)
Definition children_self_merged (n : TreeNode) : Prop :=
  match n with
  | TestInfo _ _ _ _ _ => True
  | TestSuiteInfo _ _ _ _ cs => Mapper.merge cs cs = duplicateTests cs
  end.

(** The test nodes of a tree, from left to right. *)
Fixpoint tests_of (n : TreeNode) : list TreeNode :=
  match n with
  | TestInfo _ _ _ _ _ => [n]
  | TestSuiteInfo _ _ _ _ cs => mjoin (tests_of <$> cs)
  end.

Definition forest_tests (xs : list TreeNode) : list TreeNode :=
  mjoin (tests_of <$> xs).

(** Merging the entry [s] into a destination loses no test. *)
Definition keeps_tests (s : TreeNode) : Prop :=
  ∀ dest t,
    t ∈ forest_tests dest ∨ t ∈ tests_of s →
    t ∈ forest_tests (Mapper.mergeEntry dest s).

Definition node_skipped (n : TreeNode) : option bool :=
  match n with
  | TestInfo _ _ _ _ sk => sk
  | TestSuiteInfo _ _ _ _ _ => None
  end.


(** The Status Resolver in the specification's words: without a source
    nothing resolves; with one, the status resolved is the first record of
    the file whose title is the full title of the assertion. *)
Fixpoint first_titled (title : string) (records : list TestAssertionStatus)
  : option TestAssertionStatus :=
  match records with
  | [] => None
  | r :: records' =>
      if String.eqb (tas_title r) title then Some r else first_titled title records'
  end.

Definition resolvedStatus (reconciler : option TestReconciler) (file fullName : string)
  : option TestAssertionStatus :=
  match reconciler with
  | None => None
  | Some r =>
      match assertionsForTestFile r file with
      | None => None
      | Some records => first_titled fullName records
      end
  end.

(** A test identifier with file-path part [f] and escaped title [n], and the
    filter the specification gives for a selection of such identifiers. *)
Definition anchored (n : string) : string := "^" +:+ n +:+ "$".

Definition testIdOf `{MapperImports} (part : string * string) : string :=
  part.1 +:+ TEST_ID_SEPARATOR +:+ anchored part.2.

Definition alternation (patterns : list string) : string :=
  "(" +:+ String.concat "|" patterns +:+ ")".

Definition filterOfParts (parts : list (string * string)) : ITestFilter :=
  {| testFileNamePattern := alternation parts.*1;
     testNamePattern := Some (alternation (anchored <$> parts.*2)) |}.

(** The chain of directory suites the Path-to-Tree Folder puts around the
    file suite [leaf]: every directory suite has one child, no file, the
    path segments up to its own joined by [/] as identifier and its own
    segment as label. *)
Inductive FoldedPath (segments : list string) (leaf : TreeNode) : TreeNode → Prop :=
| folded_leaf : FoldedPath segments leaf leaf
| folded_directory k segment inner :
    FoldedPath segments leaf inner →
    segments !! k = Some segment →
    FoldedPath segments leaf
      (TestSuiteInfo (String.concat "/" (take (S k) segments)) segment None None [inner]).

(** A failure met by the exploration below the entry at a path: an entry
    that cannot be examined or listed, or a matched file that cannot be
    parsed, in a place that is not ignored. *)
Inductive FailureKind : Type := IoFailure | ParseFailure.

Inductive fails_below `{LoaderImports} (matcher : Loader.Matcher)
  : FailureKind → string → FsEntry → Prop :=
| fails_stat p n : fails_below matcher IoFailure p (FsNoStat n)
| fails_readdir p n : fails_below matcher IoFailure p (FsDirectory n None)
| fails_parse p n : matcher p = true → fails_below matcher ParseFailure p (FsFile n None)
| fails_inside k p n files f :
    f ∈ files →
    Loader.mm_any (entry_name f) Loader.IGNORE_GLOBS = false →
    fails_below matcher k (path_join [p; entry_name f]) f →
    fails_below matcher k p (FsDirectory n (Some files)).

(** The Filter Translator as the specification words it, for a selection of
    test identifiers. *)
Definition filter_as_specified `{MapperImports} (parts : list (string * string)) : Prop :=
  Mapper.mapTestIdsToTestFilter (testIdOf <$> parts) = Normal (Some (filterOfParts parts)).

(** The load lifecycle as the specification words it for a failed
    exploration: the promise is rejected and a finished event is fired. *)
Definition finished_after_failure `{LoaderImports} (rootPath : string)
  (settings : JestSettings) (listing : option (list FsEntry)) : Prop :=
  (Loader.loadTests rootPath settings listing).2 = Rejected ∧
  Exists (λ e, is_finished e = true) (Loader.loadTests rootPath settings listing).1.

(** The parse-failure policy as the specification words it: a matched file
    that cannot be parsed counts for nothing, the exploration returns what
    it returns without that file. *)
Definition unparsable_file_skipped `{LoaderImports} (directory : string)
  (matcher : Loader.Matcher) (before : list FsEntry) (name : string)
  (after : list FsEntry) : Prop :=
  Loader.exploreDirectory directory matcher (Some (before ++ FsFile name None :: after))
    = Loader.exploreDirectory directory matcher (Some (before ++ after)).







(** ** Instances to run the code on concrete inputs *)

Definition isRegExpSyntax (c : ascii) : bool :=
  existsb (Ascii.eqb c)
    ["."; "*"; "+"; "?"; "^"; "$"; "{"; "}"; "("; ")"; "|"; "["; "]"; "\"]%char.

(** Modelled from the spec: [src/helpers/escapeRegExp.ts] is missing; the
    name is escaped to a regular expression that matches it as literal text,
    which is done by a backslash before every character of the syntax. *)
Fixpoint escapeRegExpLiteral (s : string) : string :=
  match s with
  | EmptyString => EmptyString
  | String c s' =>
      if isRegExpSyntax c then String "\" (String c (escapeRegExpLiteral s'))
      else String c (escapeRegExpLiteral s')
  end.

(** Modelled from the spec: [src/constants.ts] is missing; the separator is
    the one of the specification's example identifier [a.test.ts#^x$]. *)
Definition exampleImports : MapperImports :=
  {| TEST_ID_SEPARATOR := "#"; escapeRegExp := escapeRegExpLiteral |}.

Fixpoint collapseSlashes (s : string) : string :=
  match s with
  | EmptyString => EmptyString
  | String c s' =>
      match s' with
      | String c' _ =>
          if Ascii.eqb c "/" && Ascii.eqb c' "/" then collapseSlashes s'
          else String c (collapseSlashes s')
      | EmptyString => String c EmptyString
      end
  end.

(** POSIX paths without [.] and [..] segments, globs and regular expressions
    without wildcards. *)
Definition posixImports : LoaderImports :=
  {| path_join := λ parts, collapseSlashes (String.concat "/" parts);
     path_basename := λ p, default "" (last (JsString.split p "/"));
     mm_isMatch := String.eqb;
     regexp_test := λ source value, JsString.occurs Ascii.eqb source value |}.

(** The specification's example for the Tree Merger: two test nodes with
    one identifier, told apart by their line, and the tree of a file with one
    test. *)
Definition xTest (line : Z) : TreeNode :=
  TestInfo "a.test.ts#^x$" "x" (Some "a.test.ts") (Some line) (Some false).

Definition xFile (children : list TreeNode) : TreeNode :=
  TestSuiteInfo "a.test.ts" "a.test.ts" (Some "a.test.ts") None children.

(** A declaration file with a test without a name; a file system with a
    file that cannot be parsed next to one that can; one with a directory
    that cannot be listed. *)
Definition namelessBlock : ItBlock :=
  {| it_name := None; it_file := "/root/src/a.test.ts"; it_start_line := 3 |}.

Definition addsFile : FsEntry :=
  FsFile "a.test.js"
    (Some (mkParsedNode root "" 0 (Some [mkParsedNode it "adds" 2 None]))).

Definition brokenFile : FsEntry := FsFile "b.test.js" None.

Definition everyFile : JestSettings := {| testRegex := Some "test"; testMatch := [] |}.

(** The assertion results of the specification's grouping example, and a
    reconciled status that says a test was skipped. *)
Definition mathFile : JestFileResults :=
  {| jfr_name := "/root/math.test.ts";
     jfr_assertionResults :=
       [ {| jar_title := "adds"; jar_fullName := "Math Addition adds";
            jar_ancestorTitles := Some ["Math"; "Addition"] |};
         {| jar_title := "subtracts"; jar_fullName := "Math Subtraction subtracts";
            jar_ancestorTitles := Some ["Math"; "Subtraction"] |} ] |}.

Definition skippedAdds : TestReconciler :=
  {| assertionsForTestFile := λ file,
       if String.eqb file "/root/math.test.ts"
       then Some [ {| tas_title := "Math Addition adds"; tas_status := KnownSkip;
                      tas_terseMessage := None; tas_line := Some 7 |} ]
       else None |}.

(** ** Notions for the further properties *)


(** The entry [n'] is the entry [n] up to the children of a suite. *)
Definition same_entry (n n' : TreeNode) : Prop :=
  match n, n' with
  | TestInfo _ _ _ _ _, _ => n' = n
  | TestSuiteInfo i l f ln _, TestSuiteInfo i' l' f' ln' _ =>
      i' = i ∧ l' = l ∧ f' = f ∧ ln' = ln
  | TestSuiteInfo _ _ _ _ _, TestInfo _ _ _ _ _ => False
  end.

(** The identifiers of the suites at [n] and below. *)
Fixpoint suite_ids (n : TreeNode) : list string :=
  match n with
  | TestInfo _ _ _ _ _ => []
  | TestSuiteInfo i _ _ _ cs => i :: mjoin (suite_ids <$> cs)
  end.

Definition forest_suite_ids (xs : list TreeNode) : list string :=
  mjoin (suite_ids <$> xs).

(** The tests of a forest are told apart by their identifiers, and no test
    has the identifier of a suite. *)
Definition distinct_tests (xs : list TreeNode) : Prop :=
  NoDup (node_id <$> forest_tests xs) ∧
  ∀ t, t ∈ forest_tests xs → node_id t ∉ forest_suite_ids xs.


(** The test [t] is in [forest] under the suites with the identifiers
    [ids], outermost first. *)
Fixpoint at_path (ids : list string) (t : TreeNode) (forest : list TreeNode) : Prop :=
  match ids with
  | [] => t ∈ forest
  | i :: ids' => ∃ l f ln cs, TestSuiteInfo i l f ln cs ∈ forest ∧ at_path ids' t cs
  end.

(** The identifier [mapJestFileResultToTestSuiteInfo] looks up for the
    ancestor titles [a] at index [i], and the identifiers for all of [a]. *)
Definition ancestorId `{MapperImports} (this : JestToTestAdapterMapper)
  (result : JestFileResults) (a : list string) (i : nat) : string :=
  Mapper.getTestId this (jfr_name result) (JsString.join (Some <$> take (i + 1) a) " ").

Definition ancestorIds `{MapperImports} (this : JestToTestAdapterMapper)
  (result : JestFileResults) (a : list string) : list string :=
  ancestorId this result a <$> seq 0 (length a).

(** The suites among the siblings have distinct identifiers, at every level
    below [n]. *)
Fixpoint distinct_suites_below (n : TreeNode) : bool :=
  match n with
  | TestInfo _ _ _ _ _ => true
  | TestSuiteInfo _ _ _ _ cs =>
      bool_decide (NoDup (node_id <$> filter (λ c, is_test c = false) cs))
      && forallb distinct_suites_below cs
  end.

(** The test [mapJestFileResultToTestSuiteInfo] makes of an assertion, and
    the callback of its outer [reduce]. *)
Definition assertionTest `{MapperImports} (this : JestToTestAdapterMapper)
  (result : JestFileResults) (r : JestAssertionResults) : TreeNode :=
  Mapper.mapJestAssertionToTestInfo this r result None.

Definition groupAssertion `{MapperImports} (this : JestToTestAdapterMapper)
  (result : JestFileResults) (testTree : Completion (list TreeNode))
  (testResult : JestAssertionResults) : Completion (list TreeNode) :=
  tree ←! testTree;
  let a := default [] (jar_ancestorTitles testResult) in
  Mapper.insertAssertion this result testResult a 0 a tree.

(** The suites of a sibling sequence have distinct identifiers, and so at
    every level below. *)
Definition distinct_suites (xs : list TreeNode) : Prop :=
  NoDup (node_id <$> filter (λ c, is_test c = false) xs) ∧
  Forall (λ n, distinct_suites_below n = true) xs.


(** The directory suites around a file suite, outermost first, each with
    its identifier and its label: the suites without a file that have one
    child. *)
Fixpoint directories (n : TreeNode) : list (string * string) :=
  match n with
  | TestSuiteInfo i l None _ [c] => (i, l) :: directories c
  | _ => []
  end.

(** The directory suite the Path-to-Tree Folder makes for the segment at
    index [k], none for an empty segment. *)
Definition directoryOf (segments : list string) (k : nat) : option (string * string) :=
  segment ← segments !! k;
  if decide (segment = "") then None
  else Some (String.concat "/" (take (S k) segments), segment).


(** A parse result [mapJestParseToTestSuiteInfo] keeps: the file name of
    its last [it] block is not empty. *)
Definition hasFileName (testFile : IParseResults) : bool :=
  match last (it_file <$> itBlocks testFile) with
  | Some (String _ _) => true
  | _ => false
  end.


(** Induction on a parsed node, with the property for its children. *)
Section ParsedNode_induction.
Variable P : ParsedNode → Prop.
Hypothesis Hnode : ∀ type name start_line children,
  Forall P (default [] children) → P (mkParsedNode type name start_line children).

Fixpoint ParsedNode_ind (n : ParsedNode) : P n :=
  match n with
  | mkParsedNode type name start_line children =>
      Hnode type name start_line children
        (match children return Forall P (default [] children) with
         | Some nodes =>
             (fix children_ind (ns : list ParsedNode) : Forall P ns :=
                match ns with
                | [] => Forall_nil_2 P
                | c :: ns' => Forall_cons_2 P c ns' (ParsedNode_ind c) (children_ind ns')
                end) nodes
         | None => Forall_nil_2 P
         end)
  end.
End ParsedNode_induction.

(** Induction on a file-system entry, with the property for the entries
    of a directory. *)
Section FsEntry_induction.
Variable P : FsEntry → Prop.
Hypothesis Hfile : ∀ name parsed, P (FsFile name parsed).
Hypothesis Hdirectory : ∀ name listing,
  Forall P (default [] listing) → P (FsDirectory name listing).
Hypothesis Hnostat : ∀ name, P (FsNoStat name).

Fixpoint FsEntry_ind (e : FsEntry) : P e :=
  match e with
  | FsFile name parsed => Hfile name parsed
  | FsDirectory name listing =>
      Hdirectory name listing
        (match listing return Forall P (default [] listing) with
         | Some files =>
             (fix listing_ind (fs : list FsEntry) : Forall P fs :=
                match fs with
                | [] => Forall_nil_2 P
                | f :: fs' => Forall_cons_2 P f fs' (FsEntry_ind f) (listing_ind fs')
                end) files
         | None => Forall_nil_2 P
         end)
  | FsNoStat name => Hnostat name
  end.
End FsEntry_induction.

(** The [it] blocks of a parsed node that are reached through [describe]
    blocks only, each with its name and line, in the order of the file. *)
Fixpoint itBlocksOf (node : ParsedNode) : list (string * Z) :=
  match node with
  | mkParsedNode it name start_line _ => [(name, start_line)]
  | mkParsedNode describe _ _ (Some nodes) => mjoin (itBlocksOf <$> nodes)
  | mkParsedNode _ _ _ _ => []
  end.

(** The label and the line of a node, as an [it] block gives them. *)
Definition labelled (n : TreeNode) : string * option Z := (node_label n, node_line n).

(** Every suite without a line below [n] (the suite of a directory or of a
    file) has a child. *)
Fixpoint pruned (n : TreeNode) : bool :=
  match n with
  | TestInfo _ _ _ _ _ => true
  | TestSuiteInfo _ _ _ _ cs =>
      forallb (λ c, match c with
                    | TestSuiteInfo _ _ _ None [] => false
                    | _ => pruned c
                    end) cs
  end.


(** Two files of one directory, each with one test, as the mapper folds
    them; a heap with a destination array and a source array of one test
    each. *)
Definition srcFileTree (name test : string) : TreeNode :=
  TestSuiteInfo "/src" "src" None None
    [TestSuiteInfo ("/src/" +:+ name) name (Some ("/root/src/" +:+ name)) None
       [TestInfo ("/src/" +:+ name +:+ "#^" +:+ test +:+ "$") test
                 (Some ("/root/src/" +:+ name)) None (Some false)]].

Definition twoArrays : InPlace.Heap :=
  [InPlace.ArrayObject [2%nat]; InPlace.ArrayObject [3%nat];
   InPlace.NodeObject "a.test.ts#^x$" "x" (Some "a.test.ts") (Some 1) (Some false) None;
   InPlace.NodeObject "a.test.ts#^x$" "x" (Some "a.test.ts") (Some 2) (Some false) None].

(** ** Properties of the Tree Merger *)


Module MergerFacts.
Import Mapper.

Lemma merge_nil dest : merge dest [] = dest.
Proof. reflexivity. Qed.

Lemma merge_cons dest s src : merge dest (s :: src) = merge (mergeEntry dest s) src.
Proof. reflexivity. Qed.

(** The three cases of [mergeEntry], by what [find] returns. *)
Lemma mergeEntry_absent dest s :
  list_find (λ r, node_id r = node_id s) dest = None →
  mergeEntry dest s = dest ++ [s].
Proof. intros Hf. destruct s; simpl in *; rewrite Hf; reflexivity. Qed.

Lemma mergeEntry_onto_test dest s i t :
  list_find (λ r, node_id r = node_id s) dest = Some (i, t) →
  is_test t = true →
  mergeEntry dest s = dest ++ [s].
Proof.
  intros Hf Ht. destruct t; [| discriminate].
  destruct s; simpl in *; rewrite Hf; reflexivity.
Qed.

Lemma mergeEntry_test dest s : is_test s = true → mergeEntry dest s = dest ++ [s].
Proof.
  destruct s; [| discriminate]. intros _. simpl.
  destruct (list_find _ dest) as [[? []]|]; reflexivity.
Qed.

Lemma mergeEntry_suites dest i ei el ef eln ecs si sl sf sln scs :
  list_find (λ r, node_id r = si) dest = Some (i, TestSuiteInfo ei el ef eln ecs) →
  mergeEntry dest (TestSuiteInfo si sl sf sln scs)
    = <[i := TestSuiteInfo ei el ef eln (merge ecs scs)]> dest.
Proof. intros Hf. simpl. rewrite Hf. reflexivity. Qed.

End MergerFacts.

Module MergerInvariants.
Import Mapper MergerFacts.

Lemma count_id_app i l1 l2 : count_id i (l1 ++ l2) = (count_id i l1 + count_id i l2)%nat.
Proof. unfold count_id. rewrite filter_app, length_app. reflexivity. Qed.

Lemma count_id_singleton i s :
  count_id i [s] = if decide (node_id s = i) then 1%nat else 0%nat.
Proof.
  unfold count_id. rewrite filter_cons, filter_nil.
  destruct (decide (node_id s = i)); reflexivity.
Qed.

Lemma count_id_insert i l j old new :
  l !! j = Some old → node_id new = node_id old →
  count_id i (<[j := new]> l) = count_id i l.
Proof.
  unfold count_id. revert j. induction l as [| x l IH]; intros [| j] Hj Hid;
    simpl in *; try discriminate.
  - injection Hj as ->. rewrite !filter_cons, Hid.
    destruct (decide (node_id old = i)); reflexivity.
  - rewrite !filter_cons. specialize (IH j Hj Hid).
    destruct (decide (node_id x = i)); simpl; congruence.
Qed.

Lemma list_find_insert_other (P : TreeNode → Prop) `{∀ x, Decision (P x)}
  l i t j old new :
  list_find P l = Some (i, t) → l !! j = Some old → ¬ P old → ¬ P new →
  list_find P (<[j := new]> l) = Some (i, t).
Proof.
  intros (Hi & Ht & Hleast)%list_find_Some Hj Hold Hnew.
  assert (i ≠ j) by (intros ->; congruence).
  apply list_find_Some. split_and!.
  - rewrite list_lookup_insert_ne by done. exact Hi.
  - exact Ht.
  - intros k y Hk Hlt. destruct (decide (j = k)) as [-> | Hne].
    + apply list_lookup_insert_Some in Hk as [(_ & <- & _) | (? & _)]; [done | done].
    + rewrite list_lookup_insert_ne in Hk by done. eauto.
Qed.

(** A test that is the first entry with its identifier stays so through
    one iteration, and an entry with that identifier is pushed. *)
Lemma mergeEntry_first_test dest s i t :
  list_find (λ r, node_id r = node_id t) dest = Some (i, t) →
  is_test t = true →
  list_find (λ r, node_id r = node_id t) (mergeEntry dest s) = Some (i, t) ∧
  count_id (node_id t) (mergeEntry dest s)
    = (count_id (node_id t) dest + count_id (node_id t) [s])%nat.
Proof.
  intros Hfind Htest.
  assert (Happ : mergeEntry dest s = dest ++ [s] →
    list_find (λ r, node_id r = node_id t) (mergeEntry dest s) = Some (i, t) ∧
    count_id (node_id t) (mergeEntry dest s)
      = (count_id (node_id t) dest + count_id (node_id t) [s])%nat).
  { intros ->. split; [by apply list_find_app_l | apply count_id_app]. }
  destruct (decide (node_id s = node_id t)) as [Heq | Hne].
  { apply Happ. eapply mergeEntry_onto_test; [| exact Htest].
    rewrite Heq. exact Hfind. }
  destruct (list_find (λ r, node_id r = node_id s) dest) as [[j e] |] eqn:Hs;
    [| by apply Happ, mergeEntry_absent].
  destruct e as [| ei el ef eln ecs]; [by apply Happ; eapply mergeEntry_onto_test |].
  destruct s as [| si sl sf sln scs]; [by apply Happ, mergeEntry_test |].
  erewrite mergeEntry_suites by exact Hs.
  apply list_find_Some in Hs as (Hj & Hid & _). simpl in *.
  split.
  - eapply list_find_insert_other; [exact Hfind | exact Hj | |]; simpl; congruence.
  - erewrite count_id_insert by (first [exact Hj | reflexivity]).
    rewrite count_id_singleton. simpl. rewrite decide_False by done. lia.
Qed.

Lemma merge_first_test src : ∀ dest i t,
  list_find (λ r, node_id r = node_id t) dest = Some (i, t) →
  is_test t = true →
  list_find (λ r, node_id r = node_id t) (merge dest src) = Some (i, t) ∧
  count_id (node_id t) (merge dest src)
    = (count_id (node_id t) dest + count_id (node_id t) src)%nat.
Proof.
  induction src as [| s src IH]; intros dest i t Hfind Htest.
  - rewrite merge_nil. split; [exact Hfind |]. unfold count_id at 3. simpl. lia.
  - rewrite merge_cons.
    destruct (mergeEntry_first_test dest s i t Hfind Htest) as [Hfind' Hcount'].
    destruct (IH _ _ _ Hfind' Htest) as [Hfind'' Hcount''].
    split; [exact Hfind'' |].
    rewrite Hcount'', Hcount'. change (s :: src) with ([s] ++ src).
    rewrite (count_id_app _ [s] src). lia.
Qed.

End MergerInvariants.

Module MergerSelf.
Import Mapper MergerFacts.

Lemma node_id_duplicateTestsBelow n : node_id (duplicateTestsBelow n) = node_id n.
Proof. destruct n; reflexivity. Qed.

(** The loop of [merge xs xs] after the entries [pre] of [xs = pre ++ post]:
    the entries of [pre] are in their final form, their tests pushed. *)
Lemma merge_self_from post : ∀ pre,
  NoDup (node_id <$> (pre ++ post)) →
  Forall children_self_merged post →
  merge ((duplicateTestsBelow <$> pre) ++ post ++ filter (λ c, is_test c = true) pre)
        post
    = duplicateTests (pre ++ post).
Proof.
  induction post as [| s post IH]; intros pre Hnd HQ.
  - rewrite merge_nil. unfold duplicateTests. rewrite !app_nil_r. reflexivity.
  - rewrite merge_cons.
    set (dest := (duplicateTestsBelow <$> pre) ++ (s :: post)
                   ++ filter (λ c, is_test c = true) pre).
    assert (Hfind :
      list_find (λ r, node_id r = node_id s) dest = Some (length pre, s)).
    { apply list_find_Some. subst dest. split_and!.
      - rewrite lookup_app_r by (rewrite length_fmap; lia).
        rewrite length_fmap, Nat.sub_diag. reflexivity.
      - reflexivity.
      - intros j y Hj Hlt Hy.
        rewrite lookup_app_l in Hj by (rewrite length_fmap; exact Hlt).
        apply list_lookup_fmap_Some in Hj as (x & -> & Hx).
        rewrite node_id_duplicateTestsBelow in Hy.
        rewrite fmap_app in Hnd. apply NoDup_app in Hnd as (_ & Hdisj & _).
        apply (Hdisj (node_id x)).
        + apply list_elem_of_fmap_2. eapply list_elem_of_lookup_2. exact Hx.
        + rewrite Hy. simpl. left. }
    assert (Hstep : mergeEntry dest s
      = (duplicateTestsBelow <$> (pre ++ [s])) ++ post
          ++ filter (λ c, is_test c = true) (pre ++ [s])).
    { destruct s as [si sl sf sln ssk | si sl sf sln scs].
      - rewrite mergeEntry_test by reflexivity. subst dest.
        rewrite fmap_app, filter_app. simpl.
        rewrite (filter_cons_True _ (TestInfo si sl sf sln ssk)) by reflexivity.
        rewrite filter_nil, <- !app_assoc. simpl. rewrite <- !app_assoc. reflexivity.
      - erewrite mergeEntry_suites by exact Hfind.
        apply Forall_cons in HQ as [Hs _]. simpl in Hs. rewrite Hs.
        subst dest. rewrite insert_app_r_alt by (rewrite length_fmap; lia).
        rewrite length_fmap, Nat.sub_diag. simpl.
        rewrite fmap_app, filter_app. simpl.
        rewrite (filter_cons_False _ (TestSuiteInfo si sl sf sln scs)) by discriminate.
        rewrite filter_nil, app_nil_r, <- !app_assoc. reflexivity. }
    rewrite Hstep.
    replace (pre ++ s :: post) with ((pre ++ [s]) ++ post)
      by (rewrite <- app_assoc; reflexivity).
    apply IH.
    + rewrite <- app_assoc. exact Hnd.
    + apply Forall_cons in HQ as [_ HQ]. exact HQ.
Qed.

Lemma merge_self_all xs :
  NoDup (node_id <$> xs) → Forall children_self_merged xs →
  merge xs xs = duplicateTests xs.
Proof.
  intros Hnd HQ. pose proof (merge_self_from xs [] Hnd HQ) as Hm.
  rewrite fmap_nil, filter_nil, app_nil_r in Hm. exact Hm.
Qed.

Lemma unique_ids_below_merge n :
  unique_ids_below n = true → children_self_merged n.
Proof.
  induction n as [| i l f ln cs IH] using TreeNode_ind; [done |].
  simpl. intros [Hnd Hcs]%andb_prop.
  apply bool_decide_eq_true in Hnd.
  apply merge_self_all; [exact Hnd |].
  apply Forall_forall. intros c Hc.
  rewrite Forall_forall in IH. apply IH; [exact Hc |].
  rewrite forallb_forall in Hcs. apply Hcs. apply list_elem_of_In. exact Hc.
Qed.

Lemma merge_self xs :
  unique_sibling_ids xs = true → merge xs xs = duplicateTests xs.
Proof.
  intros [Hnd Hcs]%andb_prop. apply bool_decide_eq_true in Hnd.
  apply merge_self_all; [exact Hnd |].
  apply Forall_forall. intros c Hc. apply unique_ids_below_merge.
  rewrite forallb_forall in Hcs. apply Hcs. apply list_elem_of_In. exact Hc.
Qed.

(** Duplicating the tests changes nothing exactly when there is none. *)
Lemma duplicateTestsBelow_fixed n :
  duplicateTestsBelow n = n ↔ (is_test n = true ∨ suites_only n = true).
Proof.
  induction n as [| i l f ln cs IH] using TreeNode_ind.
  { simpl. split; [by left | done]. }
  simpl. split.
  - intros Heq. right. injection Heq as Heq.
    assert (Hlen : length (filter (λ c, is_test c = true) cs) = 0%nat).
    { apply (f_equal length) in Heq. rewrite length_app, length_fmap in Heq. lia. }
    apply nil_length_inv in Hlen. rewrite Hlen, app_nil_r in Heq.
    apply forallb_forall. intros c Hc%list_elem_of_In.
    rewrite Forall_forall in IH.
    assert (Hfix : duplicateTestsBelow c = c).
    { apply list_elem_of_lookup_1 in Hc as [k Hk].
      assert (Hk' := Hk). apply (list_lookup_fmap_Some_2 duplicateTestsBelow) in Hk'.
      rewrite Heq in Hk'. congruence. }
    apply IH in Hfix as [Ht | Hs]; [| exact Hs | exact Hc].
    exfalso. eapply filter_nil_not_elem_of; [exact Hlen | exact Ht | exact Hc].
  - intros [? | Hs]; [discriminate |]. f_equal.
    rewrite forallb_forall in Hs. rewrite Forall_forall in IH.
    assert (Hnone : filter (λ c, is_test c = true) cs = []).
    { clear IH. induction cs as [| c cs IHcs]; [reflexivity |].
      rewrite filter_cons_False.
      - apply IHcs. intros x Hx. apply Hs. right. exact Hx.
      - specialize (Hs c (or_introl eq_refl)). destruct c; simpl in *; congruence. }
    rewrite Hnone, app_nil_r.
    clear Hnone. induction cs as [| c cs IHcs]; [reflexivity |].
    simpl. f_equal.
    + apply IH; [left | right; apply Hs; left; reflexivity].
    + apply IHcs.
      * intros x Hx. apply IH. right. exact Hx.
      * intros x Hx. apply Hs. right. exact Hx.
Qed.

Lemma duplicateTests_fixed xs :
  duplicateTests xs = xs ↔ forallb suites_only xs = true.
Proof.
  pose proof (duplicateTestsBelow_fixed (TestSuiteInfo "" "" None None xs)) as Hn.
  simpl in Hn. unfold duplicateTests. split.
  - intros Heq. destruct Hn as [Hn _]. destruct Hn as [? | ?]; [congruence | done | done].
  - intros Hs. destruct Hn as [_ Hn]. specialize (Hn (or_intror Hs)). congruence.
Qed.

End MergerSelf.

(** ** [merge] in place and [merge] on trees *)

Module InPlaceFacts.
Import Mapper InPlace.
Local Open Scope nat_scope.
#[local] Set Warnings "-clear-no-such-hyp".

Lemma represents_suite h i lb f ln cs l F :
  represents h (TestSuiteInfo i lb f ln cs) l F ↔
  ∃ a Fa, h !! l = Some (NodeObject i lb f ln None (Some a)) ∧ F = l :: Fa ∧
          represents_array h cs a Fa.
Proof.
  assert (Hall : ∀ cs items,
    (fix all (cs : list TreeNode) (items : list (nat * list nat)) : Prop :=
           match cs, items with
           | [], [] => True
           | c :: cs', x :: items' => represents h c x.1 x.2 ∧ all cs' items'
           | _, _ => False
           end) cs items ↔ Forall2 (λ t x, represents h t x.1 x.2) cs items).
  { clear. induction cs as [|c cs IH]; intros [|x items]; simpl.
    - split; [constructor | done].
    - split; [done | inversion 1].
    - split; [done | inversion 1].
    - rewrite IH. split.
      + intros [? ?]. by constructor.
      + inversion 1; subst. done. }
  simpl. setoid_rewrite Hall. unfold represents_array. split.
  - intros (a & items & Hl & Ha & -> & Hcs). exists a, (a :: concat items.*2). eauto 10.
  - intros (a & Fa & Hl & -> & items & Ha & -> & Hcs). eauto 10.
Qed.

Lemma represents_test h i lb f ln sk l F :
  represents h (TestInfo i lb f ln sk) l F ↔
  h !! l = Some (NodeObject i lb f ln sk None) ∧ F = [l].
Proof. reflexivity. Qed.

#[global] Opaque represents.

Lemma represents_head h t l F : represents h t l F → l ∈ F.
Proof.
  destruct t.
  - intros [_ ->]%represents_test. left.
  - intros (a & Fa & _ & -> & _)%represents_suite. left.
Qed.

Lemma represents_id h t l F : represents h t l F → object_id h l = Some (node_id t).
Proof.
  unfold object_id. destruct t.
  - intros [-> _]%represents_test. reflexivity.
  - intros (a & Fa & -> & _)%represents_suite. reflexivity.
Qed.

(** A representation depends on its footprint only. *)
Lemma represents_frame h h' t : ∀ l F,
  represents h t l F → (∀ x, x ∈ F → h' !! x = h !! x) → represents h' t l F.
Proof.
  induction t as [i lb f ln sk | i lb f ln cs IH] using TreeNode_ind; intros l F.
  - rewrite !represents_test. intros [Hl ->] Hsame. split; [| done].
    rewrite Hsame; [done | left].
  - rewrite !represents_suite. intros (a & Fa & Hl & -> & items & Ha & -> & Hcs) Hsame.
    exists a, (a :: concat items.*2). split_and!; [| done |].
    + rewrite Hsame; [done | left].
    + exists items. split_and!; [| done |].
      * rewrite Hsame; [done | right; left].
      * assert (Hin : ∀ x, x ∈ concat items.*2 → h' !! x = h !! x).
        { intros x Hx. apply Hsame. right. right. exact Hx. }
        clear Hsame Hl Ha. induction Hcs as [| c x cs items Hc Hcs IHcs]; [constructor |].
        apply Forall_cons in IH as [IHc IH]. constructor.
        -- apply IHc; [exact Hc |]. intros y Hy. apply Hin. simpl. apply elem_of_app. by left.
        -- apply IHcs; [exact IH |]. intros y Hy. apply Hin. simpl. apply elem_of_app. by right.
Qed.

Lemma represents_all_frame h h' ts (items : list (nat * list nat)) :
  Forall2 (λ t x, represents h t x.1 x.2) ts items →
  (∀ x, x ∈ concat items.*2 → h' !! x = h !! x) →
  Forall2 (λ t x, represents h' t x.1 x.2) ts items.
Proof.
  induction 1 as [| t x ts items Ht Hts IH]; intros Hsame; [constructor |].
  constructor.
  - eapply represents_frame; [exact Ht |]. intros y Hy. apply Hsame. simpl.
    apply elem_of_app. by left.
  - apply IH. intros y Hy. apply Hsame. simpl. apply elem_of_app. by right.
Qed.

(** [find] in the array and in the forest it represents. *)
Lemma find_represented h sid ts (items : list (nat * list nat)) :
  Forall2 (λ t x, represents h t x.1 x.2) ts items →
  match list_find (λ r, node_id r = sid) ts with
  | Some (i, t) =>
      ∃ x, items !! i = Some x ∧
           list_find (λ e, object_id h e = Some sid) items.*1 = Some (i, x.1)
  | None => list_find (λ e, object_id h e = Some sid) items.*1 = None
  end.
Proof.
  induction 1 as [| t x ts items Ht Hts IH]; [reflexivity |].
  rewrite fmap_cons. simpl list_find.
  pose proof (represents_id _ _ _ _ Ht) as Hid.
  destruct (decide (node_id t = sid)) as [Heq | Hne].
  - rewrite decide_True by (rewrite Hid; congruence). exists x. done.
  - rewrite decide_False by (rewrite Hid; congruence).
    destruct (list_find _ ts) as [[i d] |]; simpl.
    + destruct IH as (y & Hy & ->). exists y. done.
    + rewrite IH. reflexivity.
Qed.


Lemma push_correct D t h dest l FD F1 :
  represents_array h D dest FD →
  represents h t l F1 →
  NoDup (FD ++ F1) →
  merged h (D ++ [t]) dest (FD ++ F1) (push h dest l).
Proof.
  intros (items & Ha & -> & Hall) Ht Hnd.
  assert (Hdest : dest < length h) by (eapply lookup_lt_Some; exact Ha).
  assert (Hpush : push h dest l = Some (<[dest := ArrayObject (items.*1 ++ [l])]> h)).
  { unfold push, elements. rewrite Ha. reflexivity. }
  rewrite Hpush. clear Hpush.
  exists (<[dest := ArrayObject (items.*1 ++ [l])]> h),
         (dest :: concat (items ++ [(l, F1)]).*2).
  assert (Hframe : ∀ x, x ≠ dest →
            <[dest := ArrayObject (items.*1 ++ [l])]> h !! x = h !! x).
  { intros x Hx. apply list_lookup_insert_ne. done. }
  simpl in Hnd. apply NoDup_cons in Hnd as [Hfresh Hnd].
  split_and!.
  - reflexivity.
  - exists (items ++ [(l, F1)]). split_and!.
    + rewrite list_lookup_insert_eq by exact Hdest. rewrite fmap_app. reflexivity.
    + reflexivity.
    + apply Forall2_app.
      * eapply represents_all_frame; [exact Hall |]. intros x Hx. apply Hframe.
        intros ->. apply Hfresh. apply elem_of_app. by left.
      * constructor; [| constructor]. eapply represents_frame; [exact Ht |].
        intros x Hx. apply Hframe. intros ->. apply Hfresh. apply elem_of_app. by right.
  - rewrite fmap_app, concat_app. simpl. rewrite app_nil_r.
    apply NoDup_cons. done.
  - rewrite fmap_app, concat_app. simpl. rewrite app_nil_r. done.
  - intros x Hx. apply Hframe. intros ->. apply Hx. left.
Qed.


Lemma height_children i lb f ln cs n :
  height (TestSuiteInfo i lb f ln cs) ≤ n → forest_height cs < n.
Proof. simpl. unfold forest_height. lia. Qed.

Lemma object_children_test h i lb f ln sk l F :
  represents h (TestInfo i lb f ln sk) l F → object_children h l = None.
Proof. intros [Hl _]%represents_test. unfold object_children. rewrite Hl. reflexivity. Qed.

(** One iteration on the heap does what [mergeEntry] does on the trees. *)
Lemma mergeStep_correct n :
  merge_correct n →
  ∀ D t h dest l FD F1,
    height t ≤ n →
    represents_array h D dest FD →
    represents h t l F1 →
    NoDup (FD ++ F1) →
    merged h (Mapper.mergeEntry D t) dest (FD ++ F1)
           (mergeStep (merge n) dest (Some h) l).
Proof.
  intros Hrec D t h dest l FD F1 Hheight HD Ht Hnd.
  pose proof HD as (items & Ha & HFD & Hall).
  pose proof (find_represented h (node_id t) D items Hall) as Hfind.
  assert (Hstep : mergeStep (merge n) dest (Some h) l
    = match list_find (λ result, object_id h result = Some (node_id t)) items.*1 with
      | Some (_, existingResult) =>
          match object_children h existingResult, object_children h l with
          | Some ec, Some sc => merge n h ec sc
          | _, _ => push h dest l
          end
      | None => push h dest l
      end).
  { unfold mergeStep, elements. simpl. rewrite Ha. simpl.
    rewrite (represents_id _ _ _ _ Ht). reflexivity. }
  rewrite Hstep. clear Hstep.
  destruct (list_find (λ r, node_id r = node_id t) D) as [[i d] |] eqn:HfD.
  2: { rewrite Hfind, MergerFacts.mergeEntry_absent by exact HfD.
       apply push_correct; assumption. }
  destruct Hfind as (x & Hx & ->).
  pose proof HfD as (Hd & _ & _)%list_find_Some.
  pose proof (Forall2_lookup_lr _ _ _ _ _ _ Hall Hd Hx) as Hrep.
  destruct d as [ei el ef eln esk | ei el ef eln ecs].
  { rewrite (object_children_test _ _ _ _ _ _ _ _ Hrep).
    erewrite MergerFacts.mergeEntry_onto_test by (first [exact HfD | reflexivity]).
    apply push_correct; assumption. }
  destruct t as [si sl sf sln ssk | si sl sf sln scs].
  { rewrite (object_children_test _ _ _ _ _ _ _ _ Ht).
    rewrite MergerFacts.mergeEntry_test by reflexivity.
    destruct (object_children h x.1); apply push_correct; assumption. }
  erewrite MergerFacts.mergeEntry_suites by exact HfD.
  apply represents_suite in Hrep as (ea & FA & Hxe & HFx & Hecs).
  apply represents_suite in Ht as (sa & FSa & Hl & -> & Hscs).
  unfold object_children. rewrite Hxe, Hl.
  (* the footprints, cut at the entry found *)
  pose proof (take_drop_middle _ _ _ Hx) as Hitems.
  set (pre := take i items) in *. set (post := drop (S i) items) in *.
  assert (Hleni : length pre = i).
  { subst pre. rewrite length_take. apply lookup_lt_Some in Hx. lia. }
  rewrite <- Hitems in HFD. subst FD.
  rewrite fmap_app, fmap_cons, concat_app, concat_cons, HFx in Hnd.
  simpl in Hnd. rewrite <- ?app_assoc in Hnd. simpl in Hnd.
  rewrite <- ?app_assoc in Hnd.
  apply NoDup_cons in Hnd as [Hdest Hnd].
  apply NoDup_app in Hnd as (Hpre & Hpre_rest & Hnd).
  apply NoDup_cons in Hnd as [Hx1 Hnd].
  apply NoDup_app in Hnd as (HFA & HFA_rest & Hnd).
  apply NoDup_app in Hnd as (Hpost & Hpost_rest & Hnd).
  apply NoDup_cons in Hnd as [Hlfresh HFSa].
  assert (Hchildren : NoDup (FA ++ FSa)).
  { apply NoDup_app. split_and!; [exact HFA | | exact HFSa].
    intros y Hy Hy'. apply (HFA_rest y Hy). set_solver. }
  destruct (Hrec ecs scs h ea sa FA FSa (height_children _ _ _ _ _ _ Hheight)
              Hecs Hscs Hchildren) as (h' & FA' & Hmerge & Hrep' & HndA' & Hsub & Hframe).
  exists h', (dest :: concat (pre ++ (x.1, x.1 :: FA') :: post).*2).
  split_and!.
  - exact Hmerge.
  - exists (pre ++ (x.1, x.1 :: FA') :: post). split_and!.
    + rewrite Hframe by set_solver. rewrite Ha, <- Hitems, !fmap_app, !fmap_cons.
      reflexivity.
    + reflexivity.
    + rewrite <- Hitems in Hall.
      apply Forall2_app_inv_r in Hall as (D1 & D2' & HD1 & HD2 & HDeq).
      apply Forall2_cons_inv_r in HD2 as (d & D2 & Hd' & HD2 & ->).
      assert (HlenD : length D1 = i).
      { rewrite (Forall2_length _ _ _ HD1). exact Hleni. }
      rewrite HDeq, insert_app_r_alt by lia.
      rewrite HlenD, Nat.sub_diag. simpl.
      apply Forall2_app; [| constructor].
      * eapply represents_all_frame; [exact HD1 |]. intros y Hy. apply Hframe.
        intros Hy'. apply (Hpre_rest y Hy). set_solver.
      * apply represents_suite. exists ea, FA'. split_and!; [| reflexivity | exact Hrep'].
        rewrite Hframe; [exact Hxe |]. set_solver.
      * eapply represents_all_frame; [exact HD2 |]. intros y Hy. apply Hframe.
        intros Hy'. apply elem_of_app in Hy' as [Hy' | Hy'].
        -- apply (HFA_rest y Hy'). set_solver.
        -- apply (Hpost_rest y Hy). set_solver.
  - rewrite fmap_app, fmap_cons, concat_app, concat_cons. simpl.
    apply NoDup_cons. split; [set_solver |].
    apply NoDup_app. split_and!; [exact Hpre | set_solver |].
    apply NoDup_cons. split; [set_solver |].
    apply NoDup_app. split_and!; [exact HndA' | set_solver | exact Hpost].
  - rewrite !fmap_app, !fmap_cons, !concat_app, !concat_cons, HFx. simpl. set_solver.
  - intros y Hy. apply Hframe. rewrite !fmap_app, !fmap_cons, !concat_app, !concat_cons, HFx in Hy.
    set_solver.
Qed.


Lemma forest_height_Forall ts n :
  forest_height ts ≤ n → Forall (λ t, height t ≤ n) ts.
Proof.
  unfold forest_height. induction ts as [| t ts IH]; simpl; intros Hle; constructor.
  - lia.
  - apply IH. lia.
Qed.

(** The [forEach] loop over the source entries. *)
Lemma merge_loop_correct n :
  merge_correct n →
  ∀ ts (items : list (nat * list nat)) D h dest FD,
    Forall (λ t, height t ≤ n) ts →
    represents_array h D dest FD →
    Forall2 (λ t x, represents h t x.1 x.2) ts items →
    NoDup (FD ++ concat items.*2) →
    merged h (Mapper.merge D ts) dest (FD ++ concat items.*2)
           (foldl (mergeStep (merge n) dest) (Some h) items.*1).
Proof.
  intros Hrec. induction ts as [| t ts IH]; intros items D h dest FD Hheight HD Hts Hnd.
  - apply Forall2_nil_inv_l in Hts as ->. simpl in *. rewrite app_nil_r in *.
    exists h, FD. split_and!; [reflexivity | exact HD | exact Hnd | done | done].
  - apply Forall2_cons_inv_l in Hts as (x & items' & Ht & Hts & ->).
    apply Forall_cons in Hheight as [Hht Hheight].
    rewrite !fmap_cons, concat_cons in *. rewrite app_assoc in Hnd.
    apply NoDup_app in Hnd as (Hnd1 & Hdisjoint & Hnd2).
    destruct (mergeStep_correct n Hrec D t h dest x.1 FD x.2 Hht HD Ht Hnd1)
      as (h1 & FD1 & Hstep & HD1 & HndD1 & Hsub1 & Hframe1).
    change (foldl ?f ?a (?y :: ?k)) with (foldl f (f a y) k).
    rewrite Hstep. rewrite MergerFacts.merge_cons.
    destruct (IH items' (Mapper.mergeEntry D t) h1 dest FD1 Hheight HD1)
      as (h' & FD' & Hloop & HD' & HndD' & Hsub' & Hframe').
    + eapply represents_all_frame; [exact Hts |]. intros y Hy. apply Hframe1.
      intros Hy'. exact (Hdisjoint y Hy' Hy).
    + apply NoDup_app. split_and!; [exact HndD1 | | exact Hnd2].
      intros y Hy. apply Hdisjoint. apply Hsub1. exact Hy.
    + exists h', FD'. split_and!; [exact Hloop | exact HD' | exact HndD' | |].
      * set_solver.
      * intros y Hy. rewrite Hframe' by set_solver. apply Hframe1. set_solver.
Qed.

(** The in-place [merge] refines the merge of the trees: started on arrays
    that hold a destination forest and a source forest in separate objects,
    none of them shared, it ends with the destination array holding the
    merged forest. *)
Theorem merge_refines n : merge_correct n.
Proof.
  induction n as [| n IH]; intros D ts h dest src FD FS Hheight HD HS Hnd; [lia |].
  destruct HS as (items & Hsrc & -> & Hitems).
  assert (Hnd' : NoDup (FD ++ concat items.*2)).
  { apply NoDup_app in Hnd as (HndD & Hdisjoint & [_ HndS]%NoDup_cons).
    apply NoDup_app. split_and!; [exact HndD | | exact HndS].
    intros y Hy Hy'. apply (Hdisjoint y Hy). right. exact Hy'. }
  assert (Hheights : Forall (λ t, height t ≤ n) ts).
  { apply forest_height_Forall. lia. }
  destruct (merge_loop_correct n IH ts items D h dest FD Hheights HD Hitems Hnd')
    as (h' & FD' & Hloop & HD' & HndD' & Hsub & Hframe).
  exists h', FD'. split_and!; [| exact HD' | exact HndD' | set_solver | ].
  - simpl. unfold elements. rewrite Hsrc. exact Hloop.
  - intros y Hy. apply Hframe. set_solver.
Qed.

Corollary merge_in_place D ts h dest src FD FS :
  represents_array h D dest FD →
  represents_array h ts src FS →
  NoDup (FD ++ FS) →
  ∃ h' FD',
    merge (S (forest_height ts)) h dest src = Some h' ∧
    represents_array h' (Mapper.merge D ts) dest FD'.
Proof.
  intros HD HS Hnd.
  assert (Hfuel : forest_height ts < S (forest_height ts)) by lia.
  destruct (merge_refines _ D ts h dest src FD FS Hfuel HD HS Hnd)
    as (h' & FD' & Hm & HD' & _).
  eauto.
Qed.

(** The specification's two test nodes with one identifier, in place: the
    destination array at 0 holds the node at 2, the source array at 1 the
    node at 3, and the merge pushes the reference 3 onto the destination. *)
Example merge_in_place_same_id :
  merge 1
    [ArrayObject [2]; ArrayObject [3];
     NodeObject "a.test.ts#^x$" "x" (Some "a.test.ts") (Some 1%Z) (Some false) None;
     NodeObject "a.test.ts#^x$" "x" (Some "a.test.ts") (Some 2%Z) (Some false) None]
    0 1
  = Some
      [ArrayObject [2; 3]; ArrayObject [3];
       NodeObject "a.test.ts#^x$" "x" (Some "a.test.ts") (Some 1%Z) (Some false) None;
       NodeObject "a.test.ts#^x$" "x" (Some "a.test.ts") (Some 2%Z) (Some false) None].
Proof. reflexivity. Qed.

(** The tree of a file with one test merged with itself, the very same
    array as destination and as source: the file suite finds itself, and its
    [children] array at 2 gets the reference to its test a second time. *)
Example merge_in_place_same_array :
  merge 2
    [ArrayObject [1];
     NodeObject "a.test.ts" "a.test.ts" (Some "a.test.ts") None None (Some 2);
     ArrayObject [3];
     NodeObject "a.test.ts#^x$" "x" (Some "a.test.ts") (Some 1%Z) (Some false) None]
    0 0
  = Some
      [ArrayObject [1];
       NodeObject "a.test.ts" "a.test.ts" (Some "a.test.ts") None None (Some 2);
       ArrayObject [3; 3];
       NodeObject "a.test.ts#^x$" "x" (Some "a.test.ts") (Some 1%Z) (Some false) None].
Proof. reflexivity. Qed.

End InPlaceFacts.

(** ** Properties of the string built-ins *)

Module JsStringFacts.
Import JsString.

Lemma join_Some_concat (parts : list string) sep :
  join (Some <$> parts) sep = String.concat sep parts.
Proof.
  unfold join. f_equal. induction parts as [| x parts IH]; [reflexivity |].
  simpl. f_equal. exact IH.
Qed.

Lemma append_cons c a s : String c a +:+ s = String c (a +:+ s).
Proof. reflexivity. Qed.

Lemma append_nil s : "" +:+ s = s.
Proof. reflexivity. Qed.

Section Matching.
Variable eqc : ascii → ascii → bool.

Lemma occurs_cons w c s :
  occurs eqc w (String c s) = starts_with eqc w (String c s) || occurs eqc w s.
Proof. reflexivity. Qed.

Lemma occurrences_cons w c s :
  occurrences eqc w (String c s)
    = ((if starts_with eqc w (String c s) then 1 else 0) + occurrences eqc w s)%nat.
Proof. reflexivity. Qed.

Lemma occurs_app_r w a s : occurs eqc w s = true → occurs eqc w (a +:+ s) = true.
Proof.
  intros Hs. induction a as [| c a IH]; [exact Hs |].
  rewrite append_cons, occurs_cons, IH. apply orb_true_r.
Qed.

Lemma occurrences_app_r w a s :
  (occurrences eqc w s ≤ occurrences eqc w (a +:+ s))%nat.
Proof.
  induction a as [| c a IH]; [reflexivity |].
  rewrite append_cons, occurrences_cons. lia.
Qed.

Lemma occurs_occurrences w s :
  occurs eqc w s = true ↔ (0 < occurrences eqc w s)%nat.
Proof.
  induction s as [| c s IH].
  - simpl. destruct (starts_with eqc w ""); simpl; split; (lia || done).
  - rewrite occurs_cons, occurrences_cons.
    destruct (starts_with eqc w (String c s)); simpl; [split; (lia || done) |].
    exact IH.
Qed.

Lemma occurrences_empty s : occurrences eqc "" s = S (String.length s).
Proof. induction s as [| c s IH]; simpl in *; [reflexivity | rewrite IH; reflexivity]. Qed.

(** Where the text does not occur, removing it changes nothing. *)
Lemma removeAll_scan_absent w s :
  occurs eqc w s = false → removeAll_scan eqc w 0 s = s.
Proof.
  induction s as [| c s IH]; [reflexivity |].
  rewrite occurs_cons. intros [Hhere Hlater]%orb_false_elim.
  simpl removeAll_scan. rewrite Hhere, IH by exact Hlater. reflexivity.
Qed.

Lemma removeAll_absent w s : occurs eqc w s = false → removeAll eqc w s = s.
Proof. destruct w; [reflexivity |]. apply removeAll_scan_absent. Qed.

End Matching.


Lemma starts_with_refl sep s : starts_with Ascii.eqb sep (sep +:+ s) = true.
Proof.
  induction sep as [| a sep IH]; [reflexivity |].
  simpl. rewrite Ascii.eqb_refl, IH. reflexivity.
Qed.

Lemma occurrences_at_least_one sep f s :
  (1 ≤ occurrences Ascii.eqb sep (f +:+ sep +:+ s))%nat.
Proof.
  etransitivity; [| apply occurrences_app_r].
  destruct (sep +:+ s) eqn:Hs.
  - destruct sep; [simpl; lia | discriminate].
  - rewrite occurrences_cons, <- Hs, starts_with_refl. lia.
Qed.

(** [split]: the rest of a separator just matched is skipped. *)
Lemma split_scan_skip sep a s :
  split_scan sep (String.length a) (a +:+ s) = split_scan sep 0 s.
Proof.
  induction a as [| c a IH]; [| exact IH].
  simpl. destruct s; reflexivity.
Qed.

Lemma split_scan_absent sep s :
  occurrences Ascii.eqb sep s = 0%nat → split_scan sep 0 s = [s].
Proof.
  induction s as [| c s IH]; [reflexivity |].
  rewrite occurrences_cons. intros Hocc. simpl split_scan.
  destruct (starts_with Ascii.eqb sep (String c s)); [simpl in Hocc; lia |].
  rewrite IH by (simpl in Hocc; lia). reflexivity.
Qed.

Lemma split_scan_cons sep c s :
  split_scan sep 0 (String c s)
    = if starts_with Ascii.eqb sep (String c s)
      then "" :: split_scan sep (String.length sep - 1) s
      else push_front c (split_scan sep 0 s).
Proof. reflexivity. Qed.

(** A separator that occurs once cuts the string in two at that place. *)
Lemma split_once a sep f s :
  occurrences Ascii.eqb (String a sep) (f +:+ String a sep +:+ s) = 1%nat →
  split (f +:+ String a sep +:+ s) (String a sep) = [f; s].
Proof.
  unfold split. induction f as [| c f IH]; intros Hocc.
  - rewrite append_nil, append_cons in *.
    rewrite occurrences_cons in Hocc.
    pose proof (starts_with_refl (String a sep) s) as Hhere.
    rewrite append_cons in Hhere.
    rewrite split_scan_cons, Hhere in *.
    replace (String.length (String a sep) - 1)%nat with (String.length sep)
      by (simpl; lia).
    rewrite split_scan_skip, split_scan_absent; [reflexivity |].
    pose proof (occurrences_app_r Ascii.eqb (String a sep) sep s). lia.
  - rewrite (append_cons c f) in *.
    rewrite occurrences_cons in Hocc.
    pose proof (occurrences_at_least_one (String a sep) f s) as Hge.
    rewrite split_scan_cons.
    destruct (starts_with Ascii.eqb (String a sep) (String c (f +:+ String a sep +:+ s)));
      [lia |].
    rewrite IH by lia. reflexivity.
Qed.

Lemma split_nonempty s sep : sep ≠ "" → split s sep ≠ [].
Proof.
  intros Hsep. destruct sep as [| a sep]; [congruence |]. clear Hsep. unfold split.
  generalize 0%nat. induction s as [| c s IH]; intros k; [done |].
  destruct k; [| apply IH].
  rewrite split_scan_cons.
  destruct (starts_with Ascii.eqb (String a sep) (String c s)); [done |].
  specialize (IH 0%nat). destruct (split_scan (String a sep) 0 s); done.
Qed.

End JsStringFacts.

Module JsStringMore.
Import JsString JsStringFacts.

Lemma append_assoc (a b c : string) : (a +:+ b) +:+ c = a +:+ (b +:+ c).
Proof. induction a as [| x a IH]; [reflexivity |]. by rewrite !append_cons, IH. Qed.

Lemma append_empty_r (a : string) : a +:+ "" = a.
Proof. induction a as [| x a IH]; [reflexivity |]. by rewrite append_cons, IH. Qed.

Lemma length_append (a b : string) :
  String.length (a +:+ b) = (String.length a + String.length b)%nat.
Proof. induction a as [| x a IH]; [reflexivity |]. rewrite append_cons. simpl. by rewrite IH. Qed.

(** A match with exact comparison is a prefix. *)
Lemma starts_with_prefix w s :
  starts_with Ascii.eqb w s = true → ∃ rest, s = w +:+ rest.
Proof.
  revert s. induction w as [| a w IH]; intros s; [by exists s |].
  destruct s as [| b s]; [discriminate |]. simpl.
  intros [Hab%Ascii.eqb_eq [rest ->]%IH]%andb_true_iff. subst b. by exists rest.
Qed.

Lemma concat_cons sep p q ps :
  String.concat sep (p :: q :: ps) = p +:+ sep +:+ String.concat sep (q :: ps).
Proof. reflexivity. Qed.

Lemma concat_push_front sep c parts :
  parts ≠ [] →
  String.concat sep (push_front c parts) = String c (String.concat sep parts).
Proof. destruct parts as [| p [| q ps]]; [done | reflexivity | reflexivity]. Qed.

Lemma split_scan_nonempty sep skip s : split_scan sep skip s ≠ [].
Proof.
  revert skip. induction s as [| c s IH]; intros skip; [done |]. simpl.
  destruct skip as [| k]; [| apply IH].
  destruct (starts_with Ascii.eqb sep (String c s)); [done |].
  specialize (IH 0%nat). destruct (split_scan sep 0 s); done.
Qed.

(** [s.split(sep).join(sep)] is [s]. *)
Lemma join_split_scan a sep n : ∀ s,
  (String.length s ≤ n)%nat →
  String.concat (String a sep) (split_scan (String a sep) 0 s) = s.
Proof.
  induction n as [| n IH]; intros [| c s] Hn; try reflexivity; [simpl in Hn; lia |].
  rewrite split_scan_cons.
  destruct (starts_with Ascii.eqb (String a sep) (String c s)) eqn:Hstarts.
  - apply starts_with_prefix in Hstarts as [rest Hrest].
    injection Hrest as -> ->.
    change (String.length (String a sep) - 1)%nat with (String.length sep - 0)%nat.
    rewrite Nat.sub_0_r, split_scan_skip.
    pose proof (split_scan_nonempty (String a sep) 0 rest) as Hne.
    destruct (split_scan (String a sep) 0 rest) as [| p ps] eqn:Hparts; [done |].
    rewrite concat_cons, <- Hparts, IH; [reflexivity |].
    simpl in Hn. rewrite length_append in Hn. lia.
  - rewrite concat_push_front by apply split_scan_nonempty.
    rewrite IH; [reflexivity | simpl in Hn; lia].
Qed.

Lemma join_split s sep : sep ≠ "" → String.concat sep (split s sep) = s.
Proof.
  destruct sep as [| a sep]; [done |]. intros _.
  apply (join_split_scan a sep (String.length s)). lia.
Qed.

(** The parts before and after an index, joined. *)
Lemma concat_take_drop sep (parts : list string) k :
  (0 < k < length parts)%nat →
  String.concat sep parts
  = String.concat sep (take k parts) +:+ sep +:+ String.concat sep (drop k parts).
Proof.
  revert k. induction parts as [| p parts IH]; intros k Hk; [simpl in Hk; lia |].
  destruct k as [| k]; [lia |]. simpl in Hk.
  destruct parts as [| q parts]; [simpl in Hk; lia |].
  destruct k as [| k].
  - reflexivity.
  - rewrite concat_cons, (IH (S k)) by (simpl in *; lia).
    change (take (S (S k)) (p :: q :: parts)) with (p :: take (S k) (q :: parts)).
    change (take (S k) (q :: parts)) with (q :: take k parts).
    rewrite concat_cons.
    change (q :: take k parts) with (take (S k) (q :: parts)).
    rewrite !append_assoc. reflexivity.
Qed.

(** No backslash is left by [replace(/\\/g, "/")]. *)
Lemma backslashesToSlashes_clean s :
  occurs Ascii.eqb "\" (backslashesToSlashes s) = false.
Proof.
  induction s as [| c s IH]; [reflexivity |].
  simpl backslashesToSlashes. rewrite occurs_cons, IH, orb_false_r.
  change (starts_with Ascii.eqb "\" (String ?x ?y)) with (Ascii.eqb "\" x && true).
  rewrite andb_true_r.
  destruct (Ascii.eqb_spec c "\") as [-> | Hne]; [reflexivity |].
  apply Ascii.eqb_neq. congruence.
Qed.

Section Removing.
Variable eqc : ascii → ascii → bool.

Lemma removeAll_scan_skip w a s :
  removeAll_scan eqc w (String.length a) (a +:+ s) = removeAll_scan eqc w 0 s.
Proof.
  induction a as [| c a IH]; [destruct s; reflexivity | exact IH].
Qed.

Lemma removeAll_scan_cons w c s :
  removeAll_scan eqc w 0 (String c s)
  = if starts_with eqc w (String c s)
    then removeAll_scan eqc w (String.length w - 1) s
    else String c (removeAll_scan eqc w 0 s).
Proof. reflexivity. Qed.

Lemma starts_with_app w w' s :
  starts_with eqc w w' = true → starts_with eqc w (w' +:+ s) = true.
Proof.
  revert w'. induction w as [| a w IH]; intros w'; [done |].
  destruct w' as [| b w']; [discriminate |]. simpl.
  intros [-> ?%IH]%andb_true_iff. done.
Qed.

(** A match at the start is removed, and the scan goes on behind it. *)
Lemma removeAll_prefix w w' s :
  String.length w' = String.length w → starts_with eqc w w' = true →
  removeAll eqc w (w' +:+ s) = removeAll eqc w s.
Proof.
  intros Hlength Hstarts.
  destruct w as [| a w]; [by destruct w' |].
  destruct w' as [| b w']; [discriminate |].
  unfold removeAll. rewrite append_cons, removeAll_scan_cons.
  pose proof (starts_with_app _ _ s Hstarts) as Hmatch.
  rewrite append_cons in Hmatch. rewrite Hmatch.
  simpl in Hlength. injection Hlength as Hlength.
  change (String.length (String a w) - 1)%nat with (String.length w - 0)%nat.
  rewrite Nat.sub_0_r, <- Hlength. apply removeAll_scan_skip.
Qed.

End Removing.

End JsStringMore.

(** ** Properties of the mapper *)

Module MapperFacts.
Section MapperFacts.
Context `{MapperImports}.
Import Mapper JsString JsStringFacts.

(** *** The Identifier Builder *)




(** *** The Path-to-Tree Folder *)

Lemma at_index_lookup {A} (a : list A) i x :
  at_index a i = Some x → 0 ≤ i ∧ a !! Z.to_nat i = Some x.
Proof. unfold at_index. case_decide; [done |]. intros Hx. split; [lia | exact Hx]. Qed.

Lemma at_index_last {A} (a : list A) : at_index a (Z.of_nat (length a) - 1) = last a.
Proof.
  unfold at_index. case_decide.
  - destruct a; [reflexivity | simpl in *; lia].
  - rewrite last_lookup. f_equal. lia.
Qed.

Lemma createDirectoryStructure_folded segments leaf currentLevel currentPathIndex :
  FoldedPath segments leaf currentLevel →
  FoldedPath segments leaf
    (createDirectoryStructure currentLevel segments currentPathIndex).
Proof.
  funelim (createDirectoryStructure currentLevel segments currentPathIndex);
    intros Hfolded.
  - match goal with IH : ∀ l, FoldedPath _ l _ → _ |- _ => apply IH end.
    destruct (at_index_lookup _ _ _ Hdefined) as [Hnonneg Hsegment].
    rewrite join_Some_concat.
    replace (Z.to_nat (skipEmpty thePath currentPathIndex + 1))
      with (S (Z.to_nat (skipEmpty thePath currentPathIndex))) by lia.
    apply folded_directory; [exact Hfolded | exact Hsegment].
  - exact Hfolded.
Qed.

Lemma FoldedPath_tests segments leaf n :
  FoldedPath segments leaf n → tests_of n = tests_of leaf.
Proof.
  induction 1 as [| k segment inner _ IH _]; [reflexivity |].
  simpl. rewrite app_nil_r. exact IH.
Qed.

Lemma transformFileResultIntoTree_folded this resultFileName fileTestCases :
  let path := split (pathWithoutWorkDir this resultFileName) "/" in
  FoldedPath path
    (TestSuiteInfo (pathWithoutWorkDir this resultFileName)
                   (default "" (last path)) (Some resultFileName) None fileTestCases)
    (transformFileResultIntoTree this resultFileName fileTestCases).
Proof.
  intros path. unfold transformFileResultIntoTree. fold path.
  rewrite at_index_last. apply createDirectoryStructure_folded. constructor.
Qed.

Lemma transformFileResultIntoTree_tests this resultFileName fileTestCases :
  tests_of (transformFileResultIntoTree this resultFileName fileTestCases)
    = forest_tests fileTestCases.
Proof.
  erewrite FoldedPath_tests by apply transformFileResultIntoTree_folded. reflexivity.
Qed.

End MapperFacts.
End MapperFacts.

(** *** The root-relative path *)

Module RootRelativeFacts.
Import Mapper JsString JsStringFacts JsStringMore.








End RootRelativeFacts.

(** Merging loses no test of either forest. *)
Module MergerTests.
Import Mapper MergerFacts.

Lemma elem_of_forest_tests t xs :
  t ∈ forest_tests xs ↔ ∃ n, n ∈ xs ∧ t ∈ tests_of n.
Proof.
  unfold forest_tests. rewrite list_elem_of_join. split.
  - intros (l & Ht & (n & -> & Hn)%list_elem_of_fmap). eauto.
  - intros (n & Hn & Ht). exists (tests_of n). split; [exact Ht |].
    apply list_elem_of_fmap_2. exact Hn.
Qed.

Lemma elem_of_forest_tests_app t xs ys :
  t ∈ forest_tests (xs ++ ys) ↔ t ∈ forest_tests xs ∨ t ∈ forest_tests ys.
Proof.
  rewrite !elem_of_forest_tests. split.
  - intros (n & [Hn | Hn]%elem_of_app & Ht); [left | right]; eauto.
  - intros [(n & Hn & Ht) | (n & Hn & Ht)]; exists n; rewrite elem_of_app; auto.
Qed.

Lemma elem_of_forest_tests_singleton t n : t ∈ forest_tests [n] ↔ t ∈ tests_of n.
Proof. unfold forest_tests. simpl. rewrite app_nil_r. reflexivity. Qed.

Lemma elem_of_forest_tests_insert t xs i old new :
  xs !! i = Some old →
  (t ∈ tests_of old → t ∈ tests_of new) →
  t ∈ forest_tests xs ∨ t ∈ tests_of new →
  t ∈ forest_tests (<[i := new]> xs).
Proof.
  intros Hi Hgrow Ht. rewrite elem_of_forest_tests.
  assert (Hnew : new ∈ <[i := new]> xs).
  { eapply list_elem_of_lookup_2. apply list_lookup_insert_eq.
    eapply lookup_lt_Some. exact Hi. }
  destruct Ht as [(n & Hn & Ht)%elem_of_forest_tests | Ht]; [| eauto].
  apply list_elem_of_lookup_1 in Hn as [k Hk].
  destruct (decide (i = k)) as [-> | Hne].
  - assert (n = old) as -> by congruence. eauto.
  - exists n. split; [| exact Ht].
    eapply list_elem_of_lookup_2. rewrite list_lookup_insert_ne by done. exact Hk.
Qed.

Lemma merge_keeps_tests_if src :
  Forall keeps_tests src →
  ∀ dest t, t ∈ forest_tests dest ∨ t ∈ forest_tests src →
            t ∈ forest_tests (merge dest src).
Proof.
  induction src as [| s src IH]; intros Hsrc dest t Ht.
  - rewrite merge_nil. destruct Ht as [Ht | Ht]; [exact Ht |].
    apply elem_of_forest_tests in Ht as (? & []%elem_of_nil & _).
  - apply Forall_cons in Hsrc as [Hs Hsrc]. rewrite merge_cons.
    apply (IH Hsrc).
    change (s :: src) with ([s] ++ src) in Ht.
    rewrite elem_of_forest_tests_app, elem_of_forest_tests_singleton in Ht.
    destruct Ht as [Ht | [Ht | Ht]]; [left | left | right; exact Ht]; apply Hs; auto.
Qed.

Lemma mergeEntry_keeps_tests s : keeps_tests s.
Proof.
  induction s as [| si sl sf sln scs IH] using TreeNode_ind; intros dest t Ht.
  { rewrite mergeEntry_test by reflexivity.
    rewrite elem_of_forest_tests_app, elem_of_forest_tests_singleton. exact Ht. }
  assert (Happ : mergeEntry dest (TestSuiteInfo si sl sf sln scs)
                 = dest ++ [TestSuiteInfo si sl sf sln scs] →
                 t ∈ forest_tests (mergeEntry dest (TestSuiteInfo si sl sf sln scs))).
  { intros ->. rewrite elem_of_forest_tests_app, elem_of_forest_tests_singleton.
    exact Ht. }
  destruct (list_find (λ r, node_id r = si) dest) as [[j e] |] eqn:Hfind;
    [| by apply Happ, mergeEntry_absent].
  destruct e as [| ei el ef eln ecs]; [by apply Happ; eapply mergeEntry_onto_test |].
  erewrite mergeEntry_suites by exact Hfind.
  apply list_find_Some in Hfind as (Hj & _ & _).
  eapply elem_of_forest_tests_insert; [exact Hj | | ].
  - intros Hold. apply (merge_keeps_tests_if scs IH). left. exact Hold.
  - destruct Ht as [Ht | Ht]; [left; exact Ht | right].
    apply (merge_keeps_tests_if scs IH). right. exact Ht.
Qed.

Lemma merge_keeps_tests dest src t :
  t ∈ forest_tests dest ∨ t ∈ forest_tests src → t ∈ forest_tests (merge dest src).
Proof.
  apply merge_keeps_tests_if. apply Forall_forall. intros s _.
  apply mergeEntry_keeps_tests.
Qed.

End MergerTests.

(** *** The Filter Translator *)

Module FilterFacts.
Section FilterFacts.
Context `{MapperImports}.
Import Mapper JsString JsStringFacts.

Lemma mapTestIdsToTestFilter_root rest :
  mapTestIdsToTestFilter ("root" :: rest) = Normal None.
Proof. reflexivity. Qed.

Lemma mapTestIdsToTestFilter_empty : mapTestIdsToTestFilter [] = Throw TypeError.
Proof. reflexivity. Qed.

Lemma mapTestIdsToTestFilter_returns tests0 rest :
  ∃ v, mapTestIdsToTestFilter (tests0 :: rest) = Normal v.
Proof.
  unfold mapTestIdsToTestFilter. case_decide; [eauto |].
  destruct (includes tests0 TEST_ID_SEPARATOR); eauto.
Qed.

Lemma testIdOf_not_root part : testIdOf part ≠ "root".
Proof.
  intros Hroot.
  assert (Hcaret : occurs Ascii.eqb "^" (testIdOf part) = true).
  { unfold testIdOf. do 2 apply occurs_app_r. reflexivity. }
  rewrite Hroot in Hcaret. discriminate.
Qed.

Lemma separator_nonempty part :
  occurrences Ascii.eqb TEST_ID_SEPARATOR (testIdOf part) = 1%nat →
  ∃ a sep, TEST_ID_SEPARATOR = String a sep.
Proof.
  destruct TEST_ID_SEPARATOR as [| a sep] eqn:Hsep; [| eauto].
  intros Hocc. exfalso.
  pose proof (occurrences_app_r Ascii.eqb "" part.1 ("" +:+ anchored part.2)) as Hge.
  unfold testIdOf in Hocc. rewrite Hsep in Hocc. rewrite Hocc in Hge.
  rewrite append_nil, occurrences_empty in Hge. unfold anchored in Hge.
  simpl in Hge. lia.
Qed.

Lemma split_testIdOf part :
  occurrences Ascii.eqb TEST_ID_SEPARATOR (testIdOf part) = 1%nat →
  split (testIdOf part) TEST_ID_SEPARATOR = [part.1; anchored part.2].
Proof.
  intros Hocc. destruct (separator_nonempty part Hocc) as (a & sep & Hsep).
  unfold testIdOf in *. rewrite Hsep in *. apply split_once. exact Hocc.
Qed.

Lemma split_testIdOf_all (parts : list (string * string)) :
  Forall (λ part, occurrences Ascii.eqb TEST_ID_SEPARATOR (testIdOf part) = 1%nat) parts →
  (λ t, split t TEST_ID_SEPARATOR !! 0%nat) <$> (testIdOf <$> parts) = Some <$> parts.*1 ∧
  (λ t, split t TEST_ID_SEPARATOR !! 1%nat) <$> (testIdOf <$> parts)
    = Some <$> (anchored <$> parts.*2).
Proof.
  induction 1 as [| part parts Hpart _ [IH0 IH1]]; [done |].
  rewrite !fmap_cons, IH0, IH1, (split_testIdOf part Hpart). done.
Qed.

(** The branch taken for a selection of test identifiers. *)
Lemma mapTestIdsToTestFilter_names tests0 rest :
  tests0 ≠ "root" → includes tests0 TEST_ID_SEPARATOR = true →
  mapTestIdsToTestFilter (tests0 :: rest)
    = Normal (Some
        {| testFileNamePattern :=
             "(" +:+ join ((λ t, split t TEST_ID_SEPARATOR !! 0%nat) <$> tests0 :: rest)
                          "|" +:+ ")";
           testNamePattern :=
             Some ("(" +:+ join ((λ t, split t TEST_ID_SEPARATOR !! 1%nat) <$> tests0 :: rest)
                                "|" +:+ ")") |}).
Proof.
  intros Hroot Hincl. unfold mapTestIdsToTestFilter.
  rewrite decide_False by exact Hroot. rewrite Hincl. reflexivity.
Qed.

Lemma mapTestIdsToTestFilter_parts (parts : list (string * string)) :
  parts ≠ [] →
  Forall (λ part, occurrences Ascii.eqb TEST_ID_SEPARATOR (testIdOf part) = 1%nat) parts →
  mapTestIdsToTestFilter (testIdOf <$> parts) = Normal (Some (filterOfParts parts)).
Proof.
  intros Hne Hparts. destruct (split_testIdOf_all parts Hparts) as [Hfiles Hnames].
  destruct parts as [| part parts]; [done |].
  rewrite (fmap_cons testIdOf) in *.
  rewrite mapTestIdsToTestFilter_names.
  - rewrite Hfiles, Hnames, !join_Some_concat. reflexivity.
  - apply testIdOf_not_root.
  - apply occurs_occurrences. apply Forall_cons in Hparts as [-> _]. lia.
Qed.

End FilterFacts.
End FilterFacts.

(** *** The Status Resolver *)

Module StatusFacts.
Section StatusFacts.
Context `{MapperImports}.
Import Mapper.

Lemma list_find_first_titled title records :
  snd <$> list_find (λ x, tas_title x = title) records = first_titled title records.
Proof.
  induction records as [| r records IH]; [reflexivity |].
  simpl. case_decide as Htitle.
  - apply String.eqb_eq in Htitle. rewrite Htitle. reflexivity.
  - apply String.eqb_neq in Htitle. rewrite Htitle, <- IH.
    destruct (list_find _ records) as [[] |]; reflexivity.
Qed.

Lemma getAssertionStatus_resolved result file reconciler :
  getAssertionStatus result file reconciler
    = resolvedStatus reconciler file (jar_fullName result).
Proof.
  destruct reconciler as [r |]; [| reflexivity].
  unfold getAssertionStatus, resolvedStatus.
  rewrite list_find_first_titled.
  destruct (assertionsForTestFile r file); reflexivity.
Qed.

Lemma first_titled_None title records :
  first_titled title records = None ↔ Forall (λ r, tas_title r ≠ title) records.
Proof.
  induction records as [| r records IH]; [by split |].
  simpl. rewrite Forall_cons. destruct (String.eqb_spec (tas_title r) title).
  - split; [discriminate | intros []; done].
  - rewrite IH. tauto.
Qed.

Lemma first_titled_Some title records st :
  first_titled title records = Some st → st ∈ records ∧ tas_title st = title.
Proof.
  induction records as [| r records IH]; [discriminate |].
  simpl. destruct (String.eqb_spec (tas_title r) title).
  - intros [= ->]. split; [left | done].
  - intros [? ?]%IH. split; [right |]; done.
Qed.

Lemma mapJestAssertionToTestInfo_status this assertionResult fileResult reconciler :
  let node := mapJestAssertionToTestInfo this assertionResult fileResult reconciler in
  let status :=
    resolvedStatus reconciler (jfr_name fileResult) (jar_fullName assertionResult) in
  node_skipped node
    = Some (match status with
            | Some st => bool_decide (tas_status st = KnownSkip)
            | None => false
            end) ∧
  node_line node = status ≫= tas_line.
Proof.
  intros node status. subst node status.
  unfold mapJestAssertionToTestInfo. rewrite getAssertionStatus_resolved.
  destruct (resolvedStatus _ _ _); done.
Qed.

(** The decorations: one for a resolved status, none otherwise. *)
Lemma mapJestAssertionToTestDecorations_resolved result file reconciler :
  mapJestAssertionToTestDecorations result file reconciler
    = match resolvedStatus reconciler file (jar_fullName result) with
      | Some st => [ {| td_line := default 0%Z (tas_line st);
                        td_message := truthy_or (tas_terseMessage st) "" |} ]
      | None => []
      end.
Proof.
  unfold mapJestAssertionToTestDecorations. rewrite getAssertionStatus_resolved.
  reflexivity.
Qed.

End StatusFacts.
End StatusFacts.

(** *** The declaration mapper *)

Module ParseFacts.
Section ParseFacts.
Context `{MapperImports}.
Import Mapper MapperFacts MergerTests.

Lemma parseResultTree_no_blocks this testFile :
  itBlocks testFile = [] → parseResultTree this testFile = None.
Proof. intros Hnone. unfold parseResultTree. rewrite Hnone. reflexivity. Qed.

Lemma omap_skip {A B} (f : A → option B) pre x post :
  f x = None → omap f (pre ++ x :: post) = omap f (pre ++ post).
Proof. intros Hx. rewrite !omap_app. simpl. rewrite Hx. reflexivity. Qed.

Lemma itBlockTestInfo_label this itBlock :
  node_label (itBlockTestInfo this itBlock)
    = truthy_or (it_name itBlock) "test has no name".
Proof. reflexivity. Qed.

Lemma parseResultTree_tests this testFile tree :
  parseResultTree this testFile = Some tree →
  tests_of tree = itBlockTestInfo this <$> itBlocks testFile.
Proof.
  unfold parseResultTree.
  destruct (last _) as [[| c f] |]; [discriminate | | discriminate].
  intros [= <-]. rewrite transformFileResultIntoTree_tests.
  unfold forest_tests. induction (itBlocks testFile) as [| b bs IH]; [reflexivity |].
  simpl. f_equal. exact IH.
Qed.

Lemma mapJestParseToTestSuiteInfo_tests this loadedTests testFile tree itBlock :
  testFile ∈ loadedTests →
  parseResultTree this testFile = Some tree →
  itBlock ∈ itBlocks testFile →
  itBlockTestInfo this itBlock ∈ tests_of (mapJestParseToTestSuiteInfo this loadedTests).
Proof.
  intros Hfile Htree Hblock. unfold mapJestParseToTestSuiteInfo.
  change (tests_of (TestSuiteInfo ?i ?l ?f ?ln ?cs)) with (forest_tests cs).
  apply merge_keeps_tests. right. apply elem_of_forest_tests.
  exists tree. split.
  - apply list_elem_of_omap. eauto.
  - rewrite (parseResultTree_tests _ _ _ Htree). apply list_elem_of_fmap_2. exact Hblock.
Qed.

End ParseFacts.
End ParseFacts.

(** ** Properties of the loader *)

Module LoaderFacts.
Section LoaderFacts.
Context `{LoaderImports}.
Import Loader.

#[local] Arguments mm_any : simpl never.

Lemma Promise_all_rejected {A} (ps : list (Promise A)) :
  Rejected ∈ ps → Promise_all ps = Rejected.
Proof.
  induction ps as [| p ps IH]; [by intros ?%elem_of_nil |].
  intros [<- | Hin]%elem_of_cons; [reflexivity |].
  simpl. rewrite (IH Hin). destruct p; reflexivity.
Qed.

(** The promises [exploreDirectory] waits for, as [evalueFilePath] makes
    them from the listing. *)
Lemma contents_promises (evalue : string → FsEntry → Promise (option TreeNode))
  directory files :
  omap (λ f, if mm_any (entry_name f) IGNORE_GLOBS then None
             else Some (evalue (path_join [directory; entry_name f]) f)) files
    = (λ x, evalue x.1 x.2)
        <$> ((λ f, (path_join [directory; entry_name f], f)) <$> mm_not files IGNORE_GLOBS).
Proof.
  unfold mm_not. induction files as [| f files IH]; [reflexivity |].
  rewrite filter_cons.
  destruct (mm_any (entry_name f) IGNORE_GLOBS) eqn:Hignored.
  - rewrite decide_False by done. rewrite <- IH.
    simpl. rewrite Hignored. reflexivity.
  - rewrite decide_True by done. rewrite !fmap_cons, <- IH.
    simpl. rewrite Hignored. reflexivity.
Qed.

Lemma evalueFilePath_directory matcher filePath name listing :
  evalueFilePath matcher filePath (FsDirectory name listing)
    = (testSuite ←await exploreDirectory filePath matcher listing;
       Resolved (if decide (0 < length (suite_children testSuite))%nat
                 then Some testSuite else None)).
Proof.
  simpl. unfold exploreDirectory, getDirectoryContents.
  destruct listing as [files |]; [| reflexivity].
  rewrite contents_promises. reflexivity.
Qed.

Lemma exploreDirectory_unreadable directory matcher :
  exploreDirectory directory matcher None = Rejected.
Proof. reflexivity. Qed.

Lemma exploreDirectory_child_rejected directory matcher files f :
  f ∈ files →
  mm_any (entry_name f) IGNORE_GLOBS = false →
  evalueFilePath matcher (path_join [directory; entry_name f]) f = Rejected →
  exploreDirectory directory matcher (Some files) = Rejected.
Proof.
  intros Hin Hkept Hrejected.
  assert (Hall :
    Promise_all ((λ x, evalueFilePath matcher x.1 x.2)
                   <$> ((λ f, (path_join [directory; entry_name f], f))
                          <$> mm_not files IGNORE_GLOBS)) = Rejected).
  { apply Promise_all_rejected. rewrite <- Hrejected.
    apply list_elem_of_fmap.
    exists (path_join [directory; entry_name f], f). split; [reflexivity |].
    apply list_elem_of_fmap. exists f. split; [reflexivity |].
    unfold mm_not. apply list_elem_of_filter. done. }
  unfold exploreDirectory, getDirectoryContents, await. cbv beta iota.
  rewrite Hall. reflexivity.
Qed.

(** A failure below an entry rejects its evaluation: nothing catches it. *)
Lemma fails_below_rejected matcher kind filePath entry :
  fails_below matcher kind filePath entry →
  evalueFilePath matcher filePath entry = Rejected.
Proof.
  induction 1 as [p n | p n | p n Hmatch | kind p n files f Hin Hkept _ IH].
  - reflexivity.
  - reflexivity.
  - simpl. rewrite Hmatch. reflexivity.
  - rewrite evalueFilePath_directory.
    rewrite (exploreDirectory_child_rejected p matcher files f Hin Hkept IH).
    reflexivity.
Qed.

Lemma loadTests_rejected rootPath settings listing :
  exploreDirectory rootPath (createMatcher settings) listing = Rejected →
  loadTests rootPath settings listing = ([TestLoadStartedEvent], Rejected).
Proof. intros Hrejected. unfold loadTests. rewrite Hrejected. reflexivity. Qed.

Lemma loadTests_resolved rootPath settings listing testSuite :
  exploreDirectory rootPath (createMatcher settings) listing = Resolved testSuite →
  loadTests rootPath settings listing
    = ([TestLoadStartedEvent;
        TestLoadFinishedEvent
          (TestSuiteInfo "root" "Jest" None None (suite_children testSuite))],
       Resolved ()).
Proof. intros Hresolved. unfold loadTests. rewrite Hresolved. reflexivity. Qed.

Lemma exploreDirectory_fails matcher kind directory name listing :
  fails_below matcher kind directory (FsDirectory name listing) →
  exploreDirectory directory matcher listing = Rejected.
Proof.
  intros Hfails%fails_below_rejected. rewrite evalueFilePath_directory in Hfails.
  destruct (exploreDirectory directory matcher listing); [discriminate | reflexivity].
Qed.

(** *** The identifiers the loader gives *)

Lemma exploreDirectory_id directory matcher listing testSuite :
  exploreDirectory directory matcher listing = Resolved testSuite →
  node_id testSuite = directory.
Proof.
  unfold exploreDirectory. destruct (getDirectoryContents _ _); [| discriminate].
  simpl. destruct (Promise_all _); [| discriminate]. simpl. intros [= <-]. reflexivity.
Qed.

Lemma exploreFile_id file parsed testSuite :
  exploreFile file parsed = Resolved testSuite → node_id testSuite = file.
Proof.
  unfold exploreFile. destruct parsed as [[] |]; [| discriminate].
  intros [= <-]. reflexivity.
Qed.


End LoaderFacts.
End LoaderFacts.

(** ** The code on the specification's examples *)

Module Examples.
Import Mapper Loader.

(** Path folding: three nested suites, each with the path up to it. *)
Example path_folding :
  transformFileResultIntoTree {| workDir := "/root" |} "/root/src/foo/bar.test.ts"
    [xTest 1; xTest 2]
  = TestSuiteInfo "/src" "src" None None
      [TestSuiteInfo "/src/foo" "foo" None None
         [TestSuiteInfo "/src/foo/bar.test.ts" "bar.test.ts"
            (Some "/root/src/foo/bar.test.ts") None [xTest 1; xTest 2]]].
Proof. reflexivity. Qed.

(** Grouping: one suite [Math] with the suites [Addition] and [Subtraction],
    a test in each. *)
Example grouping :
  mapJestFileResultToTestSuiteInfo (H := exampleImports) {| workDir := "/root" |} mathFile
  = Normal
      (TestSuiteInfo "/math.test.ts" "math.test.ts" (Some "/root/math.test.ts") None
         [TestSuiteInfo "/math.test.ts#^Math$" "Math" (Some "/root/math.test.ts") None
            [TestSuiteInfo "/math.test.ts#^Math Addition$" "Addition"
               (Some "/root/math.test.ts") None
               [TestInfo "/math.test.ts#^Math Addition adds$" "adds"
                  (Some "/root/math.test.ts") None (Some false)];
             TestSuiteInfo "/math.test.ts#^Math Subtraction$" "Subtraction"
               (Some "/root/math.test.ts") None
               [TestInfo "/math.test.ts#^Math Subtraction subtracts$" "subtracts"
                  (Some "/root/math.test.ts") None (Some false)]]]).
Proof. reflexivity. Qed.

(** Status: the skipped test takes the flag and the line of its status;
    without a source, and for a test without a record, nothing resolves. *)
Example status_resolved :
  mapJestAssertionToTestInfo (H := exampleImports) {| workDir := "/root" |}
    {| jar_title := "adds"; jar_fullName := "Math Addition adds";
       jar_ancestorTitles := Some ["Math"; "Addition"] |}
    mathFile (Some skippedAdds)
  = TestInfo "/math.test.ts#^Math Addition adds$" "adds" (Some "/root/math.test.ts")
             (Some 7%Z) (Some true).
Proof. reflexivity. Qed.

Example status_unresolved :
  mapJestAssertionToTestInfo (H := exampleImports) {| workDir := "/root" |}
    {| jar_title := "subtracts"; jar_fullName := "Math Subtraction subtracts";
       jar_ancestorTitles := Some ["Math"; "Subtraction"] |}
    mathFile (Some skippedAdds)
  = TestInfo "/math.test.ts#^Math Subtraction subtracts$" "subtracts"
             (Some "/root/math.test.ts") None (Some false).
Proof. reflexivity. Qed.

(** Directory pruning: a file that does not match and an empty directory
    leave no child, and [node_modules] is not looked into. *)
Example directory_pruning :
  loadTests (H := posixImports) "/root" everyFile
    (Some [FsFile "readme.md" None; FsDirectory "empty" (Some []);
           FsDirectory "node_modules" None])
  = ([TestLoadStartedEvent;
      TestLoadFinishedEvent (TestSuiteInfo "root" "Jest" None None [])],
     Resolved ()).
Proof. reflexivity. Qed.

End Examples.

(** ** The claims of the specification *)

(** *** Tree Merger *)

(** C1 (as amended).  A source entry with the identifier of a test node of
    the destination is not dropped.  When the first destination entry with
    some identifier is a test node, then after the merge that node is still
    at its place, unchanged, and every source entry with its identifier has
    been pushed onto the destination: the number of entries with the
    identifier is the number in the destination plus the number in the
    source. *)
Theorem C1_test_kept_and_entries_appended (destination source : list TreeNode)
  (i : nat) (t : TreeNode) :
  list_find (λ r, node_id r = node_id t) destination = Some (i, t) →
  is_test t = true →
  Mapper.merge destination source !! i = Some t ∧
  count_id (node_id t) (Mapper.merge destination source)
    = (count_id (node_id t) destination + count_id (node_id t) source)%nat.
Proof.
  intros Hfind Htest.
  destruct (MergerInvariants.merge_first_test source destination i t Hfind Htest)
    as [Hfind' Hcount].
  split; [| exact Hcount].
  apply list_find_Some in Hfind' as [Hi _]. exact Hi.
Qed.

Lemma C1_witness :
  list_find (λ r, node_id r = node_id (xTest 1)) [xTest 1] = Some (0%nat, xTest 1) ∧
  is_test (xTest 1) = true ∧
  Mapper.merge [xTest 1] [xTest 2] !! 0%nat = Some (xTest 1) ∧
  count_id (node_id (xTest 1)) (Mapper.merge [xTest 1] [xTest 2]) = 2%nat.
Proof.
  split; [reflexivity |]. split; [reflexivity |].
  apply (C1_test_kept_and_entries_appended [xTest 1] [xTest 2] 0 (xTest 1)); reflexivity.
Defined.

(** The destination of the specification's example holds two nodes with the
    identifier after the merge, the second with line 2. *)
Lemma C1_counterexample : ¬ leaf_wins_first [xTest 1] [xTest 2].
Proof.
  intros Hclaim.
  destruct (Hclaim (xTest 2) (xTest 1)) as [_ Hcount];
    [left | left | reflexivity | reflexivity |].
  vm_compute in Hcount. discriminate.
Qed.

(** C4 (as amended).  For a sibling sequence whose identifiers are distinct
    at every level, merging it with a copy of itself keeps every node at its
    place and pushes, at every level, a second copy of each test node of
    that level; so the result is the original exactly when the sequence
    holds no test node. *)
Theorem C4_merge_with_itself (xs : list TreeNode) :
  unique_sibling_ids xs = true →
  Mapper.merge xs xs = duplicateTests xs ∧
  (Mapper.merge xs xs = xs ↔ forallb suites_only xs = true).
Proof.
  intros Hunique. pose proof (MergerSelf.merge_self xs Hunique) as Hmerge.
  split; [exact Hmerge |]. rewrite Hmerge. apply MergerSelf.duplicateTests_fixed.
Qed.

Lemma C4_witness :
  unique_sibling_ids [xFile [xTest 1]] = true ∧
  Mapper.merge [xFile [xTest 1]] [xFile [xTest 1]] = [xFile [xTest 1; xTest 1]].
Proof.
  split; [reflexivity |].
  exact (proj1 (C4_merge_with_itself [xFile [xTest 1]] eq_refl)).
Defined.

(** The one test of a file is there twice after the file's tree is merged
    with itself. *)
Lemma C4_counterexample :
  Mapper.merge [xFile [xTest 1]] [xFile [xTest 1]] ≠ [xFile [xTest 1]].
Proof. vm_compute. discriminate. Qed.

(** *** Filter Translator *)

Section FilterClaims.
Context `{MapperImports}.
Import Mapper.

(** C5 (the code at the failing input).  On the empty identifier list
    [mapTestIdsToTestFilter] throws a [TypeError]: the first test guards
    [tests[0]] with [tests[0] &&], the next statement calls
    [tests[0].includes] on [undefined] without the guard.  On every other
    selection, mixed file and test identifiers included, it returns a
    value, as the claim says. *)
Theorem C5_empty_selection_throws :
  mapTestIdsToTestFilter [] = Throw TypeError ∧
  ∀ tests0 rest, ∃ v, mapTestIdsToTestFilter (tests0 :: rest) = Normal v.
Proof.
  split.
  - apply FilterFacts.mapTestIdsToTestFilter_empty.
  - apply FilterFacts.mapTestIdsToTestFilter_returns.
Qed.

(** C6 (as amended).  [mapTestIdsToTestFilter(["root"])] returns [null];
    and for every non-empty list of test identifiers in each of which the
    separator occurs exactly once, between the file-path part and the
    anchored test-name part, it returns as file-name pattern the
    alternation of the file-path parts and as test-name pattern the
    alternation of the anchored test-name parts. *)
Theorem C6_filter_of_test_identifiers (parts : list (string * string)) :
  parts ≠ [] →
  Forall (λ part, JsString.occurrences Ascii.eqb TEST_ID_SEPARATOR (testIdOf part) = 1%nat)
         parts →
  mapTestIdsToTestFilter ["root"] = Normal None ∧
  mapTestIdsToTestFilter (testIdOf <$> parts) = Normal (Some (filterOfParts parts)).
Proof.
  intros Hne Hparts. split.
  - apply FilterFacts.mapTestIdsToTestFilter_root.
  - apply FilterFacts.mapTestIdsToTestFilter_parts; assumption.
Qed.

End FilterClaims.

(** The specification's example: two tests [foo] and [bar] of
    [/a/b.test.ts]. *)
Lemma C6_witness :
  [("/a/b.test.ts", "foo"); ("/a/b.test.ts", "bar")] ≠ [] ∧
  Forall (λ part, JsString.occurrences Ascii.eqb "#" (testIdOf (H := exampleImports) part)
                  = 1%nat)
         [("/a/b.test.ts", "foo"); ("/a/b.test.ts", "bar")] ∧
  Mapper.mapTestIdsToTestFilter (H := exampleImports) ["root"] = Normal None ∧
  Mapper.mapTestIdsToTestFilter (H := exampleImports)
      ["/a/b.test.ts#^foo$"; "/a/b.test.ts#^bar$"]
    = Normal (Some {| testFileNamePattern := "(/a/b.test.ts|/a/b.test.ts)";
                      testNamePattern := Some "(^foo$|^bar$)" |}).
Proof.
  assert (Hparts :
    Forall (λ part, JsString.occurrences Ascii.eqb "#" (testIdOf (H := exampleImports) part)
                    = 1%nat)
           [("/a/b.test.ts", "foo"); ("/a/b.test.ts", "bar")]).
  { repeat constructor. }
  split; [discriminate |]. split; [exact Hparts |].
  apply (C6_filter_of_test_identifiers (H := exampleImports)
           [("/a/b.test.ts", "foo"); ("/a/b.test.ts", "bar")]);
    [discriminate | exact Hparts].
Defined.

(** A test whose title holds the separator: of the identifier
    [/a/b.test.ts#^a#b$] the name pattern keeps [^a] only. *)
Lemma C6_counterexample :
  ¬ filter_as_specified (H := exampleImports) [("/a/b.test.ts", "a#b")].
Proof. unfold filter_as_specified. vm_compute. discriminate. Qed.

(** *** Identifier Builder *)




(** *** Status Resolver *)

Section StatusClaims.
Context `{MapperImports}.
Import Mapper.

(** C8.  The status resolved for an assertion is the first record of the
    file, in the source given, whose title is the assertion's full title,
    and none when no source is given or no record has that title.  The
    test node has [skipped] true exactly when a status resolves and its
    kind is [KnownSkip], false otherwise; and its line is the line of the
    resolved status. *)
Theorem C8_skipped_and_line (this : JestToTestAdapterMapper)
  (assertionResult : JestAssertionResults) (fileResult : JestFileResults)
  (reconciler : option TestReconciler) :
  let status := getAssertionStatus assertionResult (jfr_name fileResult) reconciler in
  let node := mapJestAssertionToTestInfo this assertionResult fileResult reconciler in
  status = resolvedStatus reconciler (jfr_name fileResult) (jar_fullName assertionResult) ∧
  node_skipped node
    = Some (match status with
            | Some st => bool_decide (tas_status st = KnownSkip)
            | None => false
            end) ∧
  (node_skipped node = Some true ↔ ∃ st, status = Some st ∧ tas_status st = KnownSkip) ∧
  node_line node = status ≫= tas_line.
Proof.
  intros status node.
  pose proof (StatusFacts.getAssertionStatus_resolved
                assertionResult (jfr_name fileResult) reconciler) as Hresolved.
  destruct (StatusFacts.mapJestAssertionToTestInfo_status
              this assertionResult fileResult reconciler) as [Hskipped Hline].
  fold node in Hskipped, Hline. fold status in Hresolved.
  rewrite <- Hresolved in Hskipped, Hline.
  split_and!; [exact Hresolved | exact Hskipped | | exact Hline].
  rewrite Hskipped. destruct status as [st |].
  - split.
    + intros [= Hskip]. apply bool_decide_eq_true in Hskip. eauto.
    + intros (st' & [= <-] & Hskip). f_equal. apply bool_decide_eq_true. exact Hskip.
  - split; [discriminate | intros (? & ? & _); discriminate].
Qed.

End StatusClaims.

(** *** Declaration mapper *)

Section ParseClaims.
Context `{MapperImports}.
Import Mapper.

(** C10.  A parse result without [it] blocks adds nothing to the tree
    [mapJestParseToTestSuiteInfo] returns: the tree is the one returned
    without that parse result.  And of an [it] block whose name is empty or
    missing a test node with the label [test has no name] is made, which is
    in the tree returned when the parse result of the block is not left out
    (the last block of the parse result has a file name). *)
Theorem C10_empty_file_and_nameless_test (this : JestToTestAdapterMapper) :
  (∀ before testFile after,
     itBlocks testFile = [] →
     mapJestParseToTestSuiteInfo this (before ++ testFile :: after)
       = mapJestParseToTestSuiteInfo this (before ++ after)) ∧
  (∀ itBlock,
     it_name itBlock = None ∨ it_name itBlock = Some "" →
     is_test (itBlockTestInfo this itBlock) = true ∧
     node_label (itBlockTestInfo this itBlock) = "test has no name") ∧
  (∀ loadedTests testFile itBlock c f,
     testFile ∈ loadedTests →
     itBlock ∈ itBlocks testFile →
     last (it_file <$> itBlocks testFile) = Some (String c f) →
     it_name itBlock = None ∨ it_name itBlock = Some "" →
     ∃ t, t ∈ tests_of (mapJestParseToTestSuiteInfo this loadedTests) ∧
          t = itBlockTestInfo this itBlock ∧
          node_label t = "test has no name").
Proof.
  split; [| split].
  - intros before testFile after Hnone. unfold mapJestParseToTestSuiteInfo.
    rewrite (ParseFacts.omap_skip _ _ _ _ (ParseFacts.parseResultTree_no_blocks _ _ Hnone)).
    reflexivity.
  - intros itBlock Hname. split; [reflexivity |].
    rewrite ParseFacts.itBlockTestInfo_label. destruct Hname as [-> | ->]; reflexivity.
  - intros loadedTests testFile itBlock c f Hfile Hblock Hlast Hname.
    exists (itBlockTestInfo this itBlock). split_and!; [| reflexivity |].
    + eapply ParseFacts.mapJestParseToTestSuiteInfo_tests; [exact Hfile | | exact Hblock].
      unfold parseResultTree. rewrite Hlast. reflexivity.
    + rewrite ParseFacts.itBlockTestInfo_label. destruct Hname as [-> | ->]; reflexivity.
Qed.

End ParseClaims.

Lemma C10_witness :
  Mapper.mapJestParseToTestSuiteInfo (H := exampleImports) {| workDir := "/root" |}
      [{| itBlocks := [] |}; {| itBlocks := [namelessBlock] |}]
    = Mapper.mapJestParseToTestSuiteInfo (H := exampleImports) {| workDir := "/root" |}
        [{| itBlocks := [namelessBlock] |}] ∧
  ∃ t, t ∈ tests_of (Mapper.mapJestParseToTestSuiteInfo (H := exampleImports)
                       {| workDir := "/root" |} [{| itBlocks := [namelessBlock] |}]) ∧
       t = TestInfo "/src/a.test.ts#^test has no name$" "test has no name"
                    (Some "/root/src/a.test.ts") (Some 3) (Some false) ∧
       node_label t = "test has no name".
Proof.
  destruct (C10_empty_file_and_nameless_test (H := exampleImports) {| workDir := "/root" |})
    as (Hempty & _ & Hnameless).
  split.
  - apply (Hempty [] {| itBlocks := [] |} [{| itBlocks := [namelessBlock] |}]). reflexivity.
  - apply (Hnameless [{| itBlocks := [namelessBlock] |}] {| itBlocks := [namelessBlock] |}
             namelessBlock "/"%char "root/src/a.test.ts").
    + left.
    + left.
    + reflexivity.
    + left. reflexivity.
Defined.

(** *** Directory Explorer and load lifecycle *)

Section LoaderClaims.
Context `{LoaderImports}.
Import Loader.

(** C2 (as amended).  When the exploration meets an I/O error (the root
    directory or a directory below it that is not ignored cannot be
    listed, or an entry cannot be examined), the promise of [loadTests] is
    rejected and the started event is the only event fired: no finished
    event follows it. *)
Theorem C2_io_failure_rejects_without_finished (rootPath : string)
  (settings : JestSettings) (name : string) (listing : option (list FsEntry)) :
  fails_below (createMatcher settings) IoFailure rootPath (FsDirectory name listing) →
  loadTests rootPath settings listing = ([TestLoadStartedEvent], Rejected).
Proof.
  intros Hfails. apply LoaderFacts.loadTests_rejected.
  eapply LoaderFacts.exploreDirectory_fails. exact Hfails.
Qed.

(** C3 (as amended).  When [parse] throws for one matched file in a place
    that is not ignored, the whole exploration is rejected: no tree is
    returned for the other files and directories. *)
Theorem C3_parse_failure_rejects_exploration (directory : string) (matcher : Matcher)
  (name : string) (listing : option (list FsEntry)) :
  fails_below matcher ParseFailure directory (FsDirectory name listing) →
  exploreDirectory directory matcher listing = Rejected.
Proof. apply LoaderFacts.exploreDirectory_fails. Qed.

End LoaderClaims.

Lemma C2_witness :
  fails_below (H := posixImports) (Loader.createMatcher (H := posixImports) everyFile)
    IoFailure "/root" (FsDirectory "root" (Some [FsDirectory "src" (Some [addsFile]);
                                                 FsDirectory "lib" None])) ∧
  Loader.loadTests (H := posixImports) "/root" everyFile
      (Some [FsDirectory "src" (Some [addsFile]); FsDirectory "lib" None])
    = ([TestLoadStartedEvent], Rejected).
Proof.
  assert (Hfails :
    fails_below (H := posixImports) (Loader.createMatcher (H := posixImports) everyFile)
      IoFailure "/root" (FsDirectory "root" (Some [FsDirectory "src" (Some [addsFile]);
                                                   FsDirectory "lib" None]))).
  { apply (fails_inside _ _ _ _ _ (FsDirectory "lib" None)).
    - right. left.
    - reflexivity.
    - apply fails_readdir. }
  split; [exact Hfails |].
  apply (C2_io_failure_rejects_without_finished (H := posixImports)
           "/root" everyFile "root" _ Hfails).
Defined.

(** The root directory cannot be listed: the promise is rejected and the
    started event stays alone. *)
Lemma C2_counterexample :
  ¬ finished_after_failure (H := posixImports) "/root" everyFile None.
Proof.
  intros [_ Hfinished]. simpl in Hfinished.
  apply Exists_cons in Hfinished as [Hstarted | Hnone]; [discriminate |].
  apply Exists_nil in Hnone. exact Hnone.
Qed.

Lemma C3_witness :
  fails_below (H := posixImports) (Loader.createMatcher (H := posixImports) everyFile)
    ParseFailure "/root" (FsDirectory "root" (Some [brokenFile; addsFile])) ∧
  Loader.exploreDirectory (H := posixImports) "/root"
      (Loader.createMatcher (H := posixImports) everyFile) (Some [brokenFile; addsFile])
    = Rejected.
Proof.
  assert (Hfails :
    fails_below (H := posixImports) (Loader.createMatcher (H := posixImports) everyFile)
      ParseFailure "/root" (FsDirectory "root" (Some [brokenFile; addsFile]))).
  { apply (fails_inside _ _ _ _ _ brokenFile).
    - left.
    - reflexivity.
    - apply fails_parse. reflexivity. }
  split; [exact Hfails |].
  apply (C3_parse_failure_rejects_exploration (H := posixImports) "/root" _ "root" _ Hfails).
Defined.

(** Next to [a.test.js] with its test, the file [b.test.js] on which
    [parse] throws: the exploration is rejected, while without it the tree of
    [a.test.js] is returned. *)
Lemma C3_counterexample :
  ¬ unparsable_file_skipped (H := posixImports) "/root"
      (Loader.createMatcher (H := posixImports) everyFile) [] "b.test.js" [addsFile].
Proof. unfold unparsable_file_skipped. vm_compute. discriminate. Qed.

(** *** Identifiers *)

Section IdentifierClaims.
Context `{MapperImports} `{LoaderImports}.
Import Mapper Loader.


End IdentifierClaims.



(** ** Lemmas for the further properties *)

Module MergerShape.
Import Mapper MergerFacts.

Lemma mergeEntry_cases dest s :
  mergeEntry dest s = dest ++ [s] ∨
  ∃ i ei el ef eln ecs sl sf sln scs,
    s = TestSuiteInfo ei sl sf sln scs ∧
    list_find (λ r, node_id r = ei) dest = Some (i, TestSuiteInfo ei el ef eln ecs) ∧
    mergeEntry dest s = <[i := TestSuiteInfo ei el ef eln (merge ecs scs)]> dest.
Proof.
  destruct (list_find (λ r, node_id r = node_id s) dest) as [[j e] |] eqn:Hfind;
    [| left; by apply mergeEntry_absent].
  destruct e as [| ei el ef eln ecs]; [left; by eapply mergeEntry_onto_test |].
  destruct s as [| si sl sf sln scs]; [left; by apply mergeEntry_test |].
  right. simpl in Hfind.
  pose proof Hfind as (_ & Hid & _)%list_find_Some. simpl in Hid. subst si.
  exists j, ei, el, ef, eln, ecs, sl, sf, sln, scs.
  split; [reflexivity |]. split; [exact Hfind |].
  by apply mergeEntry_suites.
Qed.

Lemma forest_tests_app xs ys : forest_tests (xs ++ ys) = forest_tests xs ++ forest_tests ys.
Proof. unfold forest_tests. rewrite fmap_app. apply join_app. Qed.

Lemma forest_tests_cons x xs : forest_tests (x :: xs) = tests_of x ++ forest_tests xs.
Proof. reflexivity. Qed.

Lemma forest_tests_insert xs i old new extra :
  xs !! i = Some old →
  tests_of new ≡ₚ tests_of old ++ extra →
  forest_tests (<[i := new]> xs) ≡ₚ forest_tests xs ++ extra.
Proof.
  intros Hi Hnew.
  rewrite insert_take_drop by (eapply lookup_lt_Some; exact Hi).
  rewrite <- (take_drop_middle xs i old Hi) at 3.
  rewrite !forest_tests_app, !forest_tests_cons, Hnew.
  rewrite <- !app_assoc. f_equiv. f_equiv. apply Permutation_app_comm.
Qed.

Lemma merge_tests_if src :
  Forall (λ s, ∀ dest, forest_tests (mergeEntry dest s) ≡ₚ forest_tests dest ++ tests_of s) src →
  ∀ dest, forest_tests (merge dest src) ≡ₚ forest_tests dest ++ forest_tests src.
Proof.
  induction 1 as [| s src Hs _ IH]; intros dest.
  - rewrite merge_nil. unfold forest_tests at 3. simpl. by rewrite app_nil_r.
  - rewrite merge_cons, IH, Hs, forest_tests_cons, <- app_assoc. reflexivity.
Qed.

Lemma mergeEntry_tests s :
  ∀ dest, forest_tests (mergeEntry dest s) ≡ₚ forest_tests dest ++ tests_of s.
Proof.
  induction s as [| si sl sf sln scs IH] using TreeNode_ind; intros dest.
  { rewrite mergeEntry_test by reflexivity. rewrite forest_tests_app.
    unfold forest_tests at 2. simpl. reflexivity. }
  destruct (mergeEntry_cases dest (TestSuiteInfo si sl sf sln scs))
    as [-> | (i & ei & el & ef & eln & ecs & sl' & sf' & sln' & scs' & [= -> <- <- <- <-]
              & Hfind & ->)].
  { rewrite forest_tests_app. unfold forest_tests at 2. simpl. by rewrite app_nil_r. }
  apply list_find_Some in Hfind as (Hi & _ & _).
  eapply forest_tests_insert; [exact Hi |].
  change (tests_of (TestSuiteInfo ?i ?l ?f ?ln ?cs)) with (forest_tests cs).
  apply (merge_tests_if scs IH).
Qed.

Lemma merge_tests dest src :
  forest_tests (merge dest src) ≡ₚ forest_tests dest ++ forest_tests src.
Proof.
  apply merge_tests_if. apply Forall_forall. intros s _. apply mergeEntry_tests.
Qed.

(** [same_entry] is a preorder. *)
Lemma same_entry_refl n : same_entry n n.
Proof. destruct n; simpl; auto. Qed.

Lemma same_entry_trans a b c : same_entry a b → same_entry b c → same_entry a c.
Proof.
  destruct a, b, c; simpl; try done; try congruence.
  intros (-> & -> & -> & ->) (-> & -> & -> & ->). done.
Qed.

Lemma same_entry_all_refl xs : Forall2 same_entry xs xs.
Proof. apply Forall_Forall2_diag, Forall_forall. intros. apply same_entry_refl. Qed.

Lemma same_entry_insert xs i old new :
  xs !! i = Some old → same_entry old new → Forall2 same_entry xs (<[i := new]> xs).
Proof.
  intros Hi Hsame.
  rewrite insert_take_drop by (eapply lookup_lt_Some; exact Hi).
  rewrite <- (take_drop_middle xs i old Hi) at 1.
  apply Forall2_app; [apply same_entry_all_refl |].
  constructor; [exact Hsame | apply same_entry_all_refl].
Qed.

Lemma mergeEntry_shape dest s :
  mergeEntry dest s = dest ++ [s] ∨
  (Forall2 same_entry dest (mergeEntry dest s) ∧ node_id s ∈ node_id <$> dest).
Proof.
  destruct (mergeEntry_cases dest s)
    as [-> | (i & ei & el & ef & eln & ecs & sl & sf & sln & scs & -> & Hfind & ->)];
    [by left | right].
  apply list_find_Some in Hfind as (Hi & _ & _). split.
  - eapply same_entry_insert; [exact Hi |]. simpl. done.
  - simpl. apply list_elem_of_fmap. eexists. split; [| eapply list_elem_of_lookup_2, Hi].
    reflexivity.
Qed.

Lemma merge_shape src : ∀ dest,
  ∃ kept, kept `sublist_of` src ∧ Forall2 same_entry (dest ++ kept) (merge dest src).
Proof.
  induction src as [| s src IH]; intros dest.
  { exists []. rewrite merge_nil, app_nil_r. split; [constructor | apply same_entry_all_refl]. }
  rewrite merge_cons.
  destruct (IH (mergeEntry dest s)) as (kept & Hsub & Hall).
  destruct (mergeEntry_shape dest s) as [Hpush | [Hsame _]].
  - exists (s :: kept). split; [by constructor |].
    rewrite Hpush in *. rewrite <- app_assoc in Hall. exact Hall.
  - exists kept. split; [by constructor |].
    assert (Hfirst : Forall2 same_entry (dest ++ kept) (mergeEntry dest s ++ kept)).
    { apply Forall2_app; [exact Hsame | apply same_entry_all_refl]. }
    clear -Hfirst Hall.
    revert Hall. generalize (merge (mergeEntry dest s) src).
    induction Hfirst as [| a b l1 l2 Hab _ IH]; intros l3 Hall.
    + exact Hall.
    + inversion Hall as [| ? c ? l3' Hbc Hrest]; subst.
      constructor; [eapply same_entry_trans; eauto | apply IH; exact Hrest].
Qed.

Lemma same_entry_ids xs ys : Forall2 same_entry xs ys → node_id <$> ys = node_id <$> xs.
Proof.
  induction 1 as [| x y xs ys Hxy _ IH]; [reflexivity |].
  rewrite !fmap_cons, IH. f_equal.
  destruct x, y; simpl in Hxy; try done; try (by inversion Hxy); by destruct Hxy as (-> & _).
Qed.

Lemma mergeEntry_ids dest s x :
  x ∈ node_id <$> mergeEntry dest s ↔ x ∈ node_id <$> dest ∨ x = node_id s.
Proof.
  destruct (mergeEntry_shape dest s) as [-> | [Hsame Hin]].
  - rewrite fmap_app, elem_of_app. simpl. rewrite list_elem_of_singleton. reflexivity.
  - rewrite (same_entry_ids _ _ Hsame). split; [auto |]. intros [? | ->]; done.
Qed.

Lemma merge_ids src : ∀ dest x,
  x ∈ node_id <$> merge dest src ↔ x ∈ node_id <$> dest ∨ x ∈ node_id <$> src.
Proof.
  induction src as [| s src IH]; intros dest x.
  - rewrite merge_nil. simpl. rewrite elem_of_nil. tauto.
  - rewrite merge_cons, IH, mergeEntry_ids. simpl. rewrite elem_of_cons. tauto.
Qed.

Lemma merge_distinct src : ∀ dest,
  NoDup (node_id <$> (dest ++ src)) → merge dest src = dest ++ src.
Proof.
  induction src as [| s src IH]; intros dest Hnd.
  - rewrite merge_nil, app_nil_r. reflexivity.
  - rewrite merge_cons.
    assert (Habsent : list_find (λ r, node_id r = node_id s) dest = None).
    { apply list_find_None, Forall_forall. intros e He Heq.
      rewrite fmap_app in Hnd. apply NoDup_app in Hnd as (_ & Hdisjoint & _).
      apply (Hdisjoint (node_id e)); [by apply list_elem_of_fmap_2 |].
      rewrite Heq. simpl. left. }
    rewrite (mergeEntry_absent _ _ Habsent).
    rewrite IH; rewrite <- app_assoc; [reflexivity | exact Hnd].
Qed.

End MergerShape.

Module MergerUnique.
Import Mapper MergerFacts MergerShape.

Lemma submseteq_NoDup {A} (l k : list A) : l ⊆+ k → NoDup k → NoDup l.
Proof.
  intros (l' & Hperm & Hsub)%submseteq_sublist_r Hk.
  rewrite Hperm. eapply sublist_NoDup; eauto.
Qed.

Lemma forest_suite_ids_app xs ys :
  forest_suite_ids (xs ++ ys) = forest_suite_ids xs ++ forest_suite_ids ys.
Proof. unfold forest_suite_ids. rewrite fmap_app. apply join_app. Qed.

Lemma forest_suite_ids_cons x xs :
  forest_suite_ids (x :: xs) = suite_ids x ++ forest_suite_ids xs.
Proof. reflexivity. Qed.

Lemma forest_suite_ids_singleton x : forest_suite_ids [x] = suite_ids x.
Proof. unfold forest_suite_ids. simpl. apply app_nil_r. Qed.

Lemma forest_tests_singleton x : forest_tests [x] = tests_of x.
Proof. unfold forest_tests. simpl. apply app_nil_r. Qed.

Lemma elem_of_forest_suite_ids x xs :
  x ∈ forest_suite_ids xs ↔ ∃ n, n ∈ xs ∧ x ∈ suite_ids n.
Proof.
  unfold forest_suite_ids. rewrite list_elem_of_join. split.
  - intros (l & Hx & (n & -> & Hn)%list_elem_of_fmap). eauto.
  - intros (n & Hn & Hx). exists (suite_ids n). split; [exact Hx |].
    apply list_elem_of_fmap_2. exact Hn.
Qed.

Lemma distinct_tests_sub xs ys :
  forest_tests ys ⊆+ forest_tests xs →
  (∀ x, x ∈ forest_suite_ids ys → x ∈ forest_suite_ids xs) →
  distinct_tests xs → distinct_tests ys.
Proof.
  intros Htests Hsuites [Hnd Hclash]. split.
  - eapply submseteq_NoDup; [| exact Hnd]. by apply fmap_submseteq.
  - intros t Ht Hin. apply (Hclash t); [| by apply Hsuites].
    eapply elem_of_submseteq; eauto.
Qed.

(** The suites of a merged forest are suites of the two forests. *)
Lemma merge_suite_ids_if src :
  Forall (λ s, ∀ dest x, x ∈ forest_suite_ids (mergeEntry dest s) →
                         x ∈ forest_suite_ids dest ∨ x ∈ suite_ids s) src →
  ∀ dest x, x ∈ forest_suite_ids (merge dest src) →
            x ∈ forest_suite_ids dest ∨ x ∈ forest_suite_ids src.
Proof.
  induction 1 as [| s src Hs _ IH]; intros dest x Hx.
  - left. exact Hx.
  - rewrite merge_cons in Hx. rewrite forest_suite_ids_cons, elem_of_app.
    destruct (IH _ _ Hx) as [[? | ?]%Hs | ?]; auto.
Qed.

Lemma mergeEntry_suite_ids s :
  ∀ dest x, x ∈ forest_suite_ids (mergeEntry dest s) →
            x ∈ forest_suite_ids dest ∨ x ∈ suite_ids s.
Proof.
  induction s as [| si sl sf sln scs IH] using TreeNode_ind; intros dest x.
  { rewrite mergeEntry_test by reflexivity.
    rewrite forest_suite_ids_app, elem_of_app, forest_suite_ids_singleton. tauto. }
  destruct (mergeEntry_cases dest (TestSuiteInfo si sl sf sln scs))
    as [-> | (i & ei & el & ef & eln & ecs & sl' & sf' & sln' & scs' & [= -> <- <- <- <-]
              & Hfind & ->)].
  { rewrite forest_suite_ids_app, elem_of_app, forest_suite_ids_singleton. tauto. }
  apply list_find_Some in Hfind as (Hi & _ & _).
  rewrite !elem_of_forest_suite_ids. intros (n & Hn & Hx).
  apply list_elem_of_lookup_1 in Hn as [k Hk].
  destruct (decide (i = k)) as [-> | Hne].
  - rewrite list_lookup_insert_eq in Hk by (eapply lookup_lt_Some; exact Hi).
    injection Hk as <-. simpl in Hx. apply elem_of_cons in Hx as [-> | Hx].
    + right. simpl. left.
    + change (mjoin (suite_ids <$> ?cs)) with (forest_suite_ids cs) in Hx.
      destruct (merge_suite_ids_if scs IH _ _ Hx) as [Hold | Hnew].
      * left. eexists. split; [eapply list_elem_of_lookup_2, Hi |]. simpl. by right.
      * right. simpl. by right.
  - rewrite list_lookup_insert_ne in Hk by done.
    left. exists n. split; [eapply list_elem_of_lookup_2, Hk | exact Hx].
Qed.

Lemma merge_suite_ids dest src x :
  x ∈ forest_suite_ids (merge dest src) →
  x ∈ forest_suite_ids dest ∨ x ∈ forest_suite_ids src.
Proof.
  apply merge_suite_ids_if. apply Forall_forall. intros s _. apply mergeEntry_suite_ids.
Qed.

Lemma unique_sibling_ids_spec xs :
  unique_sibling_ids xs = true ↔
  NoDup (node_id <$> xs) ∧ Forall (λ n, unique_ids_below n = true) xs.
Proof.
  unfold unique_sibling_ids.
  rewrite andb_true_iff, bool_decide_eq_true, forallb_forall, Forall_forall.
  split; intros [? Hall]; (split; [done |]); intros n Hn; apply Hall.
  - by apply list_elem_of_In.
  - by apply list_elem_of_In.
Qed.

(** What is left of the hypotheses after one entry has been merged. *)
Lemma distinct_tests_step dest s rest :
  distinct_tests (dest ++ s :: rest) → distinct_tests (mergeEntry dest s ++ rest).
Proof.
  apply distinct_tests_sub.
  - rewrite !forest_tests_app, forest_tests_cons, mergeEntry_tests, <- app_assoc.
    reflexivity.
  - intros x. rewrite !forest_suite_ids_app, forest_suite_ids_cons, !elem_of_app.
    intros [[? | ?]%mergeEntry_suite_ids | ?]; auto.
Qed.

Lemma distinct_tests_head dest s rest :
  distinct_tests (dest ++ s :: rest) → distinct_tests (dest ++ [s]).
Proof.
  apply distinct_tests_sub.
  - rewrite !forest_tests_app. apply submseteq_skips_l.
    rewrite (forest_tests_cons s rest), forest_tests_singleton.
    by apply submseteq_inserts_r.
  - intros x. rewrite !forest_suite_ids_app, (forest_suite_ids_cons s rest),
      forest_suite_ids_singleton, !elem_of_app. tauto.
Qed.

(** The children of two suites that meet in a merge. *)
Lemma distinct_tests_children dest i ei el ef eln ecs si sl sf sln scs :
  dest !! i = Some (TestSuiteInfo ei el ef eln ecs) →
  distinct_tests (dest ++ [TestSuiteInfo si sl sf sln scs]) →
  distinct_tests (ecs ++ scs).
Proof.
  intros Hi. apply distinct_tests_sub.
  - rewrite !forest_tests_app. apply submseteq_app.
    + rewrite <- (take_drop_middle dest i _ Hi), forest_tests_app, forest_tests_cons.
      apply submseteq_middle.
    + by rewrite forest_tests_singleton.
  - intros x. rewrite !forest_suite_ids_app, forest_suite_ids_singleton, !elem_of_app.
    intros [Hx | Hx].
    + left. apply elem_of_forest_suite_ids. eexists.
      split; [eapply list_elem_of_lookup_2, Hi |]. simpl. by right.
    + right. simpl. by right.
Qed.

Lemma merge_unique_if src :
  Forall (λ s, ∀ dest, unique_sibling_ids dest = true → unique_ids_below s = true →
                       distinct_tests (dest ++ [s]) →
                       unique_sibling_ids (mergeEntry dest s) = true) src →
  ∀ dest, unique_sibling_ids dest = true →
          Forall (λ s, unique_ids_below s = true) src →
          distinct_tests (dest ++ src) →
          unique_sibling_ids (merge dest src) = true.
Proof.
  induction 1 as [| s src Hs _ IH]; intros dest Hdest Hsrc Hdistinct; [exact Hdest |].
  apply Forall_cons in Hsrc as [Hbelow Hsrc].
  rewrite merge_cons. apply IH; [| exact Hsrc | by apply distinct_tests_step].
  apply Hs; [exact Hdest | exact Hbelow |]. eapply distinct_tests_head, Hdistinct.
Qed.

Lemma test_in_forest t xs : t ∈ xs → is_test t = true → t ∈ forest_tests xs.
Proof.
  intros Hin Ht. apply MergerTests.elem_of_forest_tests. exists t. split; [exact Hin |].
  destruct t; [left | discriminate].
Qed.

Lemma suite_in_forest n xs : n ∈ xs → is_test n = false → node_id n ∈ forest_suite_ids xs.
Proof.
  intros Hin Hn. apply elem_of_forest_suite_ids. exists n. split; [exact Hin |].
  destruct n; [discriminate | left].
Qed.

(** In a forest with [distinct_tests], an entry of [dest] with the
    identifier of [s] is a suite, and so is [s]. *)
Lemma distinct_tests_meet dest s e :
  distinct_tests (dest ++ [s]) → e ∈ dest → node_id e = node_id s →
  is_test e = false ∧ is_test s = false.
Proof.
  intros [Hnd Hclash] He Hid.
  destruct (is_test e) eqn:Hte, (is_test s) eqn:Hts; [| | | done]; exfalso.
  - rewrite forest_tests_app, fmap_app in Hnd.
    apply NoDup_app in Hnd as (_ & Hdisjoint & _).
    apply (Hdisjoint (node_id e)).
    + apply list_elem_of_fmap_2. by apply test_in_forest.
    + rewrite Hid. apply list_elem_of_fmap_2. apply test_in_forest; [left | done].
  - apply (Hclash e).
    + apply test_in_forest; [| done]. apply elem_of_app. by left.
    + rewrite Hid. apply suite_in_forest; [| done]. apply elem_of_app. right. left.
  - apply (Hclash s).
    + apply test_in_forest; [| done]. apply elem_of_app. right. left.
    + rewrite <- Hid. apply suite_in_forest; [| done]. apply elem_of_app. by left.
Qed.

Lemma mergeEntry_unique s :
  ∀ dest, unique_sibling_ids dest = true → unique_ids_below s = true →
          distinct_tests (dest ++ [s]) →
          unique_sibling_ids (mergeEntry dest s) = true.
Proof.
  induction s as [si sl sf sln ssk | si sl sf sln scs IH] using TreeNode_ind;
    intros dest Hdest Hbelow Hdistinct.
  - rewrite mergeEntry_test by reflexivity.
    apply unique_sibling_ids_spec in Hdest as [Hnd Hall].
    apply unique_sibling_ids_spec. split.
    + rewrite fmap_app. apply NoDup_app. split_and!; [exact Hnd | | apply NoDup_singleton].
      intros x (e & -> & He)%list_elem_of_fmap Hx. simpl in Hx.
      apply list_elem_of_singleton in Hx.
      by destruct (distinct_tests_meet _ _ e Hdistinct He Hx) as [_ ?].
    + apply Forall_app. split; [exact Hall |]. by constructor.
  - pose proof Hdest as [Hnd Hall]%unique_sibling_ids_spec.
    destruct (list_find (λ r, node_id r = si) dest) as [[j e] |] eqn:Hfind.
    + pose proof Hfind as (Hj & Hid & _)%list_find_Some.
      assert (He : e ∈ dest) by (eapply list_elem_of_lookup_2, Hj).
      destruct (distinct_tests_meet _ _ e Hdistinct He Hid) as [Hsuite _].
      destruct e as [| ei el ef eln ecs]; [discriminate |].
      erewrite mergeEntry_suites by exact Hfind.
      apply unique_sibling_ids_spec. split.
      * rewrite list_fmap_insert. simpl.
        rewrite list_insert_id; [exact Hnd |].
        rewrite list_lookup_fmap, Hj. reflexivity.
      * apply Forall_insert; [exact Hall |].
        change (unique_sibling_ids (merge ecs scs) = true).
        apply (merge_unique_if scs IH).
        -- rewrite Forall_forall in Hall. apply (Hall _ He).
        -- apply (unique_sibling_ids_spec scs). exact Hbelow.
        -- eapply distinct_tests_children; [exact Hj | exact Hdistinct].
    + rewrite mergeEntry_absent by exact Hfind.
      apply unique_sibling_ids_spec. split.
      * rewrite fmap_app. apply NoDup_app. split_and!; [exact Hnd | | apply NoDup_singleton].
        intros x (e & -> & He)%list_elem_of_fmap Hx. simpl in Hx.
        apply list_elem_of_singleton in Hx.
        apply list_find_None in Hfind. rewrite Forall_forall in Hfind.
        by apply (Hfind e He).
      * apply Forall_app. split; [exact Hall |]. by constructor.
Qed.

Lemma merge_unique dest src :
  unique_sibling_ids dest = true →
  Forall (λ s, unique_ids_below s = true) src →
  distinct_tests (dest ++ src) →
  unique_sibling_ids (merge dest src) = true.
Proof.
  apply merge_unique_if. apply Forall_forall. intros s _. apply mergeEntry_unique.
Qed.

End MergerUnique.


Module GrouperFacts.
Section GrouperFacts.
Context `{MapperImports}.
Import Mapper MergerShape.

Variable this : JestToTestAdapterMapper.
Variable result : JestFileResults.

#[local] Abbreviation testOf := (assertionTest this result).
#[local] Abbreviation step := (groupAssertion this result).

Lemma testOf_test r : is_test (testOf r) = true.
Proof. reflexivity. Qed.

Lemma tests_of_testOf r : tests_of (testOf r) = [testOf r].
Proof. reflexivity. Qed.

Lemma forest_tests_testOf rs : forest_tests (testOf <$> rs) = testOf <$> rs.
Proof.
  induction rs as [| r rs IH]; [reflexivity |].
  rewrite fmap_cons, forest_tests_cons, IH. reflexivity.
Qed.

Lemma suites_of_tests rs : filter (λ c, is_test c = false) (testOf <$> rs) = [].
Proof.
  induction rs as [| r rs IH]; [reflexivity |].
  rewrite fmap_cons, filter_cons, decide_False by done. exact IH.
Qed.

Lemma step_Throw e rs : foldl step (Throw e) rs = Throw e.
Proof. induction rs as [| r rs IH]; [reflexivity | exact IH]. Qed.

(** *** Every assertion gives one test *)

Lemma insertAssertion_tests r a titles : ∀ i tree tree',
  insertAssertion this result r a i titles tree = Normal tree' →
  forest_tests tree' ≡ₚ forest_tests tree ++ [testOf r].
Proof.
  induction titles as [| title titles IH]; intros i tree tree'; simpl.
  { intros [= <-]. rewrite forest_tests_app. reflexivity. }
  destruct (list_find _ tree) as [[j [| nid nlabel nfile nline nchildren]] |] eqn:Hfind;
    [discriminate | |].
  - destruct (insertAssertion this result r a (S i) titles nchildren)
      as [children |] eqn:Hchildren; [| discriminate].
    simpl. intros [= <-].
    apply list_find_Some in Hfind as (Hj & _ & _).
    eapply forest_tests_insert; [exact Hj |].
    apply (IH _ _ _ Hchildren).
  - destruct (insertAssertion this result r a (S i) titles [])
      as [children |] eqn:Hchildren; [| discriminate].
    simpl. intros [= <-].
    rewrite forest_tests_app. f_equiv.
    unfold forest_tests at 1. simpl. rewrite app_nil_r.
    apply (IH _ _ _ Hchildren).
Qed.

Lemma grouped_tests rs : ∀ tree0 tree,
  foldl step (Normal tree0) rs = Normal tree →
  forest_tests tree ≡ₚ forest_tests tree0 ++ (testOf <$> rs).
Proof.
  induction rs as [| r rs IH]; intros tree0 tree; simpl.
  { intros [= <-]. by rewrite app_nil_r. }
  destruct (insertAssertion this result r _ 0 _ tree0) as [tree1 |] eqn:Hstep;
    [| by rewrite step_Throw].
  intros Hrest. rewrite (IH _ _ Hrest), (insertAssertion_tests _ _ _ _ _ _ Hstep).
  rewrite <- app_assoc. reflexivity.
Qed.

(** *** Where the test of an assertion is put *)

Lemma at_path_mono ids t forest forest' :
  (∀ n, n ∈ forest → n ∈ forest') → at_path ids t forest → at_path ids t forest'.
Proof.
  intros Hsub. destruct ids as [| i ids]; simpl; [apply Hsub |].
  intros (l & f & ln & cs & Hin & Hrest). exists l, f, ln, cs. auto.
Qed.

Lemma insertAssertion_places r a titles : ∀ i tree tree',
  insertAssertion this result r a i titles tree = Normal tree' →
  at_path (ancestorId this result a <$> seq i (length titles)) (testOf r) tree'.
Proof.
  induction titles as [| title titles IH]; intros i tree tree'; simpl.
  { intros [= <-]. apply elem_of_app. right. left. }
  fold (ancestorId this result a i).
  destruct (list_find _ tree) as [[j [| nid nlabel nfile nline nchildren]] |] eqn:Hfind;
    [discriminate | |].
  - destruct (insertAssertion this result r a (S i) titles nchildren)
      as [children |] eqn:Hchildren; [| discriminate].
    simpl. intros [= <-].
    apply list_find_Some in Hfind as (Hj & Hid & _). simpl in Hid. subst nid.
    exists nlabel, nfile, nline, children. split; [| by eapply IH].
    eapply list_elem_of_lookup_2. apply list_lookup_insert_eq.
    eapply lookup_lt_Some. exact Hj.
  - destruct (insertAssertion this result r a (S i) titles [])
      as [children |] eqn:Hchildren; [| discriminate].
    simpl. intros [= <-].
    eexists _, _, _, children. split; [| by eapply IH].
    apply elem_of_app. right. left.
Qed.

Lemma insertAssertion_keeps r a titles : ∀ i tree tree',
  insertAssertion this result r a i titles tree = Normal tree' →
  ∀ ids t, is_test t = true → at_path ids t tree → at_path ids t tree'.
Proof.
  induction titles as [| title titles IH]; intros i tree tree'; simpl.
  { intros [= <-] ids t _. apply at_path_mono. intros n Hn. apply elem_of_app. by left. }
  destruct (list_find _ tree) as [[j [| nid nlabel nfile nline nchildren]] |] eqn:Hfind;
    [discriminate | |].
  - destruct (insertAssertion this result r a (S i) titles nchildren)
      as [children |] eqn:Hchildren; [| discriminate].
    simpl. intros [= <-] ids t Htest.
    apply list_find_Some in Hfind as (Hj & _ & _).
    assert (Hother : ∀ n k, tree !! k = Some n → k ≠ j →
                            n ∈ <[j := TestSuiteInfo nid nlabel nfile nline children]> tree).
    { intros n k Hk Hne. eapply list_elem_of_lookup_2.
      rewrite list_lookup_insert_ne by done. exact Hk. }
    destruct ids as [| i0 ids]; simpl.
    + intros [k Hk]%list_elem_of_lookup_1. apply (Hother _ k Hk).
      intros ->. rewrite Hj in Hk. injection Hk as <-. discriminate.
    + intros (l & f & ln & cs & [k Hk]%list_elem_of_lookup_1 & Hrest).
      destruct (decide (k = j)) as [-> | Hne].
      * rewrite Hj in Hk. injection Hk as <- <- <- <- <-.
        exists nlabel, nfile, nline, children. split.
        -- eapply list_elem_of_lookup_2. apply list_lookup_insert_eq.
           eapply lookup_lt_Some. exact Hj.
        -- eapply IH; eauto.
      * exists l, f, ln, cs. split; [by eapply Hother | exact Hrest].
  - destruct (insertAssertion this result r a (S i) titles [])
      as [children |] eqn:Hchildren; [| discriminate].
    simpl. intros [= <-] ids t _. apply at_path_mono.
    intros n Hn. apply elem_of_app. by left.
Qed.

Lemma grouped_places rs : ∀ tree0 tree,
  foldl step (Normal tree0) rs = Normal tree →
  (∀ ids t, is_test t = true → at_path ids t tree0 → at_path ids t tree) ∧
  (∀ r, r ∈ rs →
        at_path (ancestorIds this result (default [] (jar_ancestorTitles r)))
                (testOf r) tree).
Proof.
  induction rs as [| r rs IH]; intros tree0 tree; simpl.
  { intros [= <-]. split; [done |]. by intros r ?%elem_of_nil. }
  destruct (insertAssertion this result r _ 0 _ tree0) as [tree1 |] eqn:Hstep;
    [| by rewrite step_Throw].
  intros Hrest. destruct (IH _ _ Hrest) as [Hkeeps Hplaces]. split.
  - intros ids t Ht Hat. apply Hkeeps; [exact Ht |].
    eapply insertAssertion_keeps; eauto.
  - intros r' [-> | Hin]%elem_of_cons; [| by apply Hplaces].
    apply Hkeeps; [reflexivity |].
    eapply insertAssertion_places. exact Hstep.
Qed.

(** *** The suites are found or created, never made twice *)

Lemma suite_ids_insert (xs : list TreeNode) j old new :
  xs !! j = Some old → is_test old = false → is_test new = false →
  node_id new = node_id old →
  node_id <$> filter (λ c, is_test c = false) (<[j := new]> xs)
    = node_id <$> filter (λ c, is_test c = false) xs.
Proof.
  intros Hj Hold Hnew Hid.
  rewrite insert_take_drop by (eapply lookup_lt_Some; exact Hj).
  rewrite <- (take_drop_middle xs j old Hj) at 3.
  rewrite !filter_app, !filter_cons, !decide_True by done.
  rewrite !fmap_app, !fmap_cons, Hid. reflexivity.
Qed.

Lemma distinct_suites_nil : distinct_suites [].
Proof. split; [constructor | constructor]. Qed.

Lemma distinct_suites_below_spec i l f ln cs :
  distinct_suites_below (TestSuiteInfo i l f ln cs) = true ↔ distinct_suites cs.
Proof.
  unfold distinct_suites. simpl.
  rewrite andb_true_iff, bool_decide_eq_true, forallb_forall, Forall_forall.
  split; intros [? Hall]; (split; [done |]); intros n Hn; apply Hall;
    by apply list_elem_of_In.
Qed.

Lemma distinct_suites_push_test xs t :
  is_test t = true → distinct_suites xs → distinct_suites (xs ++ [t]).
Proof.
  intros Ht [Hnd Hall]. split.
  - rewrite filter_app, filter_cons, decide_False, filter_nil, app_nil_r; [exact Hnd |].
    rewrite Ht. discriminate.
  - apply Forall_app. split; [exact Hall |]. constructor; [| constructor].
    destruct t; [reflexivity | discriminate].
Qed.

Lemma insertAssertion_distinct r a titles : ∀ i tree tree',
  insertAssertion this result r a i titles tree = Normal tree' →
  distinct_suites tree → distinct_suites tree'.
Proof.
  induction titles as [| title titles IH]; intros i tree tree'; simpl.
  { intros [= <-]. by apply distinct_suites_push_test. }
  destruct (list_find _ tree) as [[j [| nid nlabel nfile nline nchildren]] |] eqn:Hfind;
    [discriminate | |].
  - destruct (insertAssertion this result r a (S i) titles nchildren)
      as [children |] eqn:Hchildren; [| discriminate].
    simpl. intros [= <-] [Hnd Hall].
    apply list_find_Some in Hfind as (Hj & _ & _). split.
    + erewrite suite_ids_insert; [exact Hnd | exact Hj | done..].
    + apply Forall_insert; [exact Hall |].
      apply distinct_suites_below_spec. eapply IH; [exact Hchildren |].
      apply (distinct_suites_below_spec nid nlabel nfile nline).
      rewrite Forall_forall in Hall. apply Hall. eapply list_elem_of_lookup_2, Hj.
  - destruct (insertAssertion this result r a (S i) titles [])
      as [children |] eqn:Hchildren; [| discriminate].
    simpl. intros [= <-] [Hnd Hall]. split.
    + rewrite filter_app, filter_cons, decide_True, filter_nil, fmap_app by done.
      apply NoDup_app. split_and!; [exact Hnd | | apply NoDup_singleton].
      intros x (e & -> & [_ He]%list_elem_of_filter)%list_elem_of_fmap Hx.
      simpl in Hx. apply list_elem_of_singleton in Hx.
      apply list_find_None in Hfind. rewrite Forall_forall in Hfind.
      by apply (Hfind e He).
    + apply Forall_app. split; [exact Hall |]. constructor; [| constructor].
      apply distinct_suites_below_spec. eapply IH; [exact Hchildren |].
      apply distinct_suites_nil.
Qed.

Lemma grouped_distinct rs : ∀ tree0 tree,
  foldl step (Normal tree0) rs = Normal tree →
  distinct_suites tree0 → distinct_suites tree.
Proof.
  induction rs as [| r rs IH]; intros tree0 tree; simpl.
  { by intros [= <-]. }
  destruct (insertAssertion this result r _ 0 _ tree0) as [tree1 |] eqn:Hstep;
    [| by rewrite step_Throw].
  intros Hrest Hdistinct. eapply IH; [exact Hrest |].
  eapply insertAssertion_distinct; eauto.
Qed.

Lemma FoldedPath_distinct segments leaf n :
  FoldedPath segments leaf n →
  distinct_suites_below leaf = true → distinct_suites_below n = true.
Proof.
  induction 1 as [| k segment inner _ IH _]; [done |].
  intros Hleaf. apply distinct_suites_below_spec. split.
  - destruct (is_test inner) eqn:Hinner.
    + rewrite filter_cons, decide_False, filter_nil by (rewrite Hinner; discriminate).
      constructor.
    + rewrite filter_cons, decide_True, filter_nil by done. apply NoDup_singleton.
  - constructor; [by apply IH | constructor].
Qed.

(** *** When the walk meets no test, nothing is thrown *)

Lemma insertAssertion_returns r a titles : ∀ i tree,
  (∀ k e, (i ≤ k < i + length titles)%nat → e ∈ forest_tests tree →
          node_id e ≠ ancestorId this result a k) →
  ∃ tree', insertAssertion this result r a i titles tree = Normal tree'.
Proof.
  induction titles as [| title titles IH]; intros i tree Hfree; simpl; [eauto |].
  fold (ancestorId this result a i).
  destruct (list_find _ tree) as [[j [ni nl nf nln nsk | nid nlabel nfile nline nchildren]] |]
    eqn:Hfind.
  - apply list_find_Some in Hfind as (Hj & Hid & _). exfalso.
    apply (Hfree i (TestInfo ni nl nf nln nsk)); [simpl; lia | | exact Hid].
    apply MergerTests.elem_of_forest_tests. eexists.
    split; [eapply list_elem_of_lookup_2, Hj | left].
  - apply list_find_Some in Hfind as (Hj & _ & _).
    destruct (IH (S i) nchildren) as [children ->]; [| simpl; eauto].
    intros k e Hk He. apply Hfree; [simpl; lia |].
    apply MergerTests.elem_of_forest_tests. eexists.
    split; [eapply list_elem_of_lookup_2, Hj | exact He].
  - destruct (IH (S i) []) as [children ->]; [| simpl; eauto].
    intros k e _ He. by apply elem_of_nil in He.
Qed.

Lemma grouped_returns rs : ∀ tree0,
  (∀ e r k, e ∈ forest_tests tree0 ++ (testOf <$> rs) → r ∈ rs →
            (k < length (default [] (jar_ancestorTitles r)))%nat →
            node_id e ≠ ancestorId this result (default [] (jar_ancestorTitles r)) k) →
  ∃ tree, foldl step (Normal tree0) rs = Normal tree.
Proof.
  induction rs as [| r rs IH]; intros tree0 Hfree; simpl; [eauto |].
  destruct (insertAssertion_returns r (default [] (jar_ancestorTitles r))
              (default [] (jar_ancestorTitles r)) 0 tree0) as [tree1 Hstep].
  { intros k e Hk He. apply Hfree; [| left | lia].
    apply elem_of_app. by left. }
  rewrite Hstep. apply IH. intros e r' k He Hr' Hk. apply Hfree; [| by right | exact Hk].
  rewrite (insertAssertion_tests _ _ _ _ _ _ Hstep) in He.
  rewrite fmap_cons. rewrite <- app_assoc in He. exact He.
Qed.

(** *** A test with the name of a describe block next to it *)

Lemma insertAssertion_fresh r a titles i :
  ∃ tree, insertAssertion this result r a i titles [] = Normal tree.
Proof.
  apply insertAssertion_returns. intros k e _ He. by apply elem_of_nil in He.
Qed.

Lemma insertAssertion_clash r1 r2 a name more titles : ∀ i tree1,
  (i + length titles = length a)%nat →
  jar_fullName r1 = String.concat " " (a ++ [name]) →
  insertAssertion this result r1 a i titles [] = Normal tree1 →
  insertAssertion this result r2 (a ++ name :: more) i (titles ++ name :: more) tree1
  = Throw TypeError.
Proof.
  induction titles as [| title titles IH]; intros i tree1 Hi Hname; simpl.
  - intros [= <-]. simpl in Hi. rewrite Nat.add_0_r in Hi. subst i.
    replace (take (length a + 1) (a ++ name :: more)) with (a ++ [name]).
    2:{ rewrite take_app_ge by lia.
        replace (length a + 1 - length a)%nat with 1%nat by lia. reflexivity. }
    rewrite JsStringFacts.join_Some_concat, <- Hname.
    unfold mapJestAssertionToTestInfo. simpl. rewrite decide_True by reflexivity.
    reflexivity.
  - destruct (insertAssertion_fresh r1 a titles (S i)) as [children Hchildren].
    rewrite Hchildren. simpl. intros [= <-].
    replace (take (i + 1) (a ++ name :: more)) with (take (i + 1) a)
      by (rewrite take_app_le by (simpl in Hi; lia); reflexivity).
    simpl. rewrite decide_True by reflexivity. simpl.
    rewrite (IH (S i) children); [reflexivity | simpl in Hi; lia | exact Hname | exact Hchildren].
Qed.

End GrouperFacts.
End GrouperFacts.


Module FolderFacts.
Import Mapper JsString JsStringFacts MapperFacts.

Lemma createDirectoryStructure_unfold currentLevel thePath currentPathIndex :
  createDirectoryStructure currentLevel thePath currentPathIndex
  = match at_index thePath (skipEmpty thePath currentPathIndex) with
    | None => currentLevel
    | Some currentPathElement =>
        createDirectoryStructure
          (TestSuiteInfo
             (String.concat "/"
                (take (Z.to_nat (skipEmpty thePath currentPathIndex + 1)) thePath))
             currentPathElement None None [currentLevel])
          thePath (skipEmpty thePath currentPathIndex - 1)
    end.
Proof.
  funelim (createDirectoryStructure currentLevel thePath currentPathIndex).
  - rewrite Hdefined, join_Some_concat. reflexivity.
  - match goal with E : at_index _ _ = None |- _ => rewrite E end. reflexivity.
Qed.

Lemma at_index_nat {A} (a : list A) (k : nat) : at_index a (Z.of_nat k) = a !! k.
Proof. unfold at_index. rewrite decide_False by lia. by rewrite Nat2Z.id. Qed.

Lemma at_index_before {A} (a : list A) : at_index a (-1) = None.
Proof. reflexivity. Qed.

(** One step of the folding at the index [k]: a segment that is not empty
    is wrapped around the level, an empty one is passed over. *)
Lemma createDirectoryStructure_segment currentLevel thePath k segment :
  thePath !! k = Some segment → segment ≠ "" →
  createDirectoryStructure currentLevel thePath (Z.of_nat k)
  = createDirectoryStructure
      (TestSuiteInfo (String.concat "/" (take (S k) thePath)) segment None None
                     [currentLevel])
      thePath (Z.of_nat k - 1).
Proof.
  intros Hk Hsegment. rewrite createDirectoryStructure_unfold.
  unfold skipEmpty. rewrite at_index_nat, Hk.
  rewrite decide_False by congruence. rewrite at_index_nat, Hk.
  replace (Z.to_nat (Z.of_nat k + 1)) with (S k) by lia. reflexivity.
Qed.

Lemma createDirectoryStructure_empty currentLevel thePath k :
  thePath !! k = Some "" →
  createDirectoryStructure currentLevel thePath (Z.of_nat k)
  = match at_index thePath (Z.of_nat k - 1) with
    | None => currentLevel
    | Some segment =>
        createDirectoryStructure
          (TestSuiteInfo (String.concat "/" (take k thePath)) segment None None
                         [currentLevel])
          thePath (Z.of_nat k - 2)
    end.
Proof.
  intros Hk. rewrite createDirectoryStructure_unfold.
  unfold skipEmpty. rewrite at_index_nat, Hk.
  rewrite decide_True by reflexivity.
  replace (Z.to_nat (Z.of_nat k - 1 + 1)) with k by lia.
  replace (Z.of_nat k - 1 - 1) with (Z.of_nat k - 2) by lia. reflexivity.
Qed.

Lemma createDirectoryStructure_start currentLevel thePath :
  createDirectoryStructure currentLevel thePath (-1) = currentLevel.
Proof. rewrite createDirectoryStructure_unfold. reflexivity. Qed.

Lemma directoryOf_segment segments k segment :
  segments !! k = Some segment → segment ≠ "" →
  directoryOf segments k = Some (String.concat "/" (take (S k) segments), segment).
Proof. intros Hk Hne. unfold directoryOf. rewrite Hk. simpl. by rewrite decide_False. Qed.

Lemma directoryOf_empty segments k : segments !! k = Some "" → directoryOf segments k = None.
Proof. intros Hk. unfold directoryOf. rewrite Hk. reflexivity. Qed.

(** The directory suites made for the segments before the index [d], when
    no two empty segments follow each other. *)
Lemma createDirectoryStructure_directories segments : ∀ d currentLevel,
  (d ≤ length segments)%nat →
  (∀ k, (S k < d)%nat → segments !! k = Some "" → segments !! S k ≠ Some "") →
  directories (createDirectoryStructure currentLevel segments (Z.of_nat d - 1))
  = omap (directoryOf segments) (seq 0 d) ++ directories currentLevel.
Proof.
  induction d as [d IH] using lt_wf_ind. intros currentLevel Hd Hclean.
  destruct d as [| k]; [by rewrite createDirectoryStructure_start |].
  replace (Z.of_nat (S k) - 1) with (Z.of_nat k) by lia.
  destruct (lookup_lt_is_Some_2 segments k ltac:(lia)) as [segment Hk].
  rewrite seq_S, omap_app. simpl.
  destruct (decide (segment = "")) as [-> | Hne].
  - rewrite (directoryOf_empty _ _ Hk), app_nil_r.
    rewrite (createDirectoryStructure_empty _ _ _ Hk).
    destruct k as [| k'].
    { reflexivity. }
    replace (Z.of_nat (S k') - 1) with (Z.of_nat k') by lia.
    rewrite at_index_nat.
    destruct (lookup_lt_is_Some_2 segments k' ltac:(lia)) as [segment' Hk'].
    rewrite Hk'.
    assert (Hne' : segment' ≠ "").
    { intros ->. by apply (Hclean k' ltac:(lia) Hk'). }
    replace (Z.of_nat (S k') - 2) with (Z.of_nat k' - 1) by lia.
    rewrite IH; [| lia | lia | intros; apply Hclean; [lia | done]].
    rewrite seq_S, omap_app. simpl.
    rewrite (directoryOf_segment _ _ _ Hk' Hne'). simpl.
    rewrite <- app_assoc. reflexivity.
  - rewrite (directoryOf_segment _ _ _ Hk Hne).
    rewrite (createDirectoryStructure_segment _ _ _ _ Hk Hne).
    rewrite IH; [| lia | lia | intros; apply Hclean; [lia | done]].
    simpl. rewrite <- app_assoc. reflexivity.
Qed.

(** Without the assumption: every directory suite is the one of a segment
    before the last. *)
Lemma createDirectoryStructure_directory segments : ∀ d currentLevel x,
  (d ≤ length segments)%nat →
  x ∈ directories (createDirectoryStructure currentLevel segments (Z.of_nat d - 1)) →
  x ∈ directories currentLevel ∨
  ∃ k segment, (k < d)%nat ∧ segments !! k = Some segment ∧
               x = (String.concat "/" (take (S k) segments), segment).
Proof.
  induction d as [d IH] using lt_wf_ind. intros currentLevel x Hd.
  destruct d as [| k]; [rewrite createDirectoryStructure_start; by left |].
  replace (Z.of_nat (S k) - 1) with (Z.of_nat k) by lia.
  destruct (lookup_lt_is_Some_2 segments k ltac:(lia)) as [segment Hk].
  destruct (decide (segment = "")) as [-> | Hne].
  - rewrite (createDirectoryStructure_empty _ _ _ Hk).
    destruct k as [| k']; [by left |].
    replace (Z.of_nat (S k') - 1) with (Z.of_nat k') by lia.
    rewrite at_index_nat.
    destruct (lookup_lt_is_Some_2 segments k' ltac:(lia)) as [segment' Hk'].
    rewrite Hk'.
    replace (Z.of_nat (S k') - 2) with (Z.of_nat k' - 1) by lia.
    intros [Hx | (j & s & Hj & Hs & ->)]%IH; [| right; exists j, s; split; [lia | done] | lia | lia].
    simpl in Hx. apply elem_of_cons in Hx as [-> | Hx]; [| by left].
    right. exists k', segment'. split; [lia | done].
  - rewrite (createDirectoryStructure_segment _ _ _ _ Hk Hne).
    intros [Hx | (j & s & Hj & Hs & ->)]%IH; [| right; exists j, s; split; [lia | done] | lia | lia].
    simpl in Hx. apply elem_of_cons in Hx as [-> | Hx]; [| by left].
    right. exists k, segment. split; [lia | done].
Qed.

End FolderFacts.



Module IdentifierFacts.
Section IdentifierFacts.
Context `{MapperImports}.
Import Mapper JsString JsStringFacts JsStringMore.

Lemma append_inj_r (a b c : string) : a +:+ c = b +:+ c → a = b.
Proof.
  revert b. induction a as [| x a IH]; intros [| y b] Heq; [reflexivity | | |].
  - apply (f_equal String.length) in Heq.
    rewrite append_nil, append_cons in Heq. simpl in Heq.
    rewrite length_append in Heq. lia.
  - apply (f_equal String.length) in Heq.
    rewrite append_nil, append_cons in Heq. simpl in Heq.
    rewrite length_append in Heq. lia.
  - rewrite !append_cons in Heq. injection Heq as -> Heq. f_equal. by apply IH.
Qed.

Lemma getTestId_inj this fileName :
  Inj (=) (=) escapeRegExp → Inj (=) (=) (getTestId this fileName).
Proof.
  intros Hinj n1 n2 Heq. unfold getTestId in Heq.
  do 3 apply String.app_inj in Heq.
  apply append_inj_r in Heq. by apply Hinj.
Qed.

Lemma escapeRegExpLiteral_cons c s :
  escapeRegExpLiteral (String c s)
  = if isRegExpSyntax c then String "\" (String c (escapeRegExpLiteral s))
    else String c (escapeRegExpLiteral s).
Proof. reflexivity. Qed.

Lemma escapeRegExpLiteral_inj : Inj (=) (=) escapeRegExpLiteral.
Proof.
  intros s1. induction s1 as [| c1 s1 IH]; intros [| c2 s2];
    rewrite ?escapeRegExpLiteral_cons; [reflexivity | | |].
  - destruct (isRegExpSyntax c2); discriminate.
  - destruct (isRegExpSyntax c1); discriminate.
  - destruct (isRegExpSyntax c1) eqn:H1, (isRegExpSyntax c2) eqn:H2.
    + intros [= -> Heq]. f_equal. by apply IH.
    + intros [= <- _]. discriminate.
    + intros [= -> _]. discriminate.
    + intros [= -> Heq]. f_equal. by apply IH.
Qed.

End IdentifierFacts.
End IdentifierFacts.

Module ResponseFacts.
Section ResponseFacts.
Context `{MapperImports}.
Import Mapper MapperFacts MergerShape MergerUnique GrouperFacts ParseFacts.

Lemma mapM_completion_Normal {A B} (f : A → Completion B) l ys :
  mapM_completion f l = Normal ys ↔ Forall2 (λ x y, f x = Normal y) l ys.
Proof.
  revert ys. induction l as [| x l IH]; intros ys; simpl.
  - split; [intros [= <-]; constructor | by intros ->%Forall2_nil_inv_l].
  - destruct (f x) as [y |] eqn:Hx; simpl.
    + destruct (mapM_completion f l) as [ys' |] eqn:Hl; simpl.
      * split.
        -- intros [= <-]. constructor; [exact Hx | by apply IH].
        -- intros (y' & ys'' & Hy' & Hrest & ->)%Forall2_cons_inv_l.
           apply IH in Hrest. congruence.
      * split; [discriminate |].
        intros (y' & ys'' & _ & Hrest & ->)%Forall2_cons_inv_l.
        apply IH in Hrest. discriminate.
    + split; [discriminate |].
      intros (y' & ys'' & Hy' & _ & ->)%Forall2_cons_inv_l. congruence.
Qed.

Lemma mapM_completion_Throw {A B} (f : A → Completion B) l :
  mapM_completion f l = Throw TypeError ↔ Exists (λ x, f x = Throw TypeError) l.
Proof.
  induction l as [| x l IH]; simpl.
  - split; [discriminate | by intros ?%Exists_nil].
  - rewrite Exists_cons. destruct (f x) as [y | []] eqn:Hx; simpl; [| tauto].
    destruct (mapM_completion f l) as [ys | []]; simpl.
    + split; [discriminate |]. intros [? | ?%IH]; discriminate.
    + split; [intros _; right; by apply IH | done].
Qed.

Lemma mapJestFileResultToTestSuiteInfo_Normal this result tree :
  mapJestFileResultToTestSuiteInfo this result = Normal tree ↔
  ∃ testSuites,
    foldl (groupAssertion this result) (Normal [])
          (filter (λ r, hasAncestors r = true) (jfr_assertionResults result))
      = Normal testSuites ∧
    tree = transformFileResultIntoTree this (jfr_name result)
             ((assertionTest this result
                 <$> filter (λ r, hasAncestors r = false) (jfr_assertionResults result))
                ++ testSuites).
Proof.
  unfold mapJestFileResultToTestSuiteInfo.
  change (foldl _ (Normal []) ?rs) with (foldl (groupAssertion this result) (Normal []) rs).
  destruct (foldl _ _ _) as [testSuites |]; simpl.
  - split; [intros [= <-]; eauto |]. by intros (? & [= <-] & ->).
  - split; [discriminate |]. by intros (? & [=] & _).
Qed.

Lemma filter_ancestors_split (rs : list JestAssertionResults) :
  filter (λ r, hasAncestors r = false) rs ++ filter (λ r, hasAncestors r = true) rs ≡ₚ rs.
Proof.
  induction rs as [| r rs IH]; [reflexivity |].
  rewrite !filter_cons. destruct (hasAncestors r) eqn:Hr.
  - rewrite decide_False, decide_True by done.
    rewrite <- Permutation_middle. by f_equiv.
  - rewrite decide_True, decide_False by done. simpl. by f_equiv.
Qed.

Lemma mapJestFileResultToTestSuiteInfo_tests this result tree :
  mapJestFileResultToTestSuiteInfo this result = Normal tree →
  tests_of tree ≡ₚ assertionTest this result <$> jfr_assertionResults result.
Proof.
  intros (testSuites & Hgrouped & ->)%mapJestFileResultToTestSuiteInfo_Normal.
  rewrite transformFileResultIntoTree_tests, forest_tests_app, forest_tests_testOf.
  rewrite (grouped_tests _ _ _ _ _ Hgrouped). simpl.
  rewrite <- fmap_app. f_equiv. apply filter_ancestors_split.
Qed.

Lemma join_Forall2_Permutation {A B C} (f : A → list C) (g : B → list C) l k :
  Forall2 (λ x y, f x ≡ₚ g y) l k → mjoin (f <$> l) ≡ₚ mjoin (g <$> k).
Proof.
  induction 1 as [| x y l k Hxy _ IH]; [reflexivity |].
  rewrite !fmap_cons. simpl. by f_equiv.
Qed.

Lemma mapJestResponseToTestSuiteInfo_tests this testResults tree :
  mapJestResponseToTestSuiteInfo this testResults = Normal tree →
  tests_of tree
  ≡ₚ mjoin ((λ result, assertionTest this result <$> jfr_assertionResults result)
              <$> testResults).
Proof.
  unfold mapJestResponseToTestSuiteInfo.
  destruct (mapM_completion _ testResults) as [suiteResults |] eqn:Hfiles; [| discriminate].
  simpl. intros [= <-].
  change (tests_of (TestSuiteInfo ?i ?l ?f ?ln ?cs)) with (forest_tests cs).
  rewrite merge_tests. simpl. unfold forest_tests. symmetry.
  apply join_Forall2_Permutation.
  apply mapM_completion_Normal in Hfiles.
  eapply Forall2_impl; [exact Hfiles |].
  intros result suite Hsuite. simpl. symmetry.
  by apply mapJestFileResultToTestSuiteInfo_tests.
Qed.

Lemma parseResultTree_kept this testFile :
  hasFileName testFile = true ↔ is_Some (parseResultTree this testFile).
Proof.
  unfold hasFileName, parseResultTree.
  destruct (last _) as [[| c f] |]; split; try done; by intros [? [=]].
Qed.

Lemma parse_trees_tests this loadedTests :
  forest_tests (omap (parseResultTree this) loadedTests)
  = mjoin ((λ testFile, itBlockTestInfo this <$> itBlocks testFile)
             <$> filter (λ testFile, hasFileName testFile = true) loadedTests).
Proof.
  induction loadedTests as [| testFile loadedTests IH]; [reflexivity |].
  rewrite filter_cons.
  change (omap ?f (testFile :: ?l))
    with (match f testFile with Some y => y :: omap f l | None => omap f l end).
  destruct (parseResultTree this testFile) as [tree |] eqn:Htree.
  - rewrite decide_True
      by (apply (proj2 (parseResultTree_kept this testFile)); rewrite Htree; eauto).
    rewrite forest_tests_cons, IH, (parseResultTree_tests _ _ _ Htree). reflexivity.
  - rewrite decide_False; [exact IH |].
    intros [? Hsome]%(parseResultTree_kept this). congruence.
Qed.

Lemma mapJestParseToTestSuiteInfo_all_tests this loadedTests :
  tests_of (mapJestParseToTestSuiteInfo this loadedTests)
  ≡ₚ mjoin ((λ testFile, itBlockTestInfo this <$> itBlocks testFile)
              <$> filter (λ testFile, hasFileName testFile = true) loadedTests).
Proof.
  unfold mapJestParseToTestSuiteInfo.
  change (tests_of (TestSuiteInfo ?i ?l ?f ?ln ?cs)) with (forest_tests cs).
  rewrite merge_tests. simpl. rewrite parse_trees_tests. reflexivity.
Qed.

End ResponseFacts.
End ResponseFacts.


Module ExplorerFacts.
Section ExplorerFacts.
Context `{LoaderImports}.
Import Loader LoaderFacts MergerShape.

#[local] Arguments mm_any : simpl never.

(** *** The Node Classifier *)

Lemma omap_cons_list {A B} (f : A → option B) x l :
  omap f (x :: l) = option_list (f x) ++ omap f l.
Proof. simpl. destruct (f x); reflexivity. Qed.

Lemma exploreNode_describe name start_line children file prefix :
  exploreNode (mkParsedNode describe name start_line children) file prefix
  = Some (TestSuiteInfo (path_join [file; prefix; name]) name (Some file) (Some start_line)
            (omap (λ x, exploreNode x file (path_join [file; prefix; name]))
                  (default [] children))).
Proof. destruct children; reflexivity. Qed.

Lemma exploreNodes_tests nodes file prefix :
  Forall (λ node, ∀ file prefix,
            labelled <$> forest_tests (option_list (exploreNode node file prefix))
            = (λ b, (b.1, Some b.2)) <$> itBlocksOf node) nodes →
  labelled <$> forest_tests (omap (λ x, exploreNode x file prefix) nodes)
  = (λ b, (b.1, Some b.2)) <$> mjoin (itBlocksOf <$> nodes).
Proof.
  induction 1 as [| c nodes Hc _ IH]; [reflexivity |].
  rewrite omap_cons_list, forest_tests_app, fmap_app, Hc, IH.
  rewrite fmap_cons. change (mjoin (?x :: ?l)) with (x ++ mjoin l).
  rewrite fmap_app. reflexivity.
Qed.

Lemma exploreNode_tests node : ∀ file prefix,
  labelled <$> forest_tests (option_list (exploreNode node file prefix))
  = (λ b, (b.1, Some b.2)) <$> itBlocksOf node.
Proof.
  induction node as [type name start_line children IH] using ParsedNode_ind.
  intros file prefix. destruct type; try reflexivity.
  rewrite exploreNode_describe.
  change (forest_tests (option_list (Some (TestSuiteInfo ?i ?l ?f ?ln ?cs))))
    with (forest_tests cs ++ []).
  rewrite app_nil_r, (exploreNodes_tests _ _ _ IH).
  destruct children; reflexivity.
Qed.

Lemma exploreFile_tests file type name start_line children :
  ∃ suite,
    exploreFile file (Some (mkParsedNode type name start_line children)) = Resolved suite ∧
    labelled <$> tests_of suite
    = (λ b, (b.1, Some b.2)) <$> mjoin (itBlocksOf <$> default [] children).
Proof.
  eexists. split; [reflexivity |].
  change (tests_of (TestSuiteInfo ?i ?l ?f ?ln ?cs)) with (forest_tests cs).
  apply exploreNodes_tests. apply Forall_forall. intros node _. apply exploreNode_tests.
Qed.

(** *** The Directory Explorer *)

Lemma Promise_all_app {A} (ps qs : list (Promise A)) :
  Promise_all (ps ++ qs)
  = (xs ←await Promise_all ps; ys ←await Promise_all qs; Resolved (xs ++ ys)).
Proof.
  induction ps as [| p ps IH]; simpl.
  - destruct (Promise_all qs); reflexivity.
  - rewrite IH. destruct p; [| reflexivity].
    destruct (Promise_all ps); [| reflexivity]. simpl.
    destruct (Promise_all qs); reflexivity.
Qed.

Lemma Promise_all_resolved {A} (ps : list (Promise A)) vs :
  Promise_all ps = Resolved vs ↔ ps = Resolved <$> vs.
Proof.
  revert vs. induction ps as [| p ps IH]; intros vs; simpl.
  - split; [intros [= <-]; reflexivity | destruct vs; [reflexivity | discriminate]].
  - destruct p as [v |].
    + destruct (Promise_all ps) as [l |] eqn:Hps.
      * split.
        -- intros [= <-]. rewrite fmap_cons. f_equal. by apply IH.
        -- destruct vs as [| v' vs']; [discriminate |]. rewrite fmap_cons.
           intros [= -> Hrest]. apply IH in Hrest. congruence.
      * split; [discriminate |].
        destruct vs as [| v' vs']; [discriminate |]. rewrite fmap_cons.
        intros [= -> Hrest]. apply IH in Hrest. discriminate.
    + split; [discriminate | destruct vs; discriminate].
Qed.

Lemma Promise_all_rejected_inv {A} (ps : list (Promise A)) :
  Promise_all ps = Rejected → Rejected ∈ ps.
Proof.
  induction ps as [| p ps IH]; simpl; [discriminate |].
  destruct p as [v |]; [| intros _; left].
  destruct (Promise_all ps); [discriminate |]. intros _. right. by apply IH.
Qed.

(** The exploration is rejected only when it meets a failure. *)
Lemma rejected_fails matcher entry : ∀ filePath,
  evalueFilePath matcher filePath entry = Rejected →
  ∃ kind, fails_below matcher kind filePath entry.
Proof.
  induction entry as [name parsed | name listing IH | name] using FsEntry_ind;
    intros filePath.
  - simpl. destruct (matcher filePath) eqn:Hmatch; [| discriminate].
    destruct parsed as [[] |]; [discriminate |]. intros _.
    exists ParseFailure. by constructor.
  - destruct listing as [files |]; [| intros _; exists IoFailure; constructor].
    simpl in IH. simpl.
    destruct (Promise_all _) as [children |] eqn:Hall; [discriminate |]. intros _.
    apply Promise_all_rejected_inv in Hall.
    apply list_elem_of_omap in Hall as (f & Hf & Hrejected).
    destruct (mm_any (entry_name f) IGNORE_GLOBS) eqn:Hignored; [discriminate |].
    injection Hrejected as Hrejected.
    rewrite Forall_forall in IH.
    destruct (IH f Hf _ Hrejected) as [kind Hfails].
    exists kind. eapply fails_inside; eauto.
  - intros _. exists IoFailure. constructor.
Qed.

Lemma rejected_iff_fails matcher filePath entry :
  evalueFilePath matcher filePath entry = Rejected ↔
  ∃ kind, fails_below matcher kind filePath entry.
Proof.
  split; [apply rejected_fails |]. intros [kind Hfails].
  eapply fails_below_rejected. exact Hfails.
Qed.

Lemma exploreDirectory_rejected_iff matcher directory name listing :
  exploreDirectory directory matcher listing = Rejected ↔
  ∃ kind, fails_below matcher kind directory (FsDirectory name listing).
Proof.
  rewrite <- rejected_iff_fails, evalueFilePath_directory.
  destruct (exploreDirectory directory matcher listing); simpl; split; done.
Qed.

(** What [evalueFilePath] resolves to is a suite with the path as its
    identifier. *)
Lemma evalueFilePath_suite matcher filePath entry suite :
  evalueFilePath matcher filePath entry = Resolved (Some suite) →
  is_test suite = false ∧ node_id suite = filePath.
Proof.
  destruct entry as [name parsed | name listing | name]; [| | discriminate].
  - simpl. destruct (matcher filePath); [| discriminate].
    destruct parsed as [[] |]; [| discriminate]. simpl. intros [= <-]. done.
  - rewrite evalueFilePath_directory.
    destruct (exploreDirectory filePath matcher listing) as [testSuite |] eqn:Hdir;
      [| discriminate].
    simpl. case_decide; [| discriminate]. intros [= <-].
    split; [| by eapply exploreDirectory_id].
    unfold exploreDirectory in Hdir.
    destruct (getDirectoryContents _ _); [| discriminate]. simpl in Hdir.
    destruct (Promise_all _); [| discriminate]. simpl in Hdir.
    injection Hdir as <-. reflexivity.
Qed.

Lemma exploreDirectory_resolved directory matcher files testSuite :
  exploreDirectory directory matcher (Some files) = Resolved testSuite ↔
  ∃ children,
    (λ f, evalueFilePath matcher (path_join [directory; entry_name f]) f)
      <$> mm_not files IGNORE_GLOBS = Resolved <$> children ∧
    testSuite = directorySuite directory children.
Proof.
  unfold exploreDirectory, getDirectoryContents. simpl.
  rewrite <- list_fmap_compose.
  change ((λ x, evalueFilePath matcher x.1 x.2) ∘ _)
    with (λ f, evalueFilePath matcher (path_join [directory; entry_name f]) f).
  destruct (Promise_all _) as [children |] eqn:Hall; simpl.
  - split.
    + intros [= <-]. exists children. by apply Promise_all_resolved in Hall.
    + intros (children' & Hchildren & ->).
      apply Promise_all_resolved in Hchildren. rewrite Hall in Hchildren.
      injection Hchildren as <-. reflexivity.
  - split; [discriminate |]. intros (children' & Hchildren & _).
    apply Promise_all_resolved in Hchildren. congruence.
Qed.

Lemma fmap_eq_Forall2 {A B C} (f : A → C) (g : B → C) l k :
  f <$> l = g <$> k → Forall2 (λ x y, f x = g y) l k.
Proof.
  revert k. induction l as [| x l IH]; intros [| y k]; try discriminate.
  - constructor.
  - rewrite !fmap_cons. intros [= Hxy Hrest]. constructor; auto.
Qed.

(** An entry that is ignored, or that gives nothing or a suite without
    children, counts for nothing. *)
Lemma exploreDirectory_without directory matcher before e after :
  mm_any (entry_name e) IGNORE_GLOBS = true ∨
  (∃ v, evalueFilePath matcher (path_join [directory; entry_name e]) e = Resolved v ∧
        ∀ s, v = Some s → suite_children s = []) →
  exploreDirectory directory matcher (Some (before ++ e :: after))
  = exploreDirectory directory matcher (Some (before ++ after)).
Proof.
  intros Hnothing. unfold exploreDirectory, getDirectoryContents, mm_not.
  rewrite !filter_app, filter_cons.
  destruct (mm_any (entry_name e) IGNORE_GLOBS) eqn:Hignored.
  { rewrite decide_False by done. reflexivity. }
  destruct Hnothing as [? | (v & Hv & Hempty)]; [done |].
  rewrite decide_True by done. simpl.
  rewrite !fmap_app, !fmap_cons, !Promise_all_app. simpl. rewrite Hv.
  destruct (Promise_all (_ <$> (_ <$> filter _ before))) as [xs |]; [| reflexivity].
  simpl. destruct (Promise_all (_ <$> (_ <$> filter _ after))) as [ys |]; [| reflexivity].
  simpl. f_equal. unfold directorySuite. f_equal.
  rewrite !omap_app, !filter_app. f_equal.
  destruct v as [s |]; [| reflexivity].
  simpl. rewrite filter_cons, decide_False; [reflexivity |].
  rewrite (Hempty s eq_refl). simpl. lia.
Qed.

(** The children follow the listing. *)
Lemma kept_children_order (paths : list string) (children : list (option TreeNode)) :
  Forall2 (λ p v, ∀ s, v = Some s → node_id s = p) paths children →
  node_id <$> filter (λ x, (0 < length (suite_children x))%nat) (omap id children)
    `sublist_of` paths.
Proof.
  induction 1 as [| p v paths children Hv _ IH]; [constructor |].
  destruct v as [s |]; simpl; [| by constructor].
  rewrite filter_cons. case_decide.
  - rewrite fmap_cons, (Hv s eq_refl). by constructor.
  - by constructor.
Qed.

Lemma exploreDirectory_order directory matcher files testSuite :
  exploreDirectory directory matcher (Some files) = Resolved testSuite →
  node_id <$> suite_children testSuite
    `sublist_of` (λ f, path_join [directory; entry_name f]) <$> files.
Proof.
  intros (children & Hchildren & ->)%exploreDirectory_resolved.
  transitivity ((λ f, path_join [directory; entry_name f]) <$> mm_not files IGNORE_GLOBS);
    [| apply fmap_sublist, sublist_filter].
  apply kept_children_order. apply Forall2_fmap_l.
  apply fmap_eq_Forall2 in Hchildren.
  eapply Forall2_impl; [exact Hchildren |].
  intros f v Hf s ->. simpl. by eapply evalueFilePath_suite.
Qed.

(** *** Pruning *)

Lemma pruned_suite i l f ln cs :
  pruned (TestSuiteInfo i l f ln cs) = true ↔
  Forall (λ c, (node_line c ≠ None ∨ suite_children c ≠ [] ∨ is_test c = true) ∧
               pruned c = true) cs.
Proof.
  simpl. rewrite forallb_forall, Forall_forall. split.
  - intros Hall c Hc. specialize (Hall c (proj1 (list_elem_of_In _ _) Hc)).
    destruct c as [| ci cl cf [cln |] [| c' ccs]].
    + split; [right; right; reflexivity | exact Hall].
    + split; [left; done | exact Hall].
    + split; [left; done | exact Hall].
    + discriminate.
    + split; [right; left; done | exact Hall].
  - intros Hall c Hc. destruct (Hall c (proj2 (list_elem_of_In _ _) Hc)) as [Hkind Hc'].
    destruct c as [| ci cl cf [cln |] [| c' ccs]]; try exact Hc'.
    destruct Hkind as [? | [? | ?]]; done.
Qed.

Lemma exploreNode_pruned node : ∀ file prefix n,
  exploreNode node file prefix = Some n → node_line n ≠ None ∧ pruned n = true.
Proof.
  induction node as [type name start_line children IH] using ParsedNode_ind.
  intros file prefix n. destruct type; try discriminate.
  - rewrite exploreNode_describe. intros [= <-]. split; [done |].
    apply pruned_suite. apply Forall_forall.
    intros c (node & Hnode & Hc)%list_elem_of_omap.
    rewrite Forall_forall in IH. destruct (IH node Hnode _ _ _ Hc). auto.
  - simpl. intros [= <-]. done.
Qed.

Lemma evalueFilePath_pruned matcher entry : ∀ filePath suite,
  evalueFilePath matcher filePath entry = Resolved (Some suite) → pruned suite = true.
Proof.
  induction entry as [name parsed | name listing IH | name] using FsEntry_ind;
    intros filePath suite; [| | discriminate].
  - simpl. destruct (matcher filePath); [| discriminate].
    destruct parsed as [[type rname rline rchildren] |]; [| discriminate].
    simpl. intros [= <-]. apply pruned_suite, Forall_forall.
    intros c (node & _ & Hc)%list_elem_of_omap.
    destruct (exploreNode_pruned _ _ _ _ Hc). auto.
  - destruct listing as [files |]; [| discriminate]. simpl in IH. simpl.
    destruct (Promise_all _) as [children |] eqn:Hall; [| discriminate].
    simpl. case_decide; [| discriminate]. intros [= <-].
    apply pruned_suite, Forall_forall.
    intros c [Hlength Hc]%list_elem_of_filter.
    apply list_elem_of_omap in Hc as (v & Hv & Hsome). simpl in Hsome. subst v.
    split; [right; left; destruct (suite_children c); [simpl in Hlength; lia | done] |].
    apply Promise_all_resolved in Hall.
    assert (Hin : Resolved (Some c) ∈ Resolved <$> children)
      by (by apply list_elem_of_fmap_2).
    rewrite <- Hall in Hin.
    apply list_elem_of_omap in Hin as (f & Hf & Heval).
    destruct (mm_any (entry_name f) IGNORE_GLOBS); [discriminate |].
    injection Heval as Heval.
    rewrite Forall_forall in IH. eapply IH; eauto.
Qed.

Lemma exploreDirectory_pruned directory matcher listing testSuite :
  exploreDirectory directory matcher listing = Resolved testSuite →
  pruned testSuite = true.
Proof.
  intros Hdir.
  assert (Heval :
    evalueFilePath matcher directory (FsDirectory "" listing)
    = Resolved (if decide (0 < length (suite_children testSuite))%nat
                then Some testSuite else None))
    by (rewrite evalueFilePath_directory, Hdir; reflexivity).
  case_decide as Hlength.
  - eapply evalueFilePath_pruned. exact Heval.
  - destruct testSuite as [| i l f ln cs]; [reflexivity |].
    destruct cs; [reflexivity | simpl in Hlength; lia].
Qed.

(** *** The load lifecycle *)

Lemma loadTests_lifecycle rootPath settings name listing :
  (loadTests rootPath settings listing = ([TestLoadStartedEvent], Rejected) ∧
   ∃ kind, fails_below (createMatcher settings) kind rootPath (FsDirectory name listing))
  ∨
  ((∃ children,
      loadTests rootPath settings listing
      = ([TestLoadStartedEvent;
          TestLoadFinishedEvent (TestSuiteInfo "root" "Jest" None None children)],
         Resolved ())) ∧
   ¬ ∃ kind, fails_below (createMatcher settings) kind rootPath (FsDirectory name listing)).
Proof.
  destruct (exploreDirectory rootPath (createMatcher settings) listing)
    as [testSuite |] eqn:Hdir.
  - right. split.
    + eexists. by apply loadTests_resolved.
    + intros Hfails%(exploreDirectory_rejected_iff _ _ name). congruence.
  - left. split; [by apply loadTests_rejected |].
    by apply (exploreDirectory_rejected_iff _ _ name).
Qed.

End ExplorerFacts.
End ExplorerFacts.

(** ** The further properties, by component *)

(** *** Tree Merger *)

(** X1.  [merge] as it runs in place on the heap, on a destination array and
    a source array held in separate objects, none of them shared, returns
    with the destination array holding the forest [Mapper.merge] computes;
    it uses objects of the two forests only and leaves every other object
    as it was. *)
Theorem X1_merge_in_place_is_merge (D ts : list TreeNode) (h : InPlace.Heap)
  (dest src : nat) (FD FS : list nat) :
  InPlace.represents_array h D dest FD →
  InPlace.represents_array h ts src FS →
  NoDup (FD ++ FS) →
  ∃ h' FD',
    InPlace.merge (S (InPlace.forest_height ts)) h dest src = Some h' ∧
    InPlace.represents_array h' (Mapper.merge D ts) dest FD' ∧
    NoDup FD' ∧ FD' ⊆ FD ++ FS ∧
    ∀ x, x ∉ FD ++ FS → h' !! x = h !! x.
Proof.
  intros HD HS Hnd.
  apply (InPlaceFacts.merge_refines _ D ts h dest src FD FS); [lia | done..].
Qed.

Lemma X1_witness :
  ∃ h' FD',
    InPlace.merge 1 twoArrays 0 1 = Some h' ∧
    InPlace.represents_array h' (Mapper.merge [xTest 1] [xTest 2]) 0 FD' ∧
    NoDup FD' ∧ FD' ⊆ [0; 2; 1; 3]%nat ∧
    ∀ x, x ∉ [0; 2; 1; 3]%nat → h' !! x = twoArrays !! x.
Proof.
  apply (X1_merge_in_place_is_merge [xTest 1] [xTest 2] twoArrays 0 1 [0; 2]%nat [1; 3]%nat).
  - exists [(2%nat, [2%nat])]. split; [reflexivity |]. split; [reflexivity |].
    constructor; [| constructor]. apply InPlaceFacts.represents_test. split; reflexivity.
  - exists [(3%nat, [3%nat])]. split; [reflexivity |]. split; [reflexivity |].
    constructor; [| constructor]. apply InPlaceFacts.represents_test. split; reflexivity.
  - apply (bool_decide_unpack _). vm_compute. reflexivity.
Defined.

(** X2.  [merge] neither loses nor makes a test: the tests of the merged
    forest are the tests of the destination and the tests of the source,
    each as often as it is there (their order may change). *)
Theorem X2_merge_keeps_every_test (dest src : list TreeNode) :
  forest_tests (Mapper.merge dest src) ≡ₚ forest_tests dest ++ forest_tests src.
Proof. apply MergerShape.merge_tests. Qed.

(** X3.  [merge] removes nothing and moves nothing: the merged sequence is
    the destination, every entry at its index with its identifier, label and
    kind (a test as it was, a suite up to its children), followed by some of
    the source's entries in the order of the source. *)
Theorem X3_merge_keeps_positions (dest src : list TreeNode) :
  ∃ kept, kept `sublist_of` src ∧
          Forall2 same_entry (dest ++ kept) (Mapper.merge dest src).
Proof. apply MergerShape.merge_shape. Qed.

(** X4.  The identifiers at the top of the merged sequence are those of the
    destination and those of the source. *)
Theorem X4_merge_identifiers (dest src : list TreeNode) (x : string) :
  x ∈ node_id <$> Mapper.merge dest src ↔ x ∈ node_id <$> dest ∨ x ∈ node_id <$> src.
Proof. apply MergerShape.merge_ids. Qed.

(** X5.  When the entries of the destination and of the source all have
    different identifiers, [merge] appends the source to the destination. *)
Theorem X5_merge_appends_new_entries (dest src : list TreeNode) :
  NoDup (node_id <$> (dest ++ src)) → Mapper.merge dest src = dest ++ src.
Proof. apply MergerShape.merge_distinct. Qed.

Lemma X5_witness :
  Mapper.merge [xFile [xTest 1]] [srcFileTree "b.test.ts" "y"]
  = [xFile [xTest 1]; srcFileTree "b.test.ts" "y"].
Proof.
  apply (X5_merge_appends_new_entries [xFile [xTest 1]] [srcFileTree "b.test.ts" "y"]).
  apply (bool_decide_unpack _). vm_compute. reflexivity.
Defined.

(** X6.  [merge] keeps sibling identifiers distinct: when they are distinct
    at every level of the destination and inside every tree of the source,
    the tests of the two forests have identifiers of their own and no test has
    the identifier of a suite, then sibling identifiers are distinct at every
    level of the merged forest.  The trees of the source may share suites,
    as the trees of the files of one directory do. *)
Theorem X6_merge_keeps_siblings_distinct (dest src : list TreeNode) :
  unique_sibling_ids dest = true →
  Forall (λ s, unique_ids_below s = true) src →
  distinct_tests (dest ++ src) →
  unique_sibling_ids (Mapper.merge dest src) = true.
Proof. apply MergerUnique.merge_unique. Qed.

Lemma X6_witness :
  unique_sibling_ids
    (Mapper.merge [] [srcFileTree "a.test.ts" "x"; srcFileTree "b.test.ts" "y"]) = true.
Proof.
  apply (X6_merge_keeps_siblings_distinct []
           [srcFileTree "a.test.ts" "x"; srcFileTree "b.test.ts" "y"]).
  - reflexivity.
  - repeat constructor.
  - split.
    + apply (bool_decide_unpack _). vm_compute. reflexivity.
    + apply Forall_forall. apply (bool_decide_unpack _). vm_compute. reflexivity.
Defined.

(** *** Result Grouper *)

Section GrouperProperties.
Context `{MapperImports}.
Import Mapper.

(** X7.  [mapJestFileResultToTestSuiteInfo] makes one test of every
    assertion result of the file, with or without ancestor titles: the tests
    of the tree it returns are the tests of the assertion results, each as
    often as it is there. *)
Theorem X7_one_test_for_every_assertion (this : JestToTestAdapterMapper)
  (result : JestFileResults) (tree : TreeNode) :
  mapJestFileResultToTestSuiteInfo this result = Normal tree →
  tests_of tree ≡ₚ assertionTest this result <$> jfr_assertionResults result.
Proof. apply ResponseFacts.mapJestFileResultToTestSuiteInfo_tests. Qed.

(** X8.  In the tree of a file the test of an assertion is under the suites
    of its ancestor titles: below the file suite, which the directory suites
    are folded around, it is reached through the suites with the identifiers
    of the title paths [a[0]], [a[0] a[1]], ..., outermost first; a test
    without ancestor titles is a child of the file suite. *)
Theorem X8_test_under_its_ancestors (this : JestToTestAdapterMapper)
  (result : JestFileResults) (tree : TreeNode) :
  mapJestFileResultToTestSuiteInfo this result = Normal tree →
  ∃ label children,
    FoldedPath (JsString.split (pathWithoutWorkDir this (jfr_name result)) "/")
      (TestSuiteInfo (pathWithoutWorkDir this (jfr_name result)) label
                     (Some (jfr_name result)) None children)
      tree ∧
    ∀ r, r ∈ jfr_assertionResults result →
         at_path (ancestorIds this result (default [] (jar_ancestorTitles r)))
                 (assertionTest this result r) children.
Proof.
  intros (testSuites & Hgrouped & ->)%ResponseFacts.mapJestFileResultToTestSuiteInfo_Normal.
  eexists _, _. split; [apply MapperFacts.transformFileResultIntoTree_folded |].
  destruct (GrouperFacts.grouped_places _ _ _ _ _ Hgrouped) as [_ Hplaces].
  intros r Hr. destruct (hasAncestors r) eqn:Hancestors.
  - eapply GrouperFacts.at_path_mono; [| apply Hplaces; by apply list_elem_of_filter].
    intros n Hn. apply elem_of_app. by right.
  - replace (default [] (jar_ancestorTitles r)) with (@nil string)
      by (unfold hasAncestors in Hancestors; destruct (jar_ancestorTitles r) as [[|] |]; done).
    simpl. apply elem_of_app. left. apply list_elem_of_fmap_2.
    by apply list_elem_of_filter.
Qed.

(** X9.  The suites of ancestor titles are found or made, never made
    twice: in the tree of a file no two suites among the children of a suite
    have the same identifier. *)
Theorem X9_sibling_suites_are_distinct (this : JestToTestAdapterMapper)
  (result : JestFileResults) (tree : TreeNode) :
  mapJestFileResultToTestSuiteInfo this result = Normal tree →
  distinct_suites_below tree = true.
Proof.
  intros (testSuites & Hgrouped & ->)%ResponseFacts.mapJestFileResultToTestSuiteInfo_Normal.
  eapply GrouperFacts.FoldedPath_distinct;
    [apply MapperFacts.transformFileResultIntoTree_folded |].
  apply GrouperFacts.distinct_suites_below_spec.
  destruct (GrouperFacts.grouped_distinct _ _ _ _ _ Hgrouped
              (GrouperFacts.distinct_suites_nil)) as [Hnd Hall].
  split.
  - rewrite filter_app, GrouperFacts.suites_of_tests. exact Hnd.
  - apply Forall_app. split; [| exact Hall].
    apply Forall_forall. by intros n (r & -> & _)%list_elem_of_fmap.
Qed.

(** X10.  When [escapeRegExp] tells names apart and no assertion of the file
    has as its full name the title path of a describe block, the grouping
    throws nothing and returns a tree. *)
Theorem X10_grouping_returns (this : JestToTestAdapterMapper) (result : JestFileResults) :
  Inj (=) (=) escapeRegExp →
  (∀ r1 r2 k, r1 ∈ jfr_assertionResults result → r2 ∈ jfr_assertionResults result →
              (k < length (default [] (jar_ancestorTitles r2)))%nat →
              jar_fullName r1
              ≠ String.concat " " (take (k + 1) (default [] (jar_ancestorTitles r2)))) →
  ∃ tree, mapJestFileResultToTestSuiteInfo this result = Normal tree.
Proof.
  intros Hinj Hfree.
  destruct (GrouperFacts.grouped_returns this result
              (filter (λ r, hasAncestors r = true) (jfr_assertionResults result)) [])
    as [testSuites Hgrouped].
  { intros e r k He [_ Hr]%list_elem_of_filter Hk.
    simpl in He. apply list_elem_of_fmap in He as (r1 & -> & [_ Hr1]%list_elem_of_filter).
    unfold ancestorId, assertionTest, mapJestAssertionToTestInfo. simpl.
    rewrite JsStringFacts.join_Some_concat.
    intros Heq%(IdentifierFacts.getTestId_inj _ _ Hinj).
    by apply (Hfree r1 r k). }
  eexists. apply ResponseFacts.mapJestFileResultToTestSuiteInfo_Normal. eauto.
Qed.

(** X11.  A test with the name of a describe block next to it makes the
    grouping throw: when an assertion with the ancestor titles [a] has the
    full name [a name], and the next assertion has ancestor titles that
    begin with [a] and [name], the walk for the second one finds the test of
    the first where it looks for a suite, and its [children] is
    [undefined]. *)
Theorem X11_test_named_as_describe_throws (this : JestToTestAdapterMapper)
  (file title1 title2 fullName2 name : string) (a more : list string)
  (rest : list JestAssertionResults) :
  a ≠ [] →
  mapJestFileResultToTestSuiteInfo this
    {| jfr_name := file;
       jfr_assertionResults :=
         {| jar_title := title1;
            jar_fullName := String.concat " " (a ++ [name]);
            jar_ancestorTitles := Some a |}
         :: {| jar_title := title2;
               jar_fullName := fullName2;
               jar_ancestorTitles := Some (a ++ name :: more) |}
         :: rest |}
  = Throw TypeError.
Proof.
  intros Ha. destruct a as [| outer a]; [done |].
  unfold mapJestFileResultToTestSuiteInfo. simpl jfr_assertionResults.
  rewrite !filter_cons, !decide_True by reflexivity.
  set (result := {| jfr_name := file |}).
  change (foldl _ (Normal []) ?rs) with (foldl (groupAssertion this result) (Normal []) rs).
  change (foldl ?f ?z (?r1 :: ?r2 :: ?rs)) with (foldl f (f (f z r1) r2) rs).
  match goal with |- context [groupAssertion this result (Normal []) ?r] =>
    destruct (GrouperFacts.insertAssertion_fresh this result r
                (outer :: a) (outer :: a) 0) as [tree1 Htree1];
    change (groupAssertion this result (Normal []) r)
      with (insertAssertion this result r (outer :: a) 0 (outer :: a) [])
  end.
  rewrite Htree1.
  match goal with |- context [groupAssertion this result (Normal tree1) ?r] =>
    change (groupAssertion this result (Normal tree1) r)
      with (insertAssertion this result r ((outer :: a) ++ name :: more) 0
              ((outer :: a) ++ name :: more) tree1)
  end.
  erewrite GrouperFacts.insertAssertion_clash; [| reflexivity | | exact Htree1]; [| reflexivity].
  rewrite GrouperFacts.step_Throw. reflexivity.
Qed.

End GrouperProperties.

Lemma X7_witness :
  ∃ tree,
    Mapper.mapJestFileResultToTestSuiteInfo (H := exampleImports)
      {| workDir := "/root" |} mathFile = Normal tree ∧
    tests_of tree
    ≡ₚ assertionTest (H := exampleImports) {| workDir := "/root" |} mathFile
         <$> jfr_assertionResults mathFile.
Proof.
  eexists. split; [reflexivity |].
  apply (X7_one_test_for_every_assertion (H := exampleImports)). reflexivity.
Defined.

Lemma X8_witness :
  ∃ label children,
    FoldedPath ["" ; "math.test.ts"]
      (TestSuiteInfo "/math.test.ts" label (Some "/root/math.test.ts") None children)
      (TestSuiteInfo "/math.test.ts" "math.test.ts" (Some "/root/math.test.ts") None
         [TestSuiteInfo "/math.test.ts#^Math$" "Math" (Some "/root/math.test.ts") None
            [TestSuiteInfo "/math.test.ts#^Math Addition$" "Addition"
               (Some "/root/math.test.ts") None
               [TestInfo "/math.test.ts#^Math Addition adds$" "adds"
                  (Some "/root/math.test.ts") None (Some false)];
             TestSuiteInfo "/math.test.ts#^Math Subtraction$" "Subtraction"
               (Some "/root/math.test.ts") None
               [TestInfo "/math.test.ts#^Math Subtraction subtracts$" "subtracts"
                  (Some "/root/math.test.ts") None (Some false)]]]) ∧
    ∀ r, r ∈ jfr_assertionResults mathFile →
         at_path (ancestorIds (H := exampleImports) {| workDir := "/root" |} mathFile
                    (default [] (jar_ancestorTitles r)))
                 (assertionTest (H := exampleImports) {| workDir := "/root" |} mathFile r)
                 children.
Proof.
  apply (X8_test_under_its_ancestors (H := exampleImports) {| workDir := "/root" |} mathFile).
  reflexivity.
Defined.

Lemma X9_witness :
  ∃ tree,
    Mapper.mapJestFileResultToTestSuiteInfo (H := exampleImports)
      {| workDir := "/root" |} mathFile = Normal tree ∧
    distinct_suites_below tree = true.
Proof.
  eexists. split; [reflexivity |].
  apply (X9_sibling_suites_are_distinct (H := exampleImports) {| workDir := "/root" |}
           mathFile).
  reflexivity.
Defined.

Lemma X10_witness :
  ∃ tree,
    Mapper.mapJestFileResultToTestSuiteInfo (H := exampleImports)
      {| workDir := "/root" |} mathFile = Normal tree.
Proof.
  apply (X10_grouping_returns (H := exampleImports) {| workDir := "/root" |} mathFile).
  - exact IdentifierFacts.escapeRegExpLiteral_inj.
  - intros r1 r2 k Hr1 Hr2 Hk.
    apply list_elem_of_In in Hr1, Hr2. simpl in Hr1, Hr2.
    destruct Hr1 as [<- | [<- | []]], Hr2 as [<- | [<- | []]];
      simpl in Hk; destruct k as [| [| k]]; simpl; try discriminate; lia.
Defined.

Lemma X11_witness :
  Mapper.mapJestFileResultToTestSuiteInfo (H := exampleImports) {| workDir := "/root" |}
    {| jfr_name := "/root/math.test.ts";
       jfr_assertionResults :=
         [ {| jar_title := "adds"; jar_fullName := "Math adds";
              jar_ancestorTitles := Some ["Math"] |};
           {| jar_title := "carries"; jar_fullName := "Math adds carries";
              jar_ancestorTitles := Some ["Math"; "adds"] |} ] |}
  = Throw TypeError.
Proof.
  apply (X11_test_named_as_describe_throws (H := exampleImports) {| workDir := "/root" |}
           "/root/math.test.ts" "adds" "carries" "Math adds carries" "adds" ["Math"] [] []).
  discriminate.
Defined.

(** *** Response and declaration mappers *)

Section ResponseProperties.
Context `{MapperImports}.
Import Mapper.

(** X12.  The tree of a test run has the root [root] and, when it is
    returned, one test for every assertion result of every file of the run:
    merging the trees of the files loses none and makes none. *)
Theorem X12_response_tests (this : JestToTestAdapterMapper)
  (testResults : list JestFileResults) (tree : TreeNode) :
  mapJestResponseToTestSuiteInfo this testResults = Normal tree →
  node_id tree = "root" ∧
  tests_of tree
  ≡ₚ mjoin ((λ result, assertionTest this result <$> jfr_assertionResults result)
              <$> testResults).
Proof.
  intros Htree. split; [| by apply ResponseFacts.mapJestResponseToTestSuiteInfo_tests].
  unfold mapJestResponseToTestSuiteInfo in Htree.
  destruct (mapM_completion _ _); [| discriminate]. simpl in Htree.
  injection Htree as <-. reflexivity.
Qed.

(** X13.  [mapJestResponseToTestSuiteInfo] throws exactly when the mapping
    of one of the files throws: one file with a test named as a describe
    block costs the tree of the whole run. *)
Theorem X13_response_throws_with_a_file (this : JestToTestAdapterMapper)
  (testResults : list JestFileResults) :
  mapJestResponseToTestSuiteInfo this testResults = Throw TypeError ↔
  Exists (λ result, mapJestFileResultToTestSuiteInfo this result = Throw TypeError)
         testResults.
Proof.
  rewrite <- ResponseFacts.mapM_completion_Throw. unfold mapJestResponseToTestSuiteInfo.
  destruct (mapM_completion _ _) as [suiteResults | []]; simpl; split; done.
Qed.

(** X14.  The tree of the declarations has one test for every [it] block
    of every parse result whose last block names a file, and none for the
    blocks of the other parse results, whatever file their earlier blocks
    name. *)
Theorem X14_declared_tests (this : JestToTestAdapterMapper)
  (loadedTests : list IParseResults) :
  tests_of (mapJestParseToTestSuiteInfo this loadedTests)
  ≡ₚ mjoin ((λ testFile, itBlockTestInfo this <$> itBlocks testFile)
              <$> filter (λ testFile, hasFileName testFile = true) loadedTests).
Proof. apply ResponseFacts.mapJestParseToTestSuiteInfo_all_tests. Qed.

End ResponseProperties.

Lemma X12_witness :
  ∃ tree,
    Mapper.mapJestResponseToTestSuiteInfo (H := exampleImports)
      {| workDir := "/root" |} [mathFile] = Normal tree ∧
    node_id tree = "root" ∧
    tests_of tree
    ≡ₚ mjoin ((λ result, assertionTest (H := exampleImports) {| workDir := "/root" |} result
                           <$> jfr_assertionResults result) <$> [mathFile]).
Proof.
  eexists. split; [reflexivity |].
  apply (X12_response_tests (H := exampleImports) {| workDir := "/root" |} [mathFile]).
  reflexivity.
Defined.

(** *** Path-to-Tree Folder and Identifier Builder *)

Section FolderProperties.
Context `{MapperImports}.
Import Mapper JsString.

(** X15.  For a path in which no two empty segments follow each other
    (before the file name), the folding puts one directory suite around the
    file suite for every segment before the last that is not empty, outermost
    first, with the segments up to its own joined by [/] as identifier and
    its segment as label; an empty segment, as in front of a leading [/],
    gets no suite. *)
Theorem X15_directories_of_a_path (this : JestToTestAdapterMapper)
  (resultFileName : string) (fileTestCases : list TreeNode) :
  (∀ k, (S (S k) < length (split (pathWithoutWorkDir this resultFileName) "/"))%nat →
        split (pathWithoutWorkDir this resultFileName) "/" !! k = Some "" →
        split (pathWithoutWorkDir this resultFileName) "/" !! S k ≠ Some "") →
  directories (transformFileResultIntoTree this resultFileName fileTestCases)
  = omap (directoryOf (split (pathWithoutWorkDir this resultFileName) "/"))
         (seq 0 (length (split (pathWithoutWorkDir this resultFileName) "/") - 1)).
Proof.
  intros Hclean. unfold transformFileResultIntoTree.
  set (segments := split (pathWithoutWorkDir this resultFileName) "/") in *.
  assert (Hsome : (0 < length segments)%nat).
  { pose proof (JsStringFacts.split_nonempty (pathWithoutWorkDir this resultFileName) "/"
                  ltac:(discriminate)) as Hne.
    fold segments in Hne. destruct segments; [done | simpl; lia]. }
  replace (Z.of_nat (length segments) - 2) with (Z.of_nat (length segments - 1) - 1) by lia.
  rewrite FolderFacts.createDirectoryStructure_directories;
    [apply app_nil_r | lia | intros k Hk; apply Hclean; lia].
Qed.

(** X16.  The identifiers nest: the identifier of every directory suite
    around a file suite, followed by [/], is the beginning of the identifier
    of the file suite. *)
Theorem X16_directory_identifier_begins_file_identifier (this : JestToTestAdapterMapper)
  (resultFileName : string) (fileTestCases : list TreeNode) (i l : string) :
  (i, l) ∈ directories (transformFileResultIntoTree this resultFileName fileTestCases) →
  ∃ rest, pathWithoutWorkDir this resultFileName = i +:+ "/" +:+ rest.
Proof.
  unfold transformFileResultIntoTree.
  set (segments := split (pathWithoutWorkDir this resultFileName) "/").
  assert (Hsome : (0 < length segments)%nat).
  { pose proof (JsStringFacts.split_nonempty (pathWithoutWorkDir this resultFileName) "/"
                  ltac:(discriminate)) as Hne.
    fold segments in Hne. destruct segments; [done | simpl; lia]. }
  replace (Z.of_nat (length segments) - 2) with (Z.of_nat (length segments - 1) - 1) by lia.
  intros Hin.
  apply FolderFacts.createDirectoryStructure_directory in Hin
    as [Hleaf | (k & segment & Hk & _ & [= -> _])]; [by apply elem_of_nil in Hleaf | | lia].
  exists (String.concat "/" (drop (S k) segments)).
  rewrite <- (JsStringMore.join_split (pathWithoutWorkDir this resultFileName) "/")
    by discriminate.
  fold segments. apply JsStringMore.concat_take_drop. lia.
Qed.

(** X17.  No backslash is left in the identifier of a file suite. *)
Theorem X17_no_backslash_in_file_identifier (this : JestToTestAdapterMapper)
  (fileName : string) :
  includes (pathWithoutWorkDir this fileName) "\" = false.
Proof. apply JsStringMore.backslashesToSlashes_clean. Qed.

(** X18.  For a file below the working directory the identifier is the rest
    of the path: the working directory, ASCII text (for which the comparison
    of letters here is the one of the source), is removed from the start of
    the file name, in whatever letter case it is there, and when it does not
    occur again the rest is kept, its backslashes turned into slashes. *)
Theorem X18_working_directory_removed (w w' rest : string) :
  asciiText w = true →
  String.length w' = String.length w →
  starts_with eqb_ci w w' = true →
  occurs eqb_ci w rest = false →
  pathWithoutWorkDir {| workDir := w |} (w' +:+ rest) = backslashesToSlashes rest.
Proof.
  intros _ Hlength Hstarts Habsent. unfold pathWithoutWorkDir, stripWorkDir. simpl.
  rewrite (JsStringMore.removeAll_prefix _ _ _ _ Hlength Hstarts).
  rewrite JsStringFacts.removeAll_absent by exact Habsent. reflexivity.
Qed.

(** X19.  When [escapeRegExp] tells names apart, two tests of one file with
    different names have different identifiers. *)
Theorem X19_test_identifiers_tell_names_apart (this : JestToTestAdapterMapper)
  (fileName testName1 testName2 : string) :
  Inj (=) (=) escapeRegExp →
  testName1 ≠ testName2 →
  getTestId this fileName testName1 ≠ getTestId this fileName testName2.
Proof.
  intros Hinj Hne Heq. apply Hne.
  by apply (IdentifierFacts.getTestId_inj this fileName Hinj).
Qed.

End FolderProperties.

Lemma X15_witness :
  directories (Mapper.transformFileResultIntoTree {| workDir := "/root" |}
                 "/root/src/foo/bar.test.ts" [xTest 1])
  = [("/src", "src"); ("/src/foo", "foo")].
Proof.
  apply (X15_directories_of_a_path {| workDir := "/root" |} "/root/src/foo/bar.test.ts"
           [xTest 1]).
  intros k Hk Hk0. destruct k as [| [| k]].
  - vm_compute. discriminate.
  - vm_compute in Hk0. discriminate.
  - exfalso. simpl in Hk. lia.
Defined.

Lemma X16_witness :
  ∃ rest,
    Mapper.pathWithoutWorkDir {| workDir := "/root" |} "/root/src/foo/bar.test.ts"
    = "/src" +:+ "/" +:+ rest.
Proof.
  apply (X16_directory_identifier_begins_file_identifier {| workDir := "/root" |}
           "/root/src/foo/bar.test.ts" [xTest 1] "/src" "src").
  left.
Defined.

Lemma X18_witness :
  Mapper.pathWithoutWorkDir {| workDir := "C:\proj" |} ("c:\Proj" +:+ "\src\a.test.ts")
  = "/src/a.test.ts".
Proof.
  apply (X18_working_directory_removed "C:\proj" "c:\Proj" "\src\a.test.ts");
    reflexivity.
Defined.

Lemma X19_witness :
  Mapper.getTestId (H := exampleImports) {| workDir := "/root" |} "/root/math.test.ts"
    "Math adds"
  ≠ Mapper.getTestId (H := exampleImports) {| workDir := "/root" |} "/root/math.test.ts"
      "Math adds.".
Proof.
  apply (X19_test_identifiers_tell_names_apart (H := exampleImports)).
  - exact IdentifierFacts.escapeRegExpLiteral_inj.
  - discriminate.
Defined.

(** *** Status Resolver and Filter Translator *)

Section StatusProperties.
Context `{MapperImports}.
Import Mapper.

(** X20.  The decorations of an assertion follow its status: there is none
    exactly when there is no reconciler or the file has no record with the
    full name of the assertion as title (also when it has no records at
    all), one otherwise, never more; and the decoration is at the line of the
    test node of the assertion, at line 0 when that has none. *)
Theorem X20_decorations_follow_the_status (this : JestToTestAdapterMapper)
  (result : JestAssertionResults) (fileResult : JestFileResults)
  (reconciler : option TestReconciler) :
  (mapJestAssertionToTestDecorations result (jfr_name fileResult) reconciler = [] ↔
   reconciler = None ∨
   ∃ r, reconciler = Some r ∧
        Forall (λ st, tas_title st ≠ jar_fullName result)
               (default [] (assertionsForTestFile r (jfr_name fileResult)))) ∧
  (length (mapJestAssertionToTestDecorations result (jfr_name fileResult) reconciler) ≤ 1)%nat ∧
  (∀ d, d ∈ mapJestAssertionToTestDecorations result (jfr_name fileResult) reconciler →
        td_line d
        = default 0 (node_line (mapJestAssertionToTestInfo this result fileResult reconciler))).
Proof.
  unfold mapJestAssertionToTestDecorations, mapJestAssertionToTestInfo.
  rewrite StatusFacts.getAssertionStatus_resolved.
  assert (Hnone :
    resolvedStatus reconciler (jfr_name fileResult) (jar_fullName result) = None ↔
    reconciler = None ∨
    ∃ r, reconciler = Some r ∧
         Forall (λ st, tas_title st ≠ jar_fullName result)
                (default [] (assertionsForTestFile r (jfr_name fileResult)))).
  { destruct reconciler as [r |]; simpl; [| by split; [left |]].
    destruct (assertionsForTestFile r (jfr_name fileResult)) as [records |] eqn:Hrecords.
    - rewrite StatusFacts.first_titled_None. split.
      + intros Hall. right. exists r. rewrite Hrecords. done.
      + intros [[=] | (r' & [= <-] & Hall)]. by rewrite Hrecords in Hall.
    - split; [| done]. intros _. right. exists r. rewrite Hrecords. split; [done | constructor]. }
  rewrite <- Hnone.
  destruct (resolvedStatus reconciler (jfr_name fileResult) (jar_fullName result)) as [st |].
  - split_and!; [split; discriminate | simpl; lia |].
    intros d ->%list_elem_of_singleton. reflexivity.
  - split_and!; [done | simpl; lia |]. by intros d ?%elem_of_nil.
Qed.

(** X21.  What [mapTestIdsToTestFilter] returns is decided by the first
    identifier alone: [null] exactly when it is [root], whatever follows; an
    exception exactly for the empty list; and a filter with a pattern for the
    test names exactly when the first identifier contains the separator,
    a filter for file names only otherwise, whatever the other identifiers
    are. *)
Theorem X21_first_identifier_decides (tests : list string) :
  (mapTestIdsToTestFilter tests = Normal None ↔ ∃ rest, tests = "root" :: rest) ∧
  (mapTestIdsToTestFilter tests = Throw TypeError ↔ tests = []) ∧
  (∀ f, mapTestIdsToTestFilter tests = Normal (Some f) →
        (is_Some (testNamePattern f) ↔
         ∃ tests0 rest, tests = tests0 :: rest ∧
                        JsString.includes tests0 TEST_ID_SEPARATOR = true)).
Proof.
  destruct tests as [| tests0 rest]; simpl.
  { split_and!; [split; [discriminate | by intros [? [=]]] | done | discriminate]. }
  case_decide as Hroot; [subst tests0 |].
  { split_and!; [split; eauto | split; discriminate | discriminate]. }
  destruct (JsString.includes tests0 TEST_ID_SEPARATOR) eqn:Hincludes.
  - split_and!; [split; [discriminate | by intros [? [= ? ?]]] | split; discriminate |].
    intros f [= <-]. simpl. split; [eauto | eauto].
  - split_and!; [split; [discriminate | by intros [? [= ? ?]]] | split; discriminate |].
    intros f [= <-]. simpl. split; [by intros [? [=]] |].
    intros (t & r & [= <- <-] & Ht). congruence.
Qed.

End StatusProperties.

(** *** Node Classifier, Directory Explorer and load lifecycle *)

Section ExplorerProperties.
Context `{LoaderImports}.
Import Loader.

(** X22.  The suite of a parsed file has the path of the file as its
    identifier, and one test for every [it] block that is reached from the
    root through [describe] blocks only, with the name of the block as label
    and its line, in the order of the file; what is inside an [it] block or
    inside a node of another kind gives no test. *)
Theorem X22_tests_of_a_parsed_file (file : string) (type : ParsedNodeTypes) (name : string)
  (start_line : Z) (children : option (list ParsedNode)) :
  ∃ suite,
    exploreFile file (Some (mkParsedNode type name start_line children)) = Resolved suite ∧
    node_id suite = file ∧
    labelled <$> tests_of suite
    = (λ b, (b.1, Some b.2)) <$> mjoin (itBlocksOf <$> default [] children).
Proof.
  destruct (ExplorerFacts.exploreFile_tests file type name start_line children)
    as (suite & Hsuite & Htests).
  exists suite. split_and!; [exact Hsuite | | exact Htests].
  by eapply LoaderFacts.exploreFile_id.
Qed.

(** X23.  The exploration of a directory is rejected only for a reason: it
    is rejected exactly when, in a place that is not ignored, an entry cannot
    be examined, a directory cannot be listed or a file the matcher accepts
    cannot be parsed. *)
Theorem X23_rejected_exactly_on_failure (matcher : Matcher) (directory name : string)
  (listing : option (list FsEntry)) :
  exploreDirectory directory matcher listing = Rejected ↔
  ∃ kind, fails_below matcher kind directory (FsDirectory name listing).
Proof. apply ExplorerFacts.exploreDirectory_rejected_iff. Qed.

(** X24.  The two outcomes of [loadTests]: the started event alone and a
    rejected promise when the exploration meets a failure; the started event,
    then one finished event with the suite [root], and a resolved promise
    when it meets none. *)
Theorem X24_load_lifecycle (rootPath : string) (settings : JestSettings) (name : string)
  (listing : option (list FsEntry)) :
  (loadTests rootPath settings listing = ([TestLoadStartedEvent], Rejected) ∧
   ∃ kind, fails_below (createMatcher settings) kind rootPath (FsDirectory name listing))
  ∨
  ((∃ children,
      loadTests rootPath settings listing
      = ([TestLoadStartedEvent;
          TestLoadFinishedEvent (TestSuiteInfo "root" "Jest" None None children)],
         Resolved ())) ∧
   ¬ ∃ kind, fails_below (createMatcher settings) kind rootPath (FsDirectory name listing)).
Proof. apply ExplorerFacts.loadTests_lifecycle. Qed.

(** X25.  An entry counts for nothing when its name is ignored (it is then
    not examined at all), or when its evaluation gives [null] (a file the
    matcher does not accept, a directory without tests) or a suite without
    children (a file without tests): the exploration returns what it returns
    without the entry. *)
Theorem X25_entry_without_tests_counts_for_nothing (directory : string) (matcher : Matcher)
  (before : list FsEntry) (e : FsEntry) (after : list FsEntry) :
  mm_any (entry_name e) IGNORE_GLOBS = true ∨
  (∃ v, evalueFilePath matcher (path_join [directory; entry_name e]) e = Resolved v ∧
        ∀ s, v = Some s → suite_children s = []) →
  exploreDirectory directory matcher (Some (before ++ e :: after))
  = exploreDirectory directory matcher (Some (before ++ after)).
Proof. apply ExplorerFacts.exploreDirectory_without. Qed.

(** X26.  The children of a directory suite follow the listing: their
    identifiers are paths of the entries, the directory joined with the
    entry's name, in the order of the listing. *)
Theorem X26_children_in_listing_order (directory : string) (matcher : Matcher)
  (files : list FsEntry) (testSuite : TreeNode) :
  exploreDirectory directory matcher (Some files) = Resolved testSuite →
  node_id <$> suite_children testSuite
    `sublist_of` (λ f, path_join [directory; entry_name f]) <$> files.
Proof. apply ExplorerFacts.exploreDirectory_order. Qed.

(** X27.  The tree of a directory is pruned of directories and files
    without content at every level: below the suite returned, every suite of
    a directory and every suite of a file (the suites without a line) has a
    child.  The suite of an empty [describe] block is kept. *)
Theorem X27_no_empty_directory_or_file (directory : string) (matcher : Matcher)
  (listing : option (list FsEntry)) (testSuite : TreeNode) :
  exploreDirectory directory matcher listing = Resolved testSuite →
  pruned testSuite = true.
Proof. apply ExplorerFacts.exploreDirectory_pruned. Qed.

End ExplorerProperties.

Lemma X25_witness :
  Loader.exploreDirectory (H := posixImports) "/root"
    (Loader.createMatcher (H := posixImports) everyFile)
    (Some ([] ++ FsFile "readme.md" None :: [addsFile]))
  = Loader.exploreDirectory (H := posixImports) "/root"
      (Loader.createMatcher (H := posixImports) everyFile) (Some ([] ++ [addsFile])).
Proof.
  apply (X25_entry_without_tests_counts_for_nothing (H := posixImports) "/root"
           (Loader.createMatcher (H := posixImports) everyFile)
           [] (FsFile "readme.md" None) [addsFile]).
  right. exists None. split; [reflexivity |]. intros s. discriminate.
Defined.

Lemma X26_witness :
  node_id <$> suite_children
                (TestSuiteInfo "/root" "root" (Some "/root") None
                   [TestSuiteInfo "/root/a.test.js" "a.test.js" (Some "/root/a.test.js") None
                      [TestInfo "/root/a.test.js/root/a.test.js/adds" "adds"
                                (Some "/root/a.test.js") (Some 2) None]])
    `sublist_of` (λ f, path_join (LoaderImports := posixImports) ["/root"; entry_name f])
                   <$> [FsFile "readme.md" None; addsFile].
Proof.
  apply (X26_children_in_listing_order (H := posixImports) "/root"
           (Loader.createMatcher (H := posixImports) everyFile)
           [FsFile "readme.md" None; addsFile]).
  reflexivity.
Defined.

Lemma X27_witness :
  pruned (TestSuiteInfo "/root" "root" (Some "/root") None
            [TestSuiteInfo "/root/a.test.js" "a.test.js" (Some "/root/a.test.js") None
               [TestInfo "/root/a.test.js/root/a.test.js/adds" "adds"
                         (Some "/root/a.test.js") (Some 2) None]]) = true.
Proof.
  apply (X27_no_empty_directory_or_file (H := posixImports) "/root"
           (Loader.createMatcher (H := posixImports) everyFile)
           (Some [FsFile "readme.md" None; FsDirectory "empty" (Some []); addsFile])).
  reflexivity.
Defined.

Section FilterProperties.
Context `{MapperImports}.
Import Mapper JsString JsStringFacts.

(** X28.  A selection that begins with a test and goes on with files: the
    files are taken as they are into the pattern for file names, and each
    adds an empty alternative to the pattern for test names, which then
    matches every test name. *)
Theorem X28_files_after_a_test (part : string * string) (files : list string) :
  occurrences Ascii.eqb TEST_ID_SEPARATOR (testIdOf part) = 1%nat →
  Forall (λ f, occurrences Ascii.eqb TEST_ID_SEPARATOR f = 0%nat) files →
  mapTestIdsToTestFilter (testIdOf part :: files)
  = Normal (Some {| testFileNamePattern := alternation (part.1 :: files);
                    testNamePattern :=
                      Some (alternation (anchored part.2 :: ((λ _, "") <$> files))) |}).
Proof.
  intros Hpart Hfiles.
  destruct (FilterFacts.separator_nonempty part Hpart) as (a & sep & Hsep).
  rewrite FilterFacts.mapTestIdsToTestFilter_names.
  2:{ apply FilterFacts.testIdOf_not_root. }
  2:{ apply occurs_occurrences. rewrite Hpart. lia. }
  rewrite !fmap_cons, (FilterFacts.split_testIdOf part Hpart). simpl lookup.
  assert (Hsplit :
    (λ t, split t TEST_ID_SEPARATOR !! 0%nat) <$> files = Some <$> files ∧
    (λ t, split t TEST_ID_SEPARATOR !! 1%nat) <$> files = (λ _, None) <$> files).
  { induction Hfiles as [| f files Hf _ [IH0 IH1]]; [done |].
    rewrite !fmap_cons, IH0, IH1. unfold split. rewrite Hsep in *.
    rewrite (split_scan_absent _ _ Hf). done. }
  destruct Hsplit as [-> ->].
  change (Some part.1 :: (Some <$> files)) with (Some <$> (part.1 :: files)).
  rewrite join_Some_concat. unfold alternation, join.
  assert (Hnone : map (default "") ((λ _ : string, @None string) <$> files)
                  = (λ _, "") <$> files).
  { clear. induction files as [| f files IH]; [reflexivity |].
    rewrite !fmap_cons. simpl. f_equal. exact IH. }
  change (map (default "") (Some (anchored part.2) :: ?l))
    with (anchored part.2 :: map (default "") l).
  rewrite Hnone. reflexivity.
Qed.

End FilterProperties.

Lemma X28_witness :
  Mapper.mapTestIdsToTestFilter (H := exampleImports) ["/a.test.ts#^x$"; "/b.test.ts"]
  = Normal (Some {| testFileNamePattern := "(/a.test.ts|/b.test.ts)";
                    testNamePattern := Some "(^x$|)" |}).
Proof.
  apply (X28_files_after_a_test (H := exampleImports) ("/a.test.ts", "x") ["/b.test.ts"]).
  - reflexivity.
  - repeat constructor.
Defined.

